(** * Pseudo-label refinement engine of SHOT (open-set target adaptation)

    Shallow embedding of [obtain_label] from [shot/train_target_oda.py].

    Numbers.  The Python code works on float32/float64 tensors; here every
    tensor entry is a real number of type [R], so rounding is idealised away.
    The two places where the code can produce a NaN from exact data are kept:
    the mean of an empty selection (torch returns NaN) and the cosine distance
    to a zero vector (scipy returns NaN).  A possibly-NaN number is an
    [option R], [None] standing for NaN; comparisons with NaN are false and
    numpy's [argmin] returns the position of the first NaN.  Entropy scores
    that would not be finite (logarithm of a non-positive number, division by
    [np.log(1)]) are detected by [ent_finite], and the pass then stops where
    scikit-learn rejects its input.

    Shapes.  A matrix is a list of rows; all rows of a tensor have the same
    length, and a classifier has at least one output.

    External collaborators.  The networks are applied outside: a record of the
    loader carries the feature vector [netB(netF(x))], the classifier output
    [netC(feas)] and the ground-truth label.  scikit-learn's
    [KMeans(2, random_state=0).fit] is a section variable; with a fixed
    [random_state] it is a function of its input. *)

From Stdlib Require Import String Ascii.
From Stdlib Require Import Reals Lra Lia List ZArith Bool Arith Sorted.
Import ListNotations.
Open Scope R_scope.

(** ** Exceptions and results *)

Inductive exn : Type :=
| UnboundLocalError      (* line 51: [all_output] was never assigned *)
| ZeroDivisionError      (* line 53: [float(all_label.size()[0])] is 0.0 *)
| ValueError_not_finite  (* line 62: KMeans input contains NaN or infinity *)
| ValueError_n_samples   (* line 62: KMeans needs n_samples >= n_clusters *)
| ValueError_argmin.     (* lines 87, 95: argmin of an empty sequence *)

Inductive result (A : Type) : Type :=
| Ok (a : A)
| Raise (e : exn).
Arguments Ok {A} a.
Arguments Raise {A} e.

Definition bind {A B : Type} (r : result A) (k : A -> result B) : result B :=
  match r with
  | Ok a => k a
  | Raise e => Raise e
  end.

Notation "x <- r ;; k" := (bind r (fun x => k))
  (at level 61, r at next level, right associativity).

(** ** Tensors *)

Definition vec := list R.
Definition matrix := list vec.

(** A float that may be NaN. *)
Definition float := option R.

Definition Rltb (x y : R) : bool := if Rlt_dec x y then true else false.
Definition Rgtb (x y : R) : bool := if Rgt_dec x y then true else false.

(** [a > b] on floats: false as soon as one side is NaN. *)
Definition float_gt (a b : float) : bool :=
  match a, b with
  | Some x, Some y => Rgtb x y
  | _, _ => false
  end.

(** [torch.sum] / [ndarray.sum] over one axis. *)
Definition sum (v : vec) : R := fold_right Rplus 0 v.
Arguments sum : simpl never.

(** [t.mean()]: NaN on an empty tensor. *)
Definition mean (v : vec) : float :=
  match v with
  | [] => None
  | _ :: _ => Some (sum v / INR (length v))
  end.

(** [np.where(cond)[0]]: the increasing list of positions where [f] holds. *)
Fixpoint where_from {A : Type} (f : A -> bool) (i : nat) (l : list A) : list nat :=
  match l with
  | [] => []
  | x :: t => if f x then i :: where_from f (S i) t else where_from f (S i) t
  end.

Definition np_where {A : Type} (f : A -> bool) (l : list A) : list nat :=
  where_from f 0 l.

(** [t[idx]] for an index array [idx] (all indices are in range in this
    program; [dflt] is never read). *)
Definition take {A : Type} (dflt : A) (idx : list nat) (l : list A) : list A :=
  map (fun i => nth i l dflt) idx.

(** [torch.nn.Softmax(dim=1)] on one row. *)
Definition softmax (row : vec) : vec :=
  map (fun x => exp x / sum (map exp row)) row.

(** [torch.max(t, 1)] indices on one row: position of the first maximum. *)
Fixpoint argmax_from (best : R) (besti i : nat) (l : vec) : nat :=
  match l with
  | [] => besti
  | x :: t => if Rgtb x best then argmax_from x i (S i) t
              else argmax_from best besti (S i) t
  end.

Definition argmax (row : vec) : nat :=
  match row with
  | [] => 0%nat
  | x :: t => argmax_from x 0 1 t
  end.

(** numpy's order inside [argmin]: a NaN beats every number, nothing beats
    a NaN already found. *)
Definition float_lt_min (a b : float) : bool :=
  match a, b with
  | None, Some _ => true
  | Some x, Some y => Rltb x y
  | _, None => false
  end.

Fixpoint argmin_from (best : float) (besti i : nat) (l : list float) : nat :=
  match l with
  | [] => besti
  | x :: t => if float_lt_min x best then argmin_from x i (S i) t
              else argmin_from best besti (S i) t
  end.

Definition argmin (row : list float) : nat :=
  match row with
  | [] => 0%nat
  | x :: t => argmin_from x 0 1 t
  end.

(** [dd.argmin(axis=1)] for a matrix with [ncols] columns: numpy raises
    ValueError when the reduced axis is empty, whatever the number of rows. *)
Definition argmin_axis1 (ncols : nat) (dd : list (list float)) : result (list nat) :=
  if (ncols =? 0)%nat then Raise ValueError_argmin else Ok (map argmin dd).

(** ** Configuration and loader records *)

Inductive metric : Type := cosine | euclidean.

Definition metric_eqb (a b : metric) : bool :=
  match a, b with
  | cosine, cosine | euclidean, euclidean => true
  | _, _ => false
  end.

(** The fields of [cfg] that [obtain_label] reads: [cfg.model.distance],
    [cfg.model.epsilon], [cfg.dataset.class_num], [cfg.train.threshold]. *)
Record Config : Type := {
  distance : metric;
  epsilon : R;
  class_num : nat;
  threshold : R
}.

(** One sample of a batch after the forward pass. *)
Record sample : Type := {
  feas : vec;       (* netB(netF(inputs)) *)
  outputs : vec;    (* netC(feas), the logits *)
  labels : nat      (* data[1], ground truth *)
}.

(** ** Entropy scorer (line 58) *)

Definition Entropy (eps : R) (class_num : nat) (p : vec) : R :=
  sum (map (fun pk => - pk * ln (pk + eps)) p) / ln (INR class_num).

(** Whether line 58 yields finite scores: [torch.log] of a non-positive
    number is NaN or -inf, and [np.log(1)] is a zero divisor.  scikit-learn
    rejects an input that is not finite. *)
Definition ent_finite (eps : R) (class_num : nat) (all_output : matrix) : bool :=
  negb (class_num =? 1)%nat
  && forallb (forallb (fun pk => Rltb 0 (pk + eps))) all_output.

(** ** Cosine preprocessing (lines 54-56) *)

Definition norm (v : vec) : R := sqrt (sum (map (fun x => x * x) v)).

Definition cosine_prepare (v : vec) : vec :=
  let v1 := v ++ [1] in
  map (fun x => x / norm v1) v1.

(** ** Fitted KMeans estimator (scikit-learn) *)

Record KMeans : Type := {
  labels_ : list nat;            (* kmeans.labels_ *)
  cluster_centers_ : R * R       (* kmeans.cluster_centers_, shape (2,1) *)
}.

(** [kmeans.predict] on one value: index of the closest centre, the first
    one on a tie (scikit-learn's documented behaviour). *)
Definition predict (km : KMeans) (x : R) : nat :=
  let (c0, c1) := cluster_centers_ km in
  if Rltb (Rabs (x - c1)) (Rabs (x - c0)) then 1%nat else 0%nat.

(** ** Open-set splitter (lines 63-75) *)

Definition split_iidx (ent : vec) (labels : list nat) : nat :=
  let idx := np_where (fun l => (l =? 1)%nat) labels in
  if float_gt (mean (take 0 idx ent)) (mean ent) then 1%nat else 0%nat.

Definition split_known_idx (ent : vec) (km : KMeans) : list nat :=
  let labels := map (predict km) ent in
  let iidx := split_iidx ent labels in
  np_where (fun l => negb (l =? iidx)%nat) (labels_ km).

Definition ENT_THRESHOLD_of (km : KMeans) : R :=
  let (c0, c1) := cluster_centers_ km in (c0 + c1) / 2.

(** ** Prototype builder (lines 79-81, 91-93) *)

Definition column (k : nat) (m : matrix) : vec := map (fun row => nth k row 0) m.

Definition vadd (u v : vec) : vec := map (fun p => fst p + snd p) (combine u v).
Definition vscale (a : R) (v : vec) : vec := map (fun x => a * x) v.

(** Row [k] of [aff.transpose().dot(all_fea)]: sum over the samples of
    [aff[i][k] * all_fea[i]], a vector of dimension [d]. *)
Definition weighted_sum (d : nat) (w : vec) (X : matrix) : vec :=
  fold_right (fun p acc => vadd (vscale (fst p) (snd p)) acc)
             (repeat 0 d) (combine w X).

(** [initc = aff.T.dot(all_fea); initc = initc / (1e-8 + aff.sum(axis=0)[:, None])] *)
Definition build_initc (K d : nat) (aff all_fea : matrix) : matrix :=
  map (fun k =>
         let w := column k aff in
         map (fun x => x / (1e-8 + sum w)) (weighted_sum d w all_fea))
      (seq 0 K).

(** [np.eye(K)[labels]]: one one-hot row per label. *)
Definition eye_rows (K : nat) (labels : list nat) : matrix :=
  map (fun l => map (fun k => if (l =? k)%nat then 1 else 0) (seq 0 K)) labels.

(** [cls_count = np.eye(K)[predict].sum(axis=0)] (line 82). *)
Definition cls_count (K : nat) (pred : list nat) : vec :=
  map (fun k => sum (column k (eye_rows K pred))) (seq 0 K).

(** [labelset = np.where(cls_count > threshold)[0]] (lines 83-84). *)
Definition labelset_of (K : nat) (thr : R) (pred : list nat) : list nat :=
  np_where (fun c => Rgtb c thr) (cls_count K pred).

(** ** Nearest-prototype assigner (lines 86-88, 94-96) *)

Definition dot (u v : vec) : R := sum (map (fun p => fst p * snd p) (combine u v)).

(** One entry of [scipy.spatial.distance.cdist]. *)
Definition dist (m : metric) (u v : vec) : float :=
  match m with
  | euclidean => Some (sqrt (sum (map (fun p => (fst p - snd p) * (fst p - snd p))
                                     (combine u v))))
  | cosine =>
      let nu := norm u in
      let nv := norm v in
      if Req_dec_T (nu * nv) 0 then None      (* 0/0 *)
      else Some (1 - dot u v / (nu * nv))
  end.

Definition cdist (m : metric) (XA XB : matrix) : list (list float) :=
  map (fun a => map (fun b => dist m a b) XB) XA.

(** [dd = cdist(all_fea, initc[labelset], distance);
     pred_label = dd.argmin(axis=1); pred_label = labelset[pred_label]] *)
Definition assign (m : metric) (all_fea initc : matrix) (labelset : list nat)
  : result (list nat) :=
  let dd := cdist m all_fea (take [] labelset initc) in
  pred_label <- argmin_axis1 (length labelset) dd ;;
  Ok (take 0%nat pred_label labelset).

(** ** Refinement loop (lines 77-96) *)

(** The body of [for round in range(1)] (lines 91-96). *)
Definition round_body (m : metric) (K d : nat) (all_fea : matrix)
  (labelset : list nat) (pred_label : list nat) : result (list nat) :=
  let aff := eye_rows K pred_label in
  let initc := build_initc K d aff all_fea in
  assign m all_fea initc labelset.

(** [for round in range(n): s = body(s)], stopping at the first exception. *)
Fixpoint for_range {St : Type} (n : nat) (body : St -> result St) (s : St) : result St :=
  match n with
  | O => Ok s
  | S n' => s' <- body s ;; for_range n' body s'
  end.

(** Lines 77-96 on the KNOWN subset: [all_fea], [all_output] (the softmax
    rows) and [predict] are already restricted to [known_idx]; [K] and [d]
    are [all_output.size(1)] and [all_fea.size(1)]. *)
Definition refine (m : metric) (thr : R) (K d : nat)
  (all_fea all_output : matrix) (predict_known : list nat) : result (list nat) :=
  let aff := all_output in
  let initc := build_initc K d aff all_fea in
  let labelset := labelset_of K thr predict_known in
  pred_label <- assign m all_fea initc labelset ;;
  for_range 1 (round_body m K d all_fea labelset) pred_label.

(** ** Scatter back to the full dataset (lines 98-99) *)

Fixpoint upd (i : nat) (v : nat) (l : list nat) : list nat :=
  match l, i with
  | [], _ => []
  | _ :: t, O => v :: t
  | x :: t, S i' => x :: upd i' v t
  end.

(** [guess_label[known_idx] = pred_label] *)
Definition setitem (l : list nat) (idx vals : list nat) : list nat :=
  fold_left (fun acc p => upd (fst p) (snd p) acc) (combine idx vals) l.

Definition guess_label_of (class_num N : nat) (known_idx pred_label : list nat)
  : list nat :=
  setitem (repeat class_num N) known_idx pred_label.

(** ** Logged accuracies (lines 53, 101) *)

Definition count_eq (a b : list nat) : nat :=
  length (filter (fun p => (fst p =? snd p)%nat) (combine a b)).

(** numpy integer divided by [len(all_label_idx)]: inf or nan (no exception)
    when the KNOWN subset is empty. *)
Definition np_div (a b : nat) : float :=
  if (b =? 0)%nat then None else Some (INR a / INR b).

(** ** The engine *)

Record Output : Type := {
  guess_label : list nat;    (* first component of the returned pair *)
  ENT_THRESHOLD : R;         (* second component of the returned pair *)
  before_acc : R;            (* logged only *)
  after_acc : float          (* logged only *)
}.

Section Engine.

(** [fun ent => KMeans(2, random_state=0).fit(ent.reshape(-1, 1))] *)
Variable KMeans_fit : vec -> KMeans.

Definition obtain_label (loader : list (list sample)) (cfg : Config)
  : result Output :=
  match loader with
  | [] => Raise UnboundLocalError
  | _ :: _ =>
    let data := concat loader in
    let all_fea := map feas data in
    let all_output := map outputs data in
    let all_label := map labels data in
    let N := length data in
    let all_output := map softmax all_output in
    let predict_ := map argmax all_output in
    if (N =? 0)%nat then Raise ZeroDivisionError else
    let before := INR (count_eq predict_ all_label) / INR N in
    let all_fea :=
      if metric_eqb (distance cfg) cosine then map cosine_prepare all_fea
      else all_fea in
    let ent := map (Entropy (epsilon cfg) (class_num cfg)) all_output in
    if negb (ent_finite (epsilon cfg) (class_num cfg) all_output)
    then Raise ValueError_not_finite else
    if (N <? 2)%nat then Raise ValueError_n_samples else
    let kmeans := KMeans_fit ent in
    let known_idx := split_known_idx ent kmeans in
    let K := length (hd [] all_output) in
    let d := length (hd [] all_fea) in
    let all_fea := take [] known_idx all_fea in
    let all_output := take [] known_idx all_output in
    let predict_ := take 0%nat known_idx predict_ in
    let all_label_idx := take 0%nat known_idx all_label in
    let thr := ENT_THRESHOLD_of kmeans in
    pred_label <- refine (distance cfg) (threshold cfg) K d
                         all_fea all_output predict_ ;;
    let guess := guess_label_of (class_num cfg) N known_idx pred_label in
    let after := np_div (count_eq guess all_label) (length all_label_idx) in
    Ok {| guess_label := guess; ENT_THRESHOLD := thr;
          before_acc := before; after_acc := after |}
  end.

End Engine.

(** ** Intermediate values of [obtain_label], by name *)

(** [all_output] after line 51, [predict] after line 52. *)
Definition probs_of (loader : list (list sample)) : matrix :=
  map softmax (map outputs (concat loader)).
Definition predict_of (loader : list (list sample)) : list nat :=
  map argmax (probs_of loader).

(** [all_fea] after lines 54-56. *)
Definition features_of (loader : list (list sample)) (cfg : Config) : matrix :=
  if metric_eqb (distance cfg) cosine
  then map cosine_prepare (map feas (concat loader))
  else map feas (concat loader).

(** [ent] (line 58). *)
Definition ent_of (loader : list (list sample)) (cfg : Config) : vec :=
  map (Entropy (epsilon cfg) (class_num cfg)) (probs_of loader).

(** [known_idx] (line 69). *)
Definition known_idx_of (fit : vec -> KMeans) (loader : list (list sample))
  (cfg : Config) : list nat :=
  split_known_idx (ent_of loader cfg) (fit (ent_of loader cfg)).

(** [K] (line 78) and the feature dimension. *)
Definition K_of (loader : list (list sample)) : nat :=
  length (hd [] (probs_of loader)).
Definition d_of (loader : list (list sample)) (cfg : Config) : nat :=
  length (hd [] (features_of loader cfg)).

(** [labelset] (lines 83-84). *)
Definition LabelSet_of (fit : vec -> KMeans) (loader : list (list sample))
  (cfg : Config) : list nat :=
  labelset_of (K_of loader) (threshold cfg)
              (take 0%nat (known_idx_of fit loader cfg) (predict_of loader)).

(** [pred_label] after line 96, or the exception raised on the way. *)
Definition refined_of (fit : vec -> KMeans) (loader : list (list sample))
  (cfg : Config) : result (list nat) :=
  let known_idx := known_idx_of fit loader cfg in
  refine (distance cfg) (threshold cfg) (K_of loader) (d_of loader cfg)
         (take [] known_idx (features_of loader cfg))
         (take [] known_idx (probs_of loader))
         (take 0%nat known_idx (predict_of loader)).

(** What [obtain_label] returns (line 106), without what it only logs. *)
Definition returned (r : result Output) : result (list nat * R) :=
  match r with
  | Ok out => Ok (guess_label out, ENT_THRESHOLD out)
  | Raise e => Raise e
  end.

(** ** Vocabulary of the properties *)

(** A ClassDistribution: non-negative entries that sum to 1. *)
Definition valid_dist (p : vec) : Prop :=
  Forall (fun x => 0 <= x) p /\ sum p = 1.

(** All the mass on one class. *)
Definition one_hot (p : vec) : Prop :=
  Forall (fun x => x = 0 \/ x = 1) p /\ sum p = 1.

(** The same probability for each of the [length p] classes. *)
Definition uniform (p : vec) : Prop :=
  Forall (fun x => x = / INR (length p)) p.

(** The tangent line of [x |-> - x * ln (x + eps)] taken at the uniform point,
    written with [v = 1/K + eps]; used to bound the entropy from above. *)
Definition tangent (eps v x : R) : R :=
  (- ln v - 1 + eps / v) * x + (v - 2 * eps + eps * eps / v).

(** The entries of [l] whose label satisfies [f]: what [l[np.where(f(labels))]]
    selects (see [take_where]). *)
Definition select {A : Type} (f : nat -> bool) (labels : list nat) (l : list A)
  : list A :=
  map snd (filter (fun p => f (fst p)) (combine labels l)).

(** The entropy scores of k-means cluster [j]. *)
Definition cluster (j : nat) (labels : list nat) (ent : vec) : vec :=
  select (fun l => (l =? j)%nat) labels ent.

(** The feature vectors currently labelled [k]. *)
Definition members (k : nat) (pl : list nat) (all_fea : matrix) : matrix :=
  select (fun l => (l =? k)%nat) pl all_fea.

(** The part of a sample the networks produce: no ground truth. *)
Definition unlabelled (s : sample) : vec * vec := (feas s, outputs s).

(** What scikit-learn's Lloyd iteration returns once it has converged:
    the labels are those of [predict] on the training data, and each centre
    is the mean of its (inhabited) cluster. *)
Definition kmeans_converged (ent : vec) (km : KMeans) : Prop :=
  labels_ km = map (predict km) ent
  /\ mean (cluster 0 (labels_ km) ent) = Some (fst (cluster_centers_ km))
  /\ mean (cluster 1 (labels_ km) ent) = Some (snd (cluster_centers_ km)).

Definition Rleb (x y : R) : bool := if Rle_dec x y then true else false.

(** Number of entropy scores at or above [b], at or below [a]. *)
Definition count_ge (b : R) (ent : vec) : nat :=
  length (filter (fun x => Rleb b x) ent).
Definition count_le (a : R) (ent : vec) : nat :=
  length (filter (fun x => Rleb x a) ent).

(** Two well-separated groups of entropy scores: a low group inside
    [[l0, a]] and a high group inside [[b, h1]] with [a < b], each group
    weighing enough against the spread of the other one that no fixed point
    of 2-means can cut through a group. *)
Definition well_separated (ent : vec) (l0 a b h1 : R) : Prop :=
  a < b /\ l0 <= a /\ b <= h1
  /\ Forall (fun x => l0 <= x <= a \/ b <= x <= h1) ent
  /\ INR (count_ge b ent) * (b - l0) > 2 * (INR (length ent) - 1) * (a - l0)
  /\ INR (count_le a ent) * (h1 - a) > 2 * (INR (length ent) - 1) * (h1 - b).

(** The position [argmin] returns in a row of distances: that of the first
    NaN when the row holds one, that of the first smallest entry otherwise. *)
Definition first_least (row : list float) (p : nat) : Prop :=
  (p < List.length row)%nat
  /\ match nth p row None with
     | None => forall q, (q < p)%nat -> nth q row None <> None
     | Some x =>
         (forall q, (q < List.length row)%nat ->
                    exists y, nth q row None = Some y /\ x <= y)
         /\ (forall q, (q < p)%nat ->
                       exists y, nth q row None = Some y /\ x < y)
     end.

(** [pl] gives every feature vector the class of [labelset] whose prototype
    is nearest under the metric [m]. *)
Definition nearest_assignment (m : metric) (all_fea protos : matrix)
  (labelset pl : list nat) : Prop :=
  List.length pl = List.length all_fea
  /\ forall i, (i < List.length all_fea)%nat ->
       exists p,
         nth i pl 0%nat = nth p labelset 0%nat
         /\ first_least (map (fun c => dist m (nth i all_fea []) (nth c protos []))
                             labelset) p.

(** [protos] holds one prototype of dimension [d] per class: the sum of the
    feature vectors weighted by the column of the class in [aff], over
    1e-8 plus the total weight. *)
Definition weighted_prototypes (K d : nat) (aff all_fea protos : matrix) : Prop :=
  List.length protos = K
  /\ forall k, (k < K)%nat ->
       List.length (nth k protos []) = d
       /\ forall j, (j < d)%nat ->
            nth j (nth k protos []) 0
            = sum (map (fun p => nth k (fst p) 0 * nth j (snd p) 0)
                       (combine aff all_fea))
              / (1e-8 + sum (map (fun p => nth k p 0) aff)).

(** The same with the hard labels [pl] for weights: the sum of the members of
    the class over 1e-8 plus their number. *)
Definition member_prototypes (K d : nat) (pl : list nat) (all_fea protos : matrix)
  : Prop :=
  List.length protos = K
  /\ forall k, (k < K)%nat ->
       List.length (nth k protos []) = d
       /\ forall j, (j < d)%nat ->
            nth j (nth k protos []) 0
            = sum (map (fun x => nth j x 0) (members k pl all_fea))
              / (1e-8 + INR (List.length (members k pl all_fea))).

(** The Refinement Loop in the words of section 4.5 of the spec: the initial
    soft-prototype pass, then a configured number [rounds] of rounds of
    Prototype Builder and Nearest-Prototype Assigner, over the LabelSet the
    engine computes.  The engine's own loop is [refine]. *)
Definition refinement_loop_spec (rounds : nat) (m : metric) (thr : R) (K d : nat)
  (all_fea all_output : matrix) (predict_known : list nat) : result (list nat) :=
  let labelset := labelset_of K thr predict_known in
  pred_label <- assign m all_fea (build_initc K d all_output all_fea) labelset ;;
  for_range rounds (round_body m K d all_fea labelset) pred_label.

(** ** Example passes *)

(** Two entropy scores and the fit that gives each its own cluster. *)
Definition ent_two : vec := [0; 1].

Definition km_two (x0 x1 : R) : KMeans :=
  {| labels_ := [0%nat; 1%nat]; cluster_centers_ := (x0, x1) |}.

(** Two samples in one batch, two classes. *)
Definition sample_a : sample := {| feas := [0]; outputs := [0; 0]; labels := 0%nat |}.
Definition sample_b : sample := {| feas := [1]; outputs := [-1; 3]; labels := 1%nat |}.
Definition loader_two : list (list sample) := [[sample_a; sample_b]].

(** [loader_two] with other ground-truth labels. *)
Definition loader_two_relabelled : list (list sample) :=
  [[ {| feas := [0]; outputs := [0; 0]; labels := 1%nat |};
     {| feas := [1]; outputs := [-1; 3]; labels := 0%nat |} ]].

(** The fit of two samples: each one is its own cluster. *)
Definition fit_two (ent : vec) : KMeans := km_two (nth 0 ent 0) (nth 1 ent 0).

Definition cfg_default : Config :=
  {| distance := euclidean; epsilon := 1e-5; class_num := 2; threshold := 0 |}.

(** A minimum support no class of two samples can exceed. *)
Definition cfg_high_support : Config :=
  {| distance := euclidean; epsilon := 1e-5; class_num := 2; threshold := 5 |}.

(** The entropy scores of the splitter example: ( 0.05, 0.08, 0.1 ) against
    ( 0.8, 0.85, 0.9 ), and the fit 2-means converges to on them. *)
Definition ent_six : vec := [5 / 100; 8 / 100; 1 / 10; 8 / 10; 85 / 100; 9 / 10].

Definition km_six : KMeans :=
  {| labels_ := [0; 0; 0; 1; 1; 1]%nat;
     cluster_centers_ := (23 / 300, 85 / 100) |}.

(** The prototype example: class 0 at (0,0) and (0,1), class 1 at (10,0)
    and (10,1). *)
Definition fea_toy : matrix := [[0; 0]; [0; 1]; [10; 0]; [10; 1]].
Definition labels_toy : list nat := [0; 0; 1; 1]%nat.

(** Four samples on a line, with the softmax rows and the argmax
    predictions of their classifier outputs. *)
Definition fea_line : matrix := [[0]; [1]; [2]; [10]].
Definition probs_line : matrix :=
  [[9 / 10; 1 / 10]; [9 / 10; 1 / 10]; [1 / 10; 9 / 10]; [1 / 10; 9 / 10]].
Definition pred_line : list nat := [0; 0; 1; 1]%nat.




(** Five samples on a line whose labels still move in a second round. *)
Definition fea_five : matrix := [[0]; [6]; [7]; [8]; [20]].
Definition probs_five : matrix :=
  [[9 / 10; 1 / 10]; [1 / 10; 9 / 10]; [1 / 10; 9 / 10]; [1 / 10; 9 / 10];
   [1 / 10; 9 / 10]].
Definition pred_five : list nat := [0; 1; 1; 1; 1]%nat.

(** * The two scripts around the engine

    [train_source.py] and the rest of [train_target_oda.py].  The networks,
    the optimizer, the loaders and the helpers of [utils] are not in these
    files: they are section variables, total functions of what the scripts
    pass them, so that an exception is one the scripts' own statements raise.
    A run returns the final state together with the calls it made, in
    order. *)

(** ** Python values *)

Inductive py_exn : Type :=
| KeyError           (* [d[k]] on a missing key *)
| IndexError         (* [l[i]] out of range *)
| TypeError          (* subscript of [None] *)
| ZeroDivision       (* integer modulo by zero *)
| ValueError         (* [list.remove] of a missing value, explicit [raise],
                        optimizer without parameters *)
| Engine (e : exn).   (* raised inside [obtain_label] *)

Inductive py (A : Type) : Type :=
| Return (a : A)
| Throw (e : py_exn).
Arguments Return {A} a.
Arguments Throw {A} e.

Definition py_bind {A B : Type} (r : py A) (k : A -> py B) : py B :=
  match r with
  | Return a => k a
  | Throw e => Throw e
  end.

Notation "x <~ r ;; k" := (py_bind r (fun x => k))
  (at level 61, r at next level, right associativity).

(** [l[i]] for a Python int [i]: negative indices count from the end. *)
Definition py_index {A : Type} (dflt : A) (l : list A) (i : Z) : py A :=
  let n := Z.of_nat (List.length l) in
  if ((0 <=? i) && (i <? n))%Z then Return (nth (Z.to_nat i) l dflt)
  else if ((- n <=? i) && (i <? 0))%Z then Return (nth (Z.to_nat (n + i)) l dflt)
  else Throw IndexError.

(** [l.remove(x)]: drops the first occurrence. *)
Fixpoint py_remove (x : string) (l : list string) : py (list string) :=
  match l with
  | [] => Throw ValueError
  | y :: t => if String.eqb y x then Return t
              else t' <~ py_remove x t ;; Return (y :: t')
  end.

(** [' '.join(l)] *)
Fixpoint join_space (l : list string) : string :=
  match l with
  | [] => EmptyString
  | x :: t => match t with
              | [] => x
              | _ :: _ => String.append x (String " "%char (join_space t))
              end
  end.

(** [s.split(' ')]: [cur] is the piece being read. *)
Fixpoint split_space_from (cur : string) (s : string) : list string :=
  match s with
  | EmptyString => [cur]
  | String c s' =>
      if Ascii.eqb c " "%char then cur :: split_space_from EmptyString s'
      else split_space_from (String.append cur (String c EmptyString)) s'
  end.

Definition split_space (s : string) : list string :=
  split_space_from EmptyString s.

(** A dict with string keys, in insertion order. *)
Definition dict (V : Type) : Type := list (string * V).

Fixpoint dict_get {V : Type} (k : string) (d : dict V) : option V :=
  match d with
  | [] => None
  | (k', v) :: t => if String.eqb k' k then Some v else dict_get k t
  end.

(** [d[k]] *)
Definition dict_item {V : Type} (k : string) (d : dict V) : py V :=
  match dict_get k d with
  | Some v => Return v
  | None => Throw KeyError
  end.

(** [d[k] = v]: in place for a present key, at the end for a new one. *)
Fixpoint dict_set {V : Type} (k : string) (v : V) (d : dict V) : dict V :=
  match d with
  | [] => [(k, v)]
  | (k', v') :: t => if String.eqb k' k then (k', v) :: t
                     else (k', v') :: dict_set k v t
  end.

(** ** [op_copy] (both scripts) *)

(** [optimizer.param_groups]: a list of dicts.  The function mutates each
    group in place and returns the optimizer; the value returned here is the
    list of groups after the loop. *)
Fixpoint op_copy {V : Type} (param_groups : list (dict V)) : py (list (dict V)) :=
  match param_groups with
  | [] => Return []
  | param_group :: rest =>
      lr <~ dict_item "lr" param_group ;;
      rest' <~ op_copy rest ;;
      Return (dict_set "lr0" lr param_group :: rest')
  end.

(** ** Integers and loops *)

(** [a % b] on Python ints: the sign of the divisor, as [Z.modulo]. *)
Definition py_mod (a b : Z) : py Z :=
  if (b =? 0)%Z then Throw ZeroDivision else Return (a mod b)%Z.

(** [range(a, b)] *)
Definition range (a b : Z) : list Z :=
  map (fun k => (a + Z.of_nat k)%Z) (seq 0 (Z.to_nat (b - a))).

(** [for x in l: st = body(x, st)], stopped by the first exception. *)
Fixpoint for_each {A St : Type} (body : A -> St -> py St) (l : list A) (st : St)
  : py St :=
  match l with
  | [] => Return st
  | x :: t => st' <~ body x st ;; for_each body t st'
  end.

(** [torch.optim.SGD(params)] as far as the scripts depend on it: it refuses
    an empty list of parameter groups. *)
Definition SGD {V : Type} (params : list (dict V)) : py (list (dict V)) :=
  match params with
  | [] => Throw ValueError
  | _ :: _ => Return params
  end.

(** The fields of [cfg.train] the two scripts read. *)
Module Train.
Record cfg : Type := {
  max_epoch : Z;
  lr : R;
  lr_decay1 : R;
  lr_decay2 : R;
  cls_par : R;
  ent : bool;
  gent : bool;
  ent_par : R
}.
End Train.

(** ** The source script and the target script *)

(** ** [init_dataset_name] *)

(** The fields of [cfg.dataset] the function reads and writes. *)
Module Dataset.
Record cfg : Type := {
  name : string;
  s : Z;
  t : Z;
  name_src : string;
  name_tar : string
}.
End Dataset.

Fixpoint has_space (str : string) : bool :=
  match str with
  | EmptyString => false
  | String c str' => Ascii.eqb c " "%char || has_space str'
  end.

(** The indices [l[i]] accepts for a list of [n] elements. *)
Definition in_range (n i : Z) : Prop := (- n <= i < n)%Z.

Module Source.

(** train_source.py, lines 34-41. *)
Definition specific_name_dict : dict (list string) :=
  [("office-home", ["Art"; "Clipart"; "Product"; "RealWorld"])]%string.

Definition init_dataset_name (cfg : Dataset.cfg) : py Dataset.cfg :=
  names <~ dict_item (Dataset.name cfg) specific_name_dict ;;
  src <~ py_index EmptyString names (Dataset.s cfg) ;;
  rest <~ py_remove src names ;;
  Return {| Dataset.name := Dataset.name cfg;
            Dataset.s := Dataset.s cfg; Dataset.t := Dataset.t cfg;
            Dataset.name_src := src; Dataset.name_tar := join_space rest |}.

(** The target names [main] iterates over:
    [cfg.dataset.name_tar.split(' ')] (line 155). *)
Definition target_names (cfg : Dataset.cfg) : list string :=
  split_space (Dataset.name_tar cfg).

(** *** [train], [validate], [inference], [main]

    The networks, the optimizer, the loaders and the helpers of [utils] are
    outside this file.  [W] is the state of the three networks and of the
    optimizer, which the script mutates in place; the helpers are functions
    of what they are passed.  The calls the script makes to them are
    recorded in order. *)

Inductive evaluator : Type :=
| Cal_acc (flag : bool)     (* [cal_acc(loader, netF, netB, netC, flag)] *)
| Cal_acc_oda.              (* [cal_acc_oda(...)] *)

Inductive call (W L : Type) : Type :=
| Scheduler_call (iter_num : Z)          (* [scheduler(optimizer, iter_num)] *)
| Step                                   (* [loss.backward(); optimizer.step()] *)
| Validate (ev : evaluator)              (* the helper [validate] calls *)
| Save (w : W)                           (* the three [torch.save] *)
| Epoch_log (epoch : Z) (acc_val : option R)   (* [logging.info] of the epoch *)
| Inference (ev : evaluator) (best : option W) (test_loader : L)
            (target_name : string).
Arguments Scheduler_call {W L} iter_num.
Arguments Step {W L}.
Arguments Validate {W L} ev.
Arguments Save {W L} w.
Arguments Epoch_log {W L} epoch acc_val.
Arguments Inference {W L} ev best test_loader target_name.

Record state (W L : Type) : Type := {
  net : W;                (* netF, netB, netC and the optimizer *)
  best_acc : R;
  best_net : bool;        (* whether [best_netF] is [netF] rather than [None] *)
  trace : list (call W L)
}.
Arguments net {W L} s.
Arguments best_acc {W L} s.
Arguments best_net {W L} s.
Arguments trace {W L} s.

Section Script.

Variables W X Y L : Type.
(** [scheduler(optimizer, iter_num)] *)
Variable scheduler : W -> Z -> W.
(** The forward pass, the criterion, [backward] and [optimizer.step()] on
    one batch [(x, y)]. *)
Variable step : W -> X -> Y -> W.
(** [cal_acc(valid_loader, netF, netB, netC, flag)[0]] *)
Variable cal_acc : W -> bool -> R.

(** Lines 44-68; [i] is the position of the first batch of [batches]. *)
Fixpoint train_from (epoch i : Z) (batches : list (X * Y)) (w : W)
  : W * list (call W L) :=
  match batches with
  | [] => (w, [])
  | (x, y) :: rest =>
      let w := scheduler w (epoch * i) in
      let w := step w x y in
      let (w', calls) := train_from epoch (i + 1) rest w in
      (w', Scheduler_call (epoch * i) :: Step :: calls)
  end.

Definition train (epoch : Z) (train_loader : list (X * Y)) (w : W)
  : W * list (call W L) :=
  train_from epoch 0 train_loader w.

(** Lines 71-83. *)
Definition validate (cfg : Dataset.cfg) (w : W) : R * evaluator :=
  if String.eqb (Dataset.name cfg) "VISDA-C"
  then (cal_acc w true, Cal_acc true)
  else (cal_acc w false, Cal_acc false).

(** Lines 86-99: the helper [inference] calls. *)
Definition inference (da_type : string) : evaluator :=
  if String.eqb da_type "oda" then Cal_acc_oda
  else if String.eqb da_type "VISDA-C" then Cal_acc true
  else Cal_acc false.

(** The body of the loop of [main], lines 135-151. *)
Definition epoch_body (cfg : Dataset.cfg) (tc : Train.cfg)
  (train_loader : list (X * Y)) (interval epoch : Z) (st : state W L)
  : py (state W L) :=
  let (w, calls) := train epoch train_loader (net st) in
  m <~ py_mod epoch interval ;;
  if ((m =? 0) || (epoch =? Train.max_epoch tc))%Z then
    let (acc_val, ev) := validate cfg w in
    if Rgtb acc_val (best_acc st) then
      Return {| net := w; best_acc := acc_val; best_net := true;
                trace := trace st ++ calls
                           ++ [Validate ev; Save w;
                               Epoch_log epoch (Some acc_val)] |}
    else
      Return {| net := w; best_acc := best_acc st; best_net := best_net st;
                trace := trace st ++ calls
                           ++ [Validate ev; Epoch_log epoch (Some acc_val)] |}
  else
    Return {| net := w; best_acc := best_acc st; best_net := best_net st;
              trace := trace st ++ calls ++ [Epoch_log epoch None] |}.

(** Lines 102-156.  [w0] is the state of the fresh networks and optimizer;
    [best_netF = netF] binds the network itself, so that [inference]
    receives the network as it is when it is called. *)
Definition main (da_type : string) (cfg : Dataset.cfg) (tc : Train.cfg)
  (train_loader : list (X * Y)) (test_loader_list : list L) (w0 : W)
  : py (Dataset.cfg * state W L) :=
  cfg <~ init_dataset_name cfg ;;
  let params : list (dict R) :=
    [[("lr", Train.lr tc * 0.1)]; [("lr", Train.lr tc)];
     [("lr", Train.lr tc)]]%string in
  optimizer <~ SGD params ;;
  _ <~ op_copy optimizer ;;
  let interval := (Train.max_epoch tc / 10)%Z in
  st <~ for_each (epoch_body cfg tc train_loader interval)
                 (range 1 (Train.max_epoch tc + 1))
                 {| net := w0; best_acc := 0; best_net := false;
                    trace := [] |} ;;
  let best := if best_net st then Some (net st) else None in
  Return (cfg,
          {| net := net st; best_acc := best_acc st; best_net := best_net st;
             trace := trace st
                      ++ map (fun p => Inference (inference da_type) best
                                                 (fst p) (snd p))
                             (combine test_loader_list (target_names cfg)) |}).

(** The networks after the epochs 1 to [n] of [main]. *)
Definition trained (train_loader : list (X * Y)) (w0 : W) (n : Z) : W :=
  fold_left (fun w epoch => fst (train epoch train_loader w))
            (range 1 (n + 1)) w0.

End Script.

(** What a trace holds of each kind of call. *)
Definition scheduler_calls {W L : Type} (tr : list (call W L)) : list Z :=
  flat_map (fun c => match c with Scheduler_call n => [n] | _ => [] end) tr.

Definition epoch_logs {W L : Type} (tr : list (call W L)) : list (Z * bool) :=
  flat_map (fun c => match c with
                     | Epoch_log e (Some _) => [(e, true)]
                     | Epoch_log e None => [(e, false)]
                     | _ => []
                     end) tr.

Definition validators {W L : Type} (tr : list (call W L)) : list evaluator :=
  flat_map (fun c => match c with Validate ev => [ev] | _ => [] end) tr.

Definition saves {W L : Type} (tr : list (call W L)) : list W :=
  flat_map (fun c => match c with Save w => [w] | _ => [] end) tr.

Definition inferences {W L : Type} (tr : list (call W L))
  : list (evaluator * option W * L * string) :=
  flat_map (fun c => match c with
                     | Inference ev best l n => [(ev, best, l, n)]
                     | _ => []
                     end) tr.

End Source.

Module Target.

(** train_target_oda.py, lines 132-139. *)
Definition specific_name_dict : dict (list string) :=
  [("office-home", ["Art"; "Clipart"; "Product"; "RealWorld"]);
   ("RMFD", ["AFDB_face_dataset"; "AFDB_masked_face_dataest"])]%string.

Definition init_dataset_name (cfg : Dataset.cfg) : py Dataset.cfg :=
  names <~ dict_item (Dataset.name cfg) specific_name_dict ;;
  src <~ py_index EmptyString names (Dataset.s cfg) ;;
  names' <~ dict_item (Dataset.name cfg) specific_name_dict ;;
  tar <~ py_index EmptyString names' (Dataset.t cfg) ;;
  Return {| Dataset.name := Dataset.name cfg;
            Dataset.s := Dataset.s cfg; Dataset.t := Dataset.t cfg;
            Dataset.name_src := src; Dataset.name_tar := tar |}.

(** *** [get_mem_label], [train], [validate], [main]

    As in the source script, [W] is the state of the networks and of the
    optimizer, and the calls to what lies outside the file are recorded. *)

Inductive call : Type :=
| Scheduler_call (iter_num : Z)     (* [scheduler(optimizer, iter_num)] *)
| Skip                              (* the [continue] of line 163 *)
| Step (loss : float)               (* [loss.backward(); optimizer.step()] *)
| Pseudo_label (out : Output)       (* [obtain_label], with what it logs *)
| Epoch_log (shown : Z) (val : option (R * R * R)).  (* [logging.info] *)

Record state (W : Type) : Type := {
  net : W;                          (* netF, netB, netC and the optimizer *)
  mem_label : option (list nat);    (* [None] until the first labelling *)
  best_acc : R;
  trace : list call
}.
Arguments net {W} s.
Arguments mem_label {W} s.
Arguments best_acc {W} s.
Arguments trace {W} s.

(** [mem_label[tar_idx]] (line 152); an index beyond the tensor is reported
    as IndexError. *)
Definition mem_getitem (mem_label : option (list nat)) (tar_idx : list nat)
  : py (list nat) :=
  match mem_label with
  | None => Throw TypeError
  | Some m =>
      if forallb (fun i => (i <? List.length m)%nat) tar_idx
      then Return (take 0%nat tar_idx m)
      else Throw IndexError
  end.

(** [pred < cfg.dataset.class_num] on one entry. *)
Definition known (cfg : Config) (l : nat) : bool := (l <? class_num cfg)%nat.

(** Lines 157-158: the rows and the pseudo-labels the mask keeps.  A boolean
    mask indexes a tensor with as many rows as the mask has entries. *)
Definition select_known (cfg : Config) (pred : list nat) (outputs_test : matrix)
  : py (matrix * list nat) :=
  if (List.length pred =? List.length outputs_test)%nat
  then Return (select (known cfg) pred outputs_test, filter (known cfg) pred)
  else Throw IndexError.

(** [t.mean(dim=0)] *)
Definition mean_dim0 (m : matrix) : vec :=
  map (fun k => sum (column k m) / INR (List.length m))
      (seq 0 (List.length (hd [] m))).

(** Lines 175-176; not a number when a logarithm is taken of a non-positive
    number. *)
Definition gentropy_loss (eps : R) (softmax_out : matrix) : float :=
  let msoftmax := mean_dim0 softmax_out in
  if forallb (fun m => Rltb 0 (m + eps)) msoftmax
  then Some (sum (map (fun m => - m * ln (m + eps)) msoftmax))
  else None.

Section Script.

Variable W X : Type.
(** [scheduler(optimizer, iter_num)] *)
Variable scheduler : W -> Z -> W.
(** [netC(netB(netF(x)))] in training mode: the logits, and the networks
    with the statistics the pass updates. *)
Variable forward : W -> X -> matrix * W.
(** [torch.nn.CrossEntropyLoss()] *)
Variable criterion : matrix -> list nat -> R.
(** [utils.Entropy] *)
Variable utils_Entropy : matrix -> vec.
(** [loss.backward(); optimizer.step()] for the loss of the batch [x] with
    the pseudo-labels [pred]. *)
Variable step : W -> X -> list nat -> W.
(** The batches [obtain_label] reads from [test_loader] in evaluation mode:
    features, logits and ground truth. *)
Variable test_pass : W -> list (list sample).
(** [KMeans(2, random_state=0).fit] *)
Variable KMeans_fit : vec -> KMeans.
(** [cal_acc_target_oda(valid_loader, netF, netB, netC, cfg, True)]:
    [(acc_os1, acc_os2, acc_unknown)]. *)
Variable cal_acc_target_oda : W -> R * R * R.

(** Lines 165-178: the loss of a batch that is not skipped. *)
Definition batch_loss (cfg : Config) (tc : Train.cfg)
  (softmax_out outputs_test_known : matrix) (pred : list nat) : float :=
  let loss :=
    if Rgtb (Train.cls_par tc) 0
    then criterion outputs_test_known pred * Train.cls_par tc
    else 0 in
  if Train.ent tc then
    let softmax_out_known := map softmax outputs_test_known in
    let entropy_loss := mean (utils_Entropy softmax_out_known) in
    let entropy_loss :=
      if Train.gent tc then
        match entropy_loss, gentropy_loss (epsilon cfg) softmax_out with
        | Some e, Some g => Some (e - g)
        | _, _ => None
        end
      else entropy_loss in
    match entropy_loss with
    | Some e => Some (loss + e * Train.ent_par tc)
    | None => None
    end
  else Some loss.

(** Lines 142-187; [i] is the position of the first batch of [batches],
    a batch is [(data[0], data[2])]. *)
Fixpoint train_from (cfg : Config) (tc : Train.cfg) (epoch_sum i : Z)
  (batches : list (X * list nat)) (mem_label : option (list nat)) (w : W)
  : py (W * list call) :=
  match batches with
  | [] => Return (w, [])
  | (x, tar_idx) :: rest =>
      let w := scheduler w (epoch_sum + i + 1) in
      pred <~ mem_getitem mem_label tar_idx ;;
      let (outputs_test, w) := forward w x in
      let softmax_out := map softmax outputs_test in
      sel <~ select_known cfg pred outputs_test ;;
      let (outputs_test_known, pred_known) := sel in
      if (List.length pred_known =? 0)%nat then
        r <~ train_from cfg tc epoch_sum (i + 1) rest mem_label w ;;
        Return (fst r, Scheduler_call (epoch_sum + i + 1) :: Skip :: snd r)
      else
        let loss := batch_loss cfg tc softmax_out outputs_test_known
                               pred_known in
        let w := step w x pred in
        r <~ train_from cfg tc epoch_sum (i + 1) rest mem_label w ;;
        Return (fst r,
                Scheduler_call (epoch_sum + i + 1) :: Step loss :: snd r)
  end.

Definition train (cfg : Config) (tc : Train.cfg) (epoch : Z)
  (train_loader : list (X * list nat)) (mem_label : option (list nat)) (w : W)
  : py (W * list call) :=
  let epoch_sum := (epoch * Z.of_nat (List.length train_loader))%Z in
  train_from cfg tc epoch_sum 0 train_loader mem_label w.

(** Lines 109-115. *)
Definition get_mem_label (cfg : Config) (w : W) : py Output :=
  match obtain_label KMeans_fit (test_pass w) cfg with
  | Ok out => Return out
  | Raise e => Throw (Engine e)
  end.

(** Lines 190-196. *)
Definition validate (w : W) : R * R * R := cal_acc_target_oda w.

(** The body of the loop of [main], lines 248-266. *)
Definition epoch_body (cfg : Config) (tc : Train.cfg)
  (train_loader : list (X * list nat)) (interval epoch : Z) (st : state W)
  : py (state W) :=
  m <~ py_mod epoch interval ;;
  st <~ (if (m =? 0)%Z && Rgtb (Train.cls_par tc) 0 then
           out <~ get_mem_label cfg (net st) ;;
           Return {| net := net st; mem_label := Some (guess_label out);
                     best_acc := best_acc st;
                     trace := trace st ++ [Pseudo_label out] |}
         else Return st) ;;
  r <~ train cfg tc epoch train_loader (mem_label st) (net st) ;;
  let (w, calls) := r in
  m <~ py_mod epoch interval ;;
  if ((m =? 0) || (epoch =? Train.max_epoch tc))%Z then
    let accs := validate w in
    let acc_os2 := snd (fst accs) in
    Return {| net := w; mem_label := mem_label st;
              best_acc := if Rleb (best_acc st) acc_os2 then acc_os2
                          else best_acc st;
              trace := trace st ++ calls
                         ++ [Epoch_log (epoch + 1) (Some accs)] |}
  else
    Return {| net := w; mem_label := mem_label st; best_acc := best_acc st;
              trace := trace st ++ calls ++ [Epoch_log (epoch + 1) None] |}.

(** Lines 199-272.  [w0] is the state of the loaded networks and of the
    optimizer.  The state dicts kept beside [best_acc] are not part of the
    state here. *)
Definition main (da_type : string) (dcfg : Dataset.cfg) (cfg : Config)
  (tc : Train.cfg) (train_loader : list (X * list nat)) (w0 : W)
  : py (Dataset.cfg * state W) :=
  dcfg <~ init_dataset_name dcfg ;;
  if negb (String.eqb da_type "oda") then Throw ValueError else
  let params : list (dict R) :=
    (if Rgtb (Train.lr_decay1 tc) 0
     then [[("lr"%string, Train.lr tc * Train.lr_decay1 tc)]] else [])
    ++ (if Rgtb (Train.lr_decay2 tc) 0
        then [[("lr"%string, Train.lr tc * Train.lr_decay2 tc)]] else []) in
  optimizer <~ SGD params ;;
  _ <~ op_copy optimizer ;;
  let interval := (Train.max_epoch tc / 15)%Z in
  st <~ for_each (epoch_body cfg tc train_loader interval)
                 (range 0 (Train.max_epoch tc))
                 {| net := w0; mem_label := None; best_acc := 0;
                    trace := [] |} ;;
  Return (dcfg, st).

End Script.

(** The epochs of a trace: a pseudo-labelling, or the log line of an epoch
    with the number it shows and whether the epoch was validated. *)
Inductive mark : Type :=
| Relabelled
| Logged (shown : Z) (validated : bool).

Definition outline (tr : list call) : list mark :=
  flat_map (fun c => match c with
                     | Pseudo_label _ => [Relabelled]
                     | Epoch_log n (Some _) => [Logged n true]
                     | Epoch_log n None => [Logged n false]
                     | _ => []
                     end) tr.

Definition scheduler_calls (tr : list call) : list Z :=
  flat_map (fun c => match c with Scheduler_call n => [n] | _ => [] end) tr.

(** The [acc_os2] of the validated epochs. *)
Definition validated_acc_os2 (tr : list call) : list R :=
  flat_map (fun c => match c with
                     | Epoch_log _ (Some accs) => [snd (fst accs)]
                     | _ => []
                     end) tr.

End Target.

(** ** Vocabulary and example runs of the scripts *)

(** [b] is the largest of 0 and the numbers of [accs]. *)
Definition largest_of (accs : list R) (b : R) : Prop :=
  0 <= b /\ Forall (fun a => a <= b) accs /\ (b = 0 \/ In b accs).

Definition dcfg_art : Dataset.cfg :=
  {| Dataset.name := "office-home"; Dataset.s := 0; Dataset.t := 1;
     Dataset.name_src := ""; Dataset.name_tar := "" |}.

(** [dcfg_art] after the two [init_dataset_name]. *)
Definition dcfg_art_source : Dataset.cfg :=
  {| Dataset.name := "office-home"; Dataset.s := 0; Dataset.t := 1;
     Dataset.name_src := "Art"; Dataset.name_tar := "Clipart Product RealWorld" |}.
Definition dcfg_art_target : Dataset.cfg :=
  {| Dataset.name := "office-home"; Dataset.s := 0; Dataset.t := 1;
     Dataset.name_src := "Art"; Dataset.name_tar := "Clipart" |}.

Definition tc_epochs (n : Z) (cls : R) : Train.cfg :=
  {| Train.max_epoch := n; Train.lr := 1 / 100; Train.lr_decay1 := 1 / 10;
     Train.lr_decay2 := 1; Train.cls_par := cls; Train.ent := true;
     Train.gent := true; Train.ent_par := 1 |}.

(** A world of the size of [loader_two]: the state counts the optimizer
    steps, every batch holds the two samples. *)
Definition scheduler_toy (w : nat) (_ : Z) : nat := w.
Definition forward_toy (w : nat) (_ : unit) : matrix * nat :=
  ([[0; 0]; [-1; 3]], w).
Definition criterion_toy (_ : matrix) (_ : list nat) : R := 0.
Definition Entropy_toy (m : matrix) : vec := map (fun _ => 0) m.
Definition step_toy (w : nat) (_ : unit) (_ : list nat) : nat := S w.
Definition test_pass_toy (_ : nat) : list (list sample) := loader_two.
Definition cal_acc_target_toy (w : nat) : R * R * R := (0, INR w, 0).
Definition train_loader_toy : list (unit * list nat) := [(tt, [0; 1]%nat)].

Definition target_main_toy (tc : Train.cfg)
  : py (Dataset.cfg * Target.state nat) :=
  Target.main nat unit scheduler_toy forward_toy criterion_toy Entropy_toy
              step_toy test_pass_toy fit_two cal_acc_target_toy
              "oda" dcfg_art cfg_default tc train_loader_toy 0%nat.

Definition step_source_toy (w : nat) (_ : unit) (_ : unit) : nat := S w.
Definition cal_acc_toy (w : nat) (_ : bool) : R := INR w.

Definition source_main_toy (tc : Train.cfg)
  : py (Dataset.cfg * Source.state nat unit) :=
  Source.main nat unit unit unit scheduler_toy step_source_toy cal_acc_toy
              "oda" dcfg_art tc [(tt, tt); (tt, tt)] [tt; tt; tt] 0%nat.

(** The Euclidean entry of [cdist] as a real number:
    [dist euclidean u v = Some (euclid u v)]. *)
Definition euclid (u v : vec) : R :=
  sqrt (sum (map (fun p => (fst p - snd p) * (fst p - snd p)) (combine u v))).

(** * Properties *)

(** ** Sums *)

Lemma sum_cons (x : R) (v : vec) : sum (x :: v) = x + sum v.
Proof. reflexivity. Qed.

Lemma sum_app (u v : vec) : sum (u ++ v) = sum u + sum v.
Proof.
  induction u as [|x u IH]; cbn [app].
  - change (sum []) with 0. lra.
  - rewrite !sum_cons, IH. lra.
Qed.

Lemma sum_map_le {A : Type} (f g : A -> R) (l : list A) :
  (forall x, In x l -> f x <= g x) ->
  sum (map f l) <= sum (map g l).
Proof.
  induction l as [|a l IH]; intros H; simpl.
  - unfold sum; simpl; lra.
  - rewrite !sum_cons.
    assert (f a <= g a) by (apply H; now left).
    assert (sum (map f l) <= sum (map g l)) by (apply IH; intros; apply H; now right).
    lra.
Qed.

Lemma sum_map_eq_inv {A : Type} (f g : A -> R) (l : list A) :
  (forall x, In x l -> f x <= g x) ->
  sum (map f l) = sum (map g l) ->
  forall x, In x l -> f x = g x.
Proof.
  induction l as [|a l IH]; intros H E x Hx; [contradiction|].
  simpl in E. rewrite !sum_cons in E.
  assert (Ha : f a <= g a) by (apply H; now left).
  assert (Hl : sum (map f l) <= sum (map g l))
    by (apply sum_map_le; intros; apply H; now right).
  destruct Hx as [<-|Hx]; [lra|].
  apply IH; auto; [intros; apply H; now right | lra].
Qed.

Lemma sum_map_ext {A : Type} (f g : A -> R) (l : list A) :
  (forall x, In x l -> f x = g x) -> sum (map f l) = sum (map g l).
Proof.
  intros H. f_equal. apply map_ext_in. exact H.
Qed.

Lemma sum_map_affine (a b : R) (l : vec) :
  sum (map (fun x => a * x + b) l) = a * sum l + b * INR (length l).
Proof.
  induction l as [|x l IH].
  - unfold sum; simpl; lra.
  - cbn [map length]. rewrite !sum_cons, IH, S_INR. lra.
Qed.

Lemma sum_nonneg (l : vec) : Forall (fun x => 0 <= x) l -> 0 <= sum l.
Proof.
  induction 1 as [|x l Hx _ IH]; [unfold sum; simpl; lra|].
  rewrite sum_cons; lra.
Qed.

Lemma valid_dist_le_1 (p : vec) (x : R) :
  valid_dist p -> In x p -> 0 <= x <= 1.
Proof.
  intros [Hpos Hsum] Hin.
  apply in_split in Hin as (l1 & l2 & ->).
  rewrite sum_app, sum_cons in Hsum.
  apply Forall_app in Hpos as [H1 H2].
  inversion H2 as [|? ? Hx H3]; subst.
  apply sum_nonneg in H1. apply sum_nonneg in H3. lra.
Qed.

(** ** Logarithm inequalities *)

Lemma ln_le_sub1 (x : R) : 0 < x -> ln x <= x - 1.
Proof.
  intros Hx.
  destruct (Req_dec x 1) as [->|Hne]; [rewrite ln_1; lra|].
  pose proof (exp_ineq1 (ln x) (ln_neq_0 x Hne Hx)) as H.
  rewrite exp_ln in H by assumption. lra.
Qed.

Lemma ln_lt_sub1 (x : R) : 0 < x -> x <> 1 -> ln x < x - 1.
Proof.
  intros Hx Hne.
  pose proof (exp_ineq1 (ln x) (ln_neq_0 x Hne Hx)) as H.
  rewrite exp_ln in H by assumption. lra.
Qed.

Lemma ln_pos (x : R) : 1 < x -> 0 < ln x.
Proof.
  intros H. rewrite <- ln_1. apply ln_increasing; lra.
Qed.

Lemma ln_le_mono (x y : R) : 0 < x -> x <= y -> ln x <= ln y.
Proof.
  intros Hx [Hlt| ->]; [left; now apply ln_increasing | right; reflexivity].
Qed.

Lemma ln_INR_pos (K : nat) : (2 <= K)%nat -> 0 < ln (INR K).
Proof.
  intros HK. apply ln_pos. apply (lt_INR 1 K). lia.
Qed.

(** ** Entropy scorer *)

(** The numerator of [Entropy]: the sum over the classes. *)
Lemma Entropy_unfold (eps : R) (K : nat) (p : vec) :
  Entropy eps K p = sum (map (fun pk => - pk * ln (pk + eps)) p) / ln (INR K).
Proof. reflexivity. Qed.

Lemma sum_map_scale (a : R) (l : vec) :
  sum (map (fun x => a * x) l) = a * sum l.
Proof.
  induction l as [|x l IH]; [unfold sum; simpl; lra|].
  cbn [map]. rewrite !sum_cons, IH. lra.
Qed.

(** Each class contributes at least [- p * ln (1 + eps)]. *)
Lemma entropy_term_lower (eps x : R) :
  0 < eps -> 0 <= x <= 1 ->
  - ln (1 + eps) * x <= - x * ln (x + eps).
Proof.
  intros He Hx.
  assert (ln (x + eps) <= ln (1 + eps)) by (apply ln_le_mono; lra).
  nra.
Qed.

Lemma entropy_term_lower_eq (eps x : R) :
  0 < eps -> 0 <= x <= 1 ->
  - ln (1 + eps) * x = - x * ln (x + eps) -> x = 0 \/ x = 1.
Proof.
  intros He Hx E.
  destruct (Req_dec x 0) as [H0|H0]; [now left|right].
  assert (ln (x + eps) = ln (1 + eps)) by nra.
  apply ln_inv in H; lra.
Qed.

Lemma entropy_sum_lower (eps : R) (p : vec) :
  0 < eps -> valid_dist p ->
  - ln (1 + eps) <= sum (map (fun pk => - pk * ln (pk + eps)) p).
Proof.
  intros He Hv.
  replace (- ln (1 + eps)) with (sum (map (fun x => - ln (1 + eps) * x) p)).
  - apply sum_map_le. intros x Hx. apply entropy_term_lower; auto.
    eapply valid_dist_le_1; eauto.
  - rewrite sum_map_scale. destruct Hv as [_ ->]. lra.
Qed.

Lemma entropy_sum_lower_eq (eps : R) (p : vec) :
  0 < eps -> valid_dist p ->
  (sum (map (fun pk => - pk * ln (pk + eps)) p) = - ln (1 + eps) <-> one_hot p).
Proof.
  intros He Hv. split.
  - intros E. split; [|apply Hv].
    apply Forall_forall. intros x Hx.
    apply (entropy_term_lower_eq eps); auto.
    + eapply valid_dist_le_1; eauto.
    + apply (sum_map_eq_inv (fun x => - ln (1 + eps) * x)
                            (fun pk => - pk * ln (pk + eps)) p); auto.
      * intros y Hy. apply entropy_term_lower; auto.
        eapply valid_dist_le_1; eauto.
      * rewrite sum_map_scale, E. destruct Hv as [_ ->]. lra.
  - intros [H01 Hs].
    rewrite (sum_map_ext _ (fun x => - ln (1 + eps) * x)).
    + rewrite sum_map_scale, Hs. lra.
    + intros x Hx. rewrite Forall_forall in H01.
      destruct (H01 x Hx) as [-> | ->]; lra.
Qed.

(** The tangent at the uniform point [v = 1/K + eps] bounds each class
    contribution from above. *)
Lemma two_le_ratio (r : R) : 0 < r -> 2 <= r + / r.
Proof.
  intros Hr.
  assert (H : r + / r - 2 = (r - 1) * (r - 1) * / r) by (field; lra).
  assert (0 < / r) by now apply Rinv_0_lt_compat.
  assert (0 <= (r - 1) * (r - 1) * / r).
  { apply Rmult_le_pos; [|lra]. apply Rle_0_sqr. }
  lra.
Qed.

Lemma two_lt_ratio (r : R) : 0 < r -> r <> 1 -> 2 < r + / r.
Proof.
  intros Hr Hne.
  assert (H : r + / r - 2 = (r - 1) * (r - 1) * / r) by (field; lra).
  assert (0 < / r) by now apply Rinv_0_lt_compat.
  assert (0 < (r - 1) * (r - 1)).
  { apply Rlt_0_sqr. lra. }
  assert (0 < (r - 1) * (r - 1) * / r) by (apply Rmult_lt_0_compat; lra).
  lra.
Qed.

Lemma entropy_term_upper (eps v x : R) :
  0 < eps -> 0 < v -> 0 <= x ->
  - x * ln (x + eps) <= tangent eps v x.
Proof.
  intros He Hv Hx. unfold tangent.
  set (q := x + eps). assert (Hq : 0 < q) by (unfold q; lra).
  set (r := q / v).
  assert (Hr : 0 < r) by (unfold r; apply Rdiv_lt_0_compat; lra).
  assert (Hln : ln (/ r) <= / r - 1)
    by (apply ln_le_sub1; now apply Rinv_0_lt_compat).
  rewrite ln_Rinv in Hln by assumption.
  assert (Hlnr : ln r = ln q - ln v).
  { unfold r, Rdiv. rewrite ln_mult, ln_Rinv; auto; try lra.
    now apply Rinv_0_lt_compat. }
  pose proof (two_le_ratio r Hr) as H2.
  assert (Hxq : x = q - eps) by (unfold q; lra).
  assert (Hqr : q = r * v) by (unfold r; field; lra).
  assert (Hir : 0 < / r) by now apply Rinv_0_lt_compat.
  assert (E1 : x * / r = v - eps * / r).
  { rewrite Hxq, Hqr. field. lra. }
  assert (E2 : eps / v * x + eps * eps / v = eps * r).
  { rewrite Hxq. unfold r. field. lra. }
  assert (S1 : - x * ln q <= x * / r - x - x * ln v) by nra.
  assert (S2 : - eps * / r <= - 2 * eps + eps * r) by nra.
  lra.
Qed.

Lemma entropy_term_upper_eq (eps v x : R) :
  0 < eps -> 0 < v -> 0 <= x ->
  - x * ln (x + eps) = tangent eps v x -> x + eps = v.
Proof.
  intros He Hv Hx E. unfold tangent in E.
  set (q := x + eps) in *. assert (Hq : 0 < q) by (unfold q; lra).
  set (r := q / v).
  assert (Hr : 0 < r) by (unfold r; apply Rdiv_lt_0_compat; lra).
  destruct (Req_dec r 1) as [H1|Hne].
  { unfold r in H1. apply (Rmult_eq_compat_r v) in H1.
    unfold Rdiv in H1. rewrite Rmult_assoc, Rinv_l in H1; lra. }
  exfalso.
  assert (Hln : ln (/ r) <= / r - 1)
    by (apply ln_le_sub1; now apply Rinv_0_lt_compat).
  rewrite ln_Rinv in Hln by assumption.
  assert (Hlnr : ln r = ln q - ln v).
  { unfold r, Rdiv. rewrite ln_mult, ln_Rinv; auto; try lra.
    now apply Rinv_0_lt_compat. }
  pose proof (two_lt_ratio r Hr Hne) as H2.
  assert (Hxq : x = q - eps) by (unfold q; lra).
  assert (Hqr : q = r * v) by (unfold r; field; lra).
  assert (Hir : 0 < / r) by now apply Rinv_0_lt_compat.
  assert (E1 : x * / r = v - eps * / r).
  { rewrite Hxq, Hqr. field. lra. }
  assert (E2 : eps / v * x + eps * eps / v = eps * r).
  { rewrite Hxq. unfold r. field. lra. }
  assert (S1 : - x * ln q <= x * / r - x - x * ln v) by nra.
  assert (S2 : - eps * / r < - 2 * eps + eps * r) by nra.
  lra.
Qed.

Lemma tangent_at_uniform (eps v : R) :
  0 < v -> - (v - eps) * ln v = tangent eps v (v - eps).
Proof.
  intros Hv. unfold tangent. field. lra.
Qed.

Lemma sum_tangent (eps : R) (p : vec) :
  0 < eps -> (0 < length p)%nat -> sum p = 1 ->
  sum (map (tangent eps (/ INR (length p) + eps)) p)
  = - ln (/ INR (length p) + eps).
Proof.
  intros He HK Hs. unfold tangent.
  rewrite sum_map_affine, Hs.
  assert (HK' : 0 < INR (length p)) by (apply lt_0_INR; lia).
  assert (0 < / INR (length p)) by now apply Rinv_0_lt_compat.
  field. split; [lra|].
  assert (0 < eps * INR (length p)) by (apply Rmult_lt_0_compat; lra).
  lra.
Qed.

Lemma entropy_sum_upper (eps : R) (p : vec) :
  0 < eps -> (0 < length p)%nat -> valid_dist p ->
  sum (map (fun pk => - pk * ln (pk + eps)) p) <= - ln (/ INR (length p) + eps).
Proof.
  intros He HK Hv.
  rewrite <- (sum_tangent eps p He HK (proj2 Hv)).
  assert (0 < / INR (length p)) by (apply Rinv_0_lt_compat, lt_0_INR; lia).
  apply sum_map_le. intros x Hx.
  apply entropy_term_upper; try lra.
  apply (valid_dist_le_1 p x Hv Hx).
Qed.

Lemma entropy_sum_upper_eq (eps : R) (p : vec) :
  0 < eps -> (0 < length p)%nat -> valid_dist p ->
  (sum (map (fun pk => - pk * ln (pk + eps)) p) = - ln (/ INR (length p) + eps)
   <-> uniform p).
Proof.
  intros He HK Hv.
  assert (Hi : 0 < / INR (length p)) by (apply Rinv_0_lt_compat, lt_0_INR; lia).
  split.
  - intros E. apply Forall_forall. intros x Hx.
    assert (x + eps = / INR (length p) + eps); [|lra].
    apply entropy_term_upper_eq; try lra.
    + apply (valid_dist_le_1 p x Hv Hx).
    + apply (sum_map_eq_inv (fun pk => - pk * ln (pk + eps))
                            (tangent eps (/ INR (length p) + eps)) p); auto.
      * intros y Hy. apply entropy_term_upper; try lra.
        apply (valid_dist_le_1 p y Hv Hy).
      * rewrite E. symmetry. apply sum_tangent; auto. apply Hv.
  - intros Hu. rewrite <- (sum_tangent eps p He HK (proj2 Hv)).
    apply sum_map_ext. intros x Hx.
    unfold uniform in Hu. rewrite Forall_forall in Hu.
    rewrite (Hu x Hx).
    set (v := / INR (length p) + eps).
    replace (/ INR (length p)) with (v - eps) by (unfold v; lra).
    replace (v - eps + eps) with v by lra.
    apply tangent_at_uniform. unfold v; lra.
Qed.

Lemma uniform_bound_lt_1 (eps : R) (K : nat) :
  0 < eps -> (2 <= K)%nat -> - ln (/ INR K + eps) < ln (INR K).
Proof.
  intros He HK.
  assert (HK' : 0 < INR K) by (apply lt_0_INR; lia).
  assert (Hi : 0 < / INR K) by now apply Rinv_0_lt_compat.
  rewrite <- ln_Rinv by lra.
  apply ln_increasing.
  - apply Rinv_0_lt_compat; lra.
  - rewrite <- (Rinv_inv (INR K)) at 2.
    apply Rinv_lt_contravar; [|lra].
    apply Rmult_lt_0_compat; lra.
Qed.

Lemma div_le_pos (a b c : R) : 0 < c -> a <= b -> a / c <= b / c.
Proof.
  intros Hc H. unfold Rdiv. apply Rmult_le_compat_r; [|exact H].
  left. now apply Rinv_0_lt_compat.
Qed.

Lemma div_eq_pos (a b c : R) : 0 < c -> (a / c = b / c <-> a = b).
Proof.
  intros Hc. split; [|now intros ->].
  intros E. unfold Rdiv in E. apply Rmult_eq_reg_r in E; auto.
  apply Rinv_neq_0_compat. lra.
Qed.

(** C5 (amended).  With a positive stability constant the score of a valid
    distribution over K >= 2 classes ranges over
    [ -ln(1+eps)/ln K , -ln(1/K+eps)/ln K ]: the lower end is negative and is
    reached exactly by the one-hot distributions, the upper end is below 1 and
    is reached exactly by the uniform distribution. *)
Theorem Entropy_range (eps : R) (K : nat) (p : vec) :
  0 < eps -> (2 <= K)%nat -> length p = K -> valid_dist p ->
  (- ln (1 + eps) / ln (INR K) <= Entropy eps K p
     <= - ln (/ INR K + eps) / ln (INR K))
  /\ - ln (1 + eps) / ln (INR K) < 0
  /\ - ln (/ INR K + eps) / ln (INR K) < 1
  /\ (Entropy eps K p = - ln (1 + eps) / ln (INR K) <-> one_hot p)
  /\ (Entropy eps K p = - ln (/ INR K + eps) / ln (INR K) <-> uniform p).
Proof.
  intros He HK Hlen Hv.
  pose proof (ln_INR_pos K HK) as HL.
  assert (Hlen0 : (0 < length p)%nat) by lia.
  rewrite Entropy_unfold.
  pose proof (entropy_sum_lower eps p He Hv) as Hlo.
  pose proof (entropy_sum_upper eps p He Hlen0 Hv) as Hhi.
  pose proof (entropy_sum_lower_eq eps p He Hv) as Elo.
  pose proof (entropy_sum_upper_eq eps p He Hlen0 Hv) as Ehi.
  rewrite Hlen in Hhi, Ehi.
  split; [split|split; [|split; [|split; split]]].
  - now apply div_le_pos.
  - now apply div_le_pos.
  - assert (0 < ln (1 + eps)) by (apply ln_pos; lra).
    unfold Rdiv. assert (0 < / ln (INR K)) by now apply Rinv_0_lt_compat.
    nra.
  - pose proof (uniform_bound_lt_1 eps K He HK) as Hu.
    apply (Rmult_lt_reg_r (ln (INR K))); [exact HL|].
    unfold Rdiv. rewrite Rmult_assoc, Rinv_l; lra.
  - intros E. apply Elo. now apply (div_eq_pos _ _ (ln (INR K))).
  - intros Hoh. apply div_eq_pos; auto. now apply Elo.
  - intros E. apply Ehi. now apply (div_eq_pos _ _ (ln (INR K))).
  - intros Hu. apply div_eq_pos; auto. now apply Ehi.
Qed.

Lemma Entropy_range_witness :
  (- ln (1 + 1e-5) / ln (INR 2) <= Entropy 1e-5 2 [1; 0]
     <= - ln (/ INR 2 + 1e-5) / ln (INR 2))
  /\ - ln (1 + 1e-5) / ln (INR 2) < 0
  /\ - ln (/ INR 2 + 1e-5) / ln (INR 2) < 1
  /\ (Entropy 1e-5 2 [1; 0] = - ln (1 + 1e-5) / ln (INR 2) <-> one_hot [1; 0])
  /\ (Entropy 1e-5 2 [1; 0] = - ln (/ INR 2 + 1e-5) / ln (INR 2)
      <-> uniform [1; 0]).
Proof.
  apply (Entropy_range 1e-5 2 [1; 0]).
  - lra.
  - lia.
  - reflexivity.
  - split.
    + repeat constructor; lra.
    + unfold sum; simpl; lra.
Defined.

(** C5 as stated fails: the one-hot distribution (1, 0) scores below 0, and
    the uniform distribution (1/2, 1/2) scores below 1. *)
Lemma Entropy_one_hot_negative :
  valid_dist [1; 0] /\ one_hot [1; 0] /\ Entropy 1e-5 2 [1; 0] < 0
  /\ valid_dist [/ 2; / 2] /\ uniform [/ 2; / 2] /\ Entropy 1e-5 2 [/ 2; / 2] < 1.
Proof.
  assert (HL : 0 < ln (INR 2)) by (apply ln_INR_pos; lia).
  assert (Hi : 0 < / ln (INR 2)) by now apply Rinv_0_lt_compat.
  assert (V1 : valid_dist [1; 0]).
  { split; [repeat constructor; lra | unfold sum; simpl; lra]. }
  assert (V2 : valid_dist [/ 2; / 2]).
  { split; [repeat constructor; lra | unfold sum; simpl; lra]. }
  split; [exact V1|]. split.
  { split; [|apply V1].
    constructor; [now right | constructor; [now left | constructor]]. }
  split.
  { rewrite Entropy_unfold. unfold sum; cbn [map fold_right].
    assert (0 < ln (1 + 1e-5)) by (apply ln_pos; lra).
    unfold Rdiv. nra. }
  split; [exact V2|]. split.
  { repeat constructor. }
  rewrite Entropy_unfold. unfold sum; cbn [map fold_right].
  pose proof (uniform_bound_lt_1 1e-5 2 ltac:(lra) ltac:(lia)) as Hu.
  replace (/ INR 2) with (/ 2) in Hu by (simpl; lra).
  apply (Rmult_lt_reg_r (ln (INR 2))); [exact HL|].
  unfold Rdiv. rewrite Rmult_assoc, Rinv_l by lra.
  lra.
Qed.

(** ** Index arrays *)

Lemma take_where_from {A : Type} (f : nat -> bool) (d : A) (labels : list nat) :
  forall (pre l : list A),
    (length labels <= length l)%nat ->
    take d (where_from f (length pre) labels) (pre ++ l) = select f labels l.
Proof.
  induction labels as [|x t IH]; intros pre l Hlen; [reflexivity|].
  destruct l as [|y l']; [simpl in Hlen; lia|].
  simpl in Hlen.
  assert (IH' : take d (where_from f (S (length pre)) t) (pre ++ y :: l')
                = select f t l').
  { replace (S (length pre)) with (length (pre ++ [y]))
      by (rewrite length_app; simpl; lia).
    replace (pre ++ y :: l') with ((pre ++ [y]) ++ l')
      by (rewrite <- app_assoc; reflexivity).
    apply IH. lia. }
  unfold select in *. cbn [where_from combine filter fst].
  destruct (f x); cbn [take map snd].
  - unfold take in IH'. rewrite IH'. f_equal.
    rewrite nth_middle. reflexivity.
  - exact IH'.
Qed.

Lemma take_where {A : Type} (f : nat -> bool) (d : A) (labels : list nat)
  (l : list A) :
  (length labels <= length l)%nat ->
  take d (np_where f labels) l = select f labels l.
Proof.
  intros H. apply (take_where_from f d labels [] l H).
Qed.

Lemma where_from_In {A : Type} (f : A -> bool) (l : list A) (d : A) :
  forall i k, In k (where_from f i l) <->
              (i <= k < i + length l)%nat /\ f (nth (k - i) l d) = true.
Proof.
  induction l as [|x t IH]; intros i k.
  - simpl. split; [contradiction | lia].
  - cbn [where_from length].
    assert (Hstep : In k (where_from f (S i) t) <->
                    (S i <= k < S i + length t)%nat
                    /\ f (nth (k - i) (x :: t) d) = true).
    { rewrite IH. split; intros [H1 H2]; split; try lia.
      - replace (k - i)%nat with (S (k - S i)) by lia. exact H2.
      - replace (k - i)%nat with (S (k - S i)) in H2 by lia. exact H2. }
    destruct (f x) eqn:Hfx.
    + cbn [In]. rewrite Hstep. split.
      * intros [<-|[H1 H2]]; [|split; [lia|exact H2]].
        split; [lia|]. now rewrite Nat.sub_diag.
      * intros [H1 H2]. destruct (Nat.eq_dec i k) as [->|Hne]; [now left|right].
        split; [lia|exact H2].
    + rewrite Hstep. split; intros [H1 H2]; split; try lia; try exact H2.
      destruct (Nat.eq_dec i k) as [->|Hne]; [|lia].
      rewrite Nat.sub_diag in H2. simpl in H2. congruence.
Qed.

Lemma np_where_In {A : Type} (f : A -> bool) (l : list A) (d : A) (k : nat) :
  In k (np_where f l) <-> (k < length l)%nat /\ f (nth k l d) = true.
Proof.
  unfold np_where. rewrite (where_from_In f l d 0 k).
  rewrite Nat.sub_0_r. simpl. intuition lia.
Qed.

Lemma where_from_nil {A : Type} (f : A -> bool) (l : list A) :
  (forall x, In x l -> f x = false) -> forall i, where_from f i l = [].
Proof.
  induction l as [|x t IH]; intros H i; [reflexivity|].
  cbn [where_from]. rewrite (H x (or_introl eq_refl)).
  apply IH. intros y Hy. apply H. now right.
Qed.

Lemma select_nil_iff {A : Type} (f : nat -> bool) (labels : list nat) (l : list A) :
  length labels = length l ->
  (select f labels l = [] <-> forall x, In x labels -> f x = false).
Proof.
  revert l. induction labels as [|x t IH]; intros l Hlen.
  - split; [intros _ y []|reflexivity].
  - destruct l as [|y l']; [discriminate|]. injection Hlen as Hlen.
    unfold select in *. cbn [combine filter fst].
    destruct (f x) eqn:Hfx.
    + split; [discriminate|]. intros H.
      rewrite (H x (or_introl eq_refl)) in Hfx. discriminate.
    + rewrite (IH l' Hlen). split.
      * intros H z [<-|Hz]; auto.
      * intros H z Hz. apply H. now right.
Qed.

(** ** Clusters and their means *)

Lemma mean_Some (v : vec) (m : R) :
  mean v = Some m <-> v <> [] /\ m = sum v / INR (length v).
Proof.
  destruct v as [|x v]; simpl.
  - split; [discriminate | intros [H _]; now elim H].
  - split.
    + intros E. injection E as <-. split; [discriminate|reflexivity].
    + intros [_ ->]. reflexivity.
Qed.

Lemma mean_None (v : vec) : mean v = None <-> v = [].
Proof.
  destruct v; simpl; split; intros; try reflexivity; discriminate.
Qed.

Lemma length_pos_INR {A : Type} (l : list A) : l <> [] -> 0 < INR (length l).
Proof.
  intros H. apply lt_0_INR. destruct l; [now elim H | simpl; lia].
Qed.

Lemma cluster_cons (j x : nat) (t : list nat) (y : R) (l : vec) :
  cluster j (x :: t) (y :: l)
  = if (x =? j)%nat then y :: cluster j t l else cluster j t l.
Proof.
  unfold cluster, select. cbn [combine filter fst].
  destruct (x =? j)%nat; reflexivity.
Qed.

Lemma cluster_partition (labels : list nat) :
  forall ent : vec,
    length labels = length ent ->
    Forall (fun l => l = 0%nat \/ l = 1%nat) labels ->
    sum ent = sum (cluster 0 labels ent) + sum (cluster 1 labels ent)
    /\ length ent = (length (cluster 0 labels ent)
                     + length (cluster 1 labels ent))%nat.
Proof.
  induction labels as [|x t IH]; intros ent Hlen H01.
  - destruct ent; [|discriminate]. split; [unfold sum; simpl; lra|reflexivity].
  - destruct ent as [|y l]; [discriminate|]. injection Hlen as Hlen.
    inversion H01 as [|? ? Hx Ht]; subst.
    destruct (IH l Hlen Ht) as [Hs Hn].
    rewrite !cluster_cons.
    destruct Hx as [-> | ->]; cbn [Nat.eqb]; rewrite ?sum_cons; cbn [length];
      split; try lra; lia.
Qed.

Lemma predict_01 (km : KMeans) (x : R) : predict km x = 0%nat \/ predict km x = 1%nat.
Proof.
  unfold predict. destruct (cluster_centers_ km) as [c0 c1].
  destruct (Rltb _ _); auto.
Qed.

Lemma predict_labels_01 (km : KMeans) (ent : vec) :
  Forall (fun l => l = 0%nat \/ l = 1%nat) (map (predict km) ent).
Proof.
  apply Forall_forall. intros l Hl.
  apply in_map_iff in Hl as (x & <- & _). apply predict_01.
Qed.

Lemma Rgtb_true (x y : R) : Rgtb x y = true <-> x > y.
Proof.
  unfold Rgtb. destruct (Rgt_dec x y); split; auto; discriminate.
Qed.

Lemma Rltb_true (x y : R) : Rltb x y = true <-> x < y.
Proof.
  unfold Rltb. destruct (Rlt_dec x y); split; auto; discriminate.
Qed.

Lemma Rgtb_false (x y : R) : Rgtb x y = false <-> x <= y.
Proof.
  unfold Rgtb. destruct (Rgt_dec x y); split; auto; try discriminate; lra.
Qed.

Lemma Rltb_false (x y : R) : Rltb x y = false <-> y <= x.
Proof.
  unfold Rltb. destruct (Rlt_dec x y); split; auto; try discriminate; lra.
Qed.

(** Comparing the mean of one part with the mean of the whole is comparing
    it with the mean of the other part. *)
Lemma mean_vs_global (s0 s1 n0 n1 : R) :
  0 < n0 -> 0 < n1 ->
  (s1 / n1 > (s0 + s1) / (n0 + n1) <-> s1 / n1 > s0 / n0).
Proof.
  intros H0 H1.
  set (m0 := s0 / n0). set (m1 := s1 / n1).
  assert (E0 : s0 = m0 * n0) by (unfold m0; field; lra).
  assert (E1 : s1 = m1 * n1) by (unfold m1; field; lra).
  set (g := (s0 + s1) / (n0 + n1)).
  assert (Eg : g * (n0 + n1) = m0 * n0 + m1 * n1)
    by (unfold g; rewrite <- E0, <- E1; field; lra).
  split; intros H; nra.
Qed.

(** The decision of lines 65-68 when both clusters are inhabited. *)
Lemma split_iidx_two_clusters (ent : vec) (labels : list nat) (m0 m1 : R) :
  length labels = length ent ->
  Forall (fun l => l = 0%nat \/ l = 1%nat) labels ->
  mean (cluster 0 labels ent) = Some m0 ->
  mean (cluster 1 labels ent) = Some m1 ->
  split_iidx ent labels = if Rgtb m1 m0 then 1%nat else 0%nat.
Proof.
  intros Hlen H01 E0 E1.
  unfold split_iidx. rewrite take_where by lia. fold (cluster 1 labels ent).
  rewrite E1.
  apply mean_Some in E0 as [N0 ->]. apply mean_Some in E1 as [N1 ->].
  destruct (cluster_partition labels ent Hlen H01) as [Hs Hn].
  pose proof (length_pos_INR _ N0) as P0.
  pose proof (length_pos_INR _ N1) as P1.
  assert (Hent : mean ent = Some ((sum (cluster 0 labels ent)
                                   + sum (cluster 1 labels ent))
                                  / (INR (length (cluster 0 labels ent))
                                     + INR (length (cluster 1 labels ent))))).
  { apply mean_Some. split.
    - intros ->. simpl in Hn. destruct (cluster 0 labels []); [now elim N0|].
      discriminate.
    - rewrite Hs, Hn, plus_INR. reflexivity. }
  rewrite Hent. cbn [float_gt].
  pose proof (mean_vs_global (sum (cluster 0 labels ent))
                (sum (cluster 1 labels ent)) _ _ P0 P1) as Hiff.
  set (m1 := sum (cluster 1 labels ent) / INR (length (cluster 1 labels ent))) in *.
  set (m0 := sum (cluster 0 labels ent) / INR (length (cluster 0 labels ent))) in *.
  set (g := (sum (cluster 0 labels ent) + sum (cluster 1 labels ent))
            / (INR (length (cluster 0 labels ent))
               + INR (length (cluster 1 labels ent)))) in *.
  destruct (Rgtb m1 m0) eqn:G; destruct (Rgtb m1 g) eqn:G'; try reflexivity.
  - apply Rgtb_true in G. apply Hiff in G. apply Rgtb_true in G. congruence.
  - apply Rgtb_true in G'. apply Hiff in G'. apply Rgtb_true in G'. congruence.
Qed.

(** The decision when k-means cluster 1 is empty: the mean is NaN and the
    comparison is false. *)
Lemma split_iidx_cluster1_empty (ent : vec) (labels : list nat) :
  length labels = length ent ->
  cluster 1 labels ent = [] ->
  split_iidx ent labels = 0%nat.
Proof.
  intros Hlen E. unfold split_iidx.
  rewrite take_where by lia. fold (cluster 1 labels ent). rewrite E.
  reflexivity.
Qed.

(** Evaluation of comparisons on concrete reals. *)
Ltac solve_Rcmp :=
  unfold Rabs; repeat (destruct (Rcase_abs _)); lra.

Ltac eval_Rcmp :=
  repeat match goal with
  | |- context [Rltb ?a ?b] =>
      first [ rewrite (proj2 (Rltb_true a b)) by solve_Rcmp
            | rewrite (proj2 (Rltb_false a b)) by solve_Rcmp ]
  | |- context [Rgtb ?a ?b] =>
      first [ rewrite (proj2 (Rgtb_true a b)) by solve_Rcmp
            | rewrite (proj2 (Rgtb_false a b)) by solve_Rcmp ]
  end.

(** C10.  The splitter compares the mean entropy of k-means cluster 1 with
    the mean of the whole dataset.  With both clusters inhabited this tags as
    UNKNOWN the cluster with the larger mean; with cluster 1 empty the
    comparison is false and no sample is KNOWN. *)
Theorem split_compares_cluster1_with_global_mean (ent : vec) (km : KMeans) :
  labels_ km = map (predict km) ent ->
  let labels := labels_ km in
  split_known_idx ent km
  = np_where (fun l => negb (l =? (if float_gt (mean (cluster 1 labels ent))
                                              (mean ent)
                                   then 1 else 0))%nat) labels
  /\ (forall m0 m1,
         mean (cluster 0 labels ent) = Some m0 ->
         mean (cluster 1 labels ent) = Some m1 ->
         split_known_idx ent km
         = np_where (fun l => negb (l =? (if Rgtb m1 m0 then 1 else 0))%nat) labels)
  /\ (cluster 1 labels ent = [] -> split_known_idx ent km = []).
Proof.
  intros Hc labels.
  assert (Hlen : length labels = length ent)
    by (unfold labels; rewrite Hc; apply length_map).
  assert (H01 : Forall (fun l => l = 0%nat \/ l = 1%nat) labels)
    by (unfold labels; rewrite Hc; apply predict_labels_01).
  unfold split_known_idx. rewrite <- Hc. fold labels.
  split; [|split].
  - unfold split_iidx. rewrite take_where by lia. reflexivity.
  - intros m0 m1 E0 E1.
    now rewrite (split_iidx_two_clusters ent labels m0 m1 Hlen H01 E0 E1).
  - intros E. rewrite (split_iidx_cluster1_empty ent labels Hlen E).
    apply where_from_nil. intros x Hx.
    pose proof (proj1 (select_nil_iff _ labels ent Hlen) E x Hx) as H1.
    rewrite Forall_forall in H01.
    destruct (H01 x Hx) as [-> | ->]; [reflexivity | discriminate].
Qed.

Lemma split_compares_cluster1_with_global_mean_witness :
  split_known_idx ent_two (km_two 0 1)
  = np_where (fun l => negb (l =? (if float_gt
                                        (mean (cluster 1 (labels_ (km_two 0 1)) ent_two))
                                        (mean ent_two)
                                   then 1 else 0))%nat) (labels_ (km_two 0 1))
  /\ (forall m0 m1,
         mean (cluster 0 (labels_ (km_two 0 1)) ent_two) = Some m0 ->
         mean (cluster 1 (labels_ (km_two 0 1)) ent_two) = Some m1 ->
         split_known_idx ent_two (km_two 0 1)
         = np_where (fun l => negb (l =? (if Rgtb m1 m0 then 1 else 0))%nat)
                    (labels_ (km_two 0 1)))
  /\ (cluster 1 (labels_ (km_two 0 1)) ent_two = [] ->
      split_known_idx ent_two (km_two 0 1) = []).
Proof.
  apply (split_compares_cluster1_with_global_mean ent_two (km_two 0 1)).
  unfold km_two, ent_two, predict. cbn [labels_ cluster_centers_ map].
  eval_Rcmp. reflexivity.
Defined.

(** ** Fixed points of 2-means on well-separated data *)

Lemma Rleb_true (x y : R) : Rleb x y = true <-> x <= y.
Proof.
  unfold Rleb. destruct (Rle_dec x y); split; auto; discriminate.
Qed.

Lemma Rleb_false (x y : R) : Rleb x y = false <-> y < x.
Proof.
  unfold Rleb. destruct (Rle_dec x y); split; auto; try discriminate; lra.
Qed.

Lemma sum_ge_const (c : R) (v : vec) :
  Forall (fun x => c <= x) v -> c * INR (length v) <= sum v.
Proof.
  induction 1 as [|x v Hx _ IH].
  - unfold sum; simpl; lra.
  - rewrite sum_cons. cbn [length]. rewrite S_INR. lra.
Qed.

Lemma sum_le_const (c : R) (v : vec) :
  Forall (fun x => x <= c) v -> sum v <= c * INR (length v).
Proof.
  induction 1 as [|x v Hx _ IH].
  - unfold sum; simpl; lra.
  - rewrite sum_cons. cbn [length]. rewrite S_INR. lra.
Qed.

Lemma cluster_Forall (P : nat -> R -> Prop) (j : nat) (labels : list nat)
  (ent : vec) :
  Forall2 P labels ent -> Forall (P j) (cluster j labels ent).
Proof.
  induction 1 as [|l x labels ent Hlx _ IH]; [constructor|].
  rewrite cluster_cons. destruct (Nat.eqb_spec l j) as [->|]; auto.
Qed.

Lemma count_le_length (g : R -> bool) (ent : vec) :
  (length (filter g ent) <= length ent)%nat.
Proof.
  induction ent as [|x t IH]; simpl; [lia|].
  destruct (g x); simpl; lia.
Qed.

(** The sum of a cluster that contains every score at or above [b], all
    scores being at least [l0]. *)
Lemma cluster_sum_lower (j : nat) (l0 b : R) (labels : list nat) (ent : vec) :
  l0 <= b ->
  Forall2 (fun l x => l0 <= x /\ (b <= x -> l = j)) labels ent ->
  b * INR (count_ge b ent)
  + l0 * (INR (length (cluster j labels ent)) - INR (count_ge b ent))
  <= sum (cluster j labels ent)
  /\ (count_ge b ent <= length (cluster j labels ent))%nat.
Proof.
  intros Hlb. induction 1 as [|l x labels ent [Hx Hj] _ [IH1 IH2]].
  - unfold count_ge, cluster, select, sum; simpl. split; [lra|lia].
  - rewrite cluster_cons. unfold count_ge in *. cbn [filter].
    destruct (Rleb b x) eqn:Hb.
    + apply Rleb_true in Hb. rewrite (Hj Hb), Nat.eqb_refl.
      cbn [length]. rewrite sum_cons, !S_INR. split; [lra|lia].
    + apply Rleb_false in Hb.
      destruct (l =? j)%nat; cbn [length]; rewrite ?sum_cons, ?S_INR;
        split; try lra; lia.
Qed.

(** The sum of a cluster that contains every score at or below [a], all
    scores being at most [h1]. *)
Lemma cluster_sum_upper (j : nat) (a h1 : R) (labels : list nat) (ent : vec) :
  a <= h1 ->
  Forall2 (fun l x => x <= h1 /\ (x <= a -> l = j)) labels ent ->
  sum (cluster j labels ent)
  <= a * INR (count_le a ent)
     + h1 * (INR (length (cluster j labels ent)) - INR (count_le a ent))
  /\ (count_le a ent <= length (cluster j labels ent))%nat.
Proof.
  intros Hah. induction 1 as [|l x labels ent [Hx Hj] _ [IH1 IH2]].
  - unfold count_le, cluster, select, sum; simpl. split; [lra|lia].
  - rewrite cluster_cons. unfold count_le in *. cbn [filter].
    destruct (Rleb x a) eqn:Hb.
    + apply Rleb_true in Hb. rewrite (Hj Hb), Nat.eqb_refl.
      cbn [length]. rewrite sum_cons, !S_INR. split; [lra|lia].
    + apply Rleb_false in Hb.
      destruct (l =? j)%nat; cbn [length]; rewrite ?sum_cons, ?S_INR;
        split; try lra; lia.
Qed.

Lemma Forall2_map_l {A B : Type} (P : B -> A -> Prop) (f : A -> B) (l : list A) :
  (forall x, In x l -> P (f x) x) -> Forall2 P (map f l) l.
Proof.
  induction l as [|x t IH]; intros H; simpl; constructor.
  - apply H. now left.
  - apply IH. intros y Hy. apply H. now right.
Qed.

Lemma Forall2_impl {A B : Type} (P Q : A -> B -> Prop) (l : list A) (l' : list B) :
  (forall x y, In y l' -> P x y -> Q x y) ->
  Forall2 P l l' -> Forall2 Q l l'.
Proof.
  intros H F. induction F as [|x y l l' Hxy _ IH]; constructor.
  - apply H; [now left|exact Hxy].
  - apply IH. intros ? ? Hin. apply H. now right.
Qed.

Lemma sep_arith_low (l0 a b m clo chi Slo Shi nlo nhi nH N : R) :
  1 <= nlo -> 1 <= nhi -> N = nlo + nhi -> l0 <= a -> a < b ->
  m = (clo + chi) / 2 ->
  clo * nlo = Slo -> chi * nhi = Shi ->
  l0 * nlo <= Slo ->
  b * nH + l0 * (nhi - nH) <= Shi ->
  nH * (b - l0) > 2 * (N - 1) * (a - l0) ->
  a < m.
Proof.
  intros Hlo Hhi HN Hla Hab Hm Elo Ehi Blo Bhi Hsep.
  destruct (Rlt_le_dec a m) as [H|H]; [exact H|exfalso].
  assert (C1 : l0 <= clo).
  { apply (Rmult_le_reg_r nlo); lra. }
  assert (C2 : chi <= 2 * a - l0) by lra.
  assert (C3 : chi * nhi <= (2 * a - l0) * nhi).
  { apply Rmult_le_compat_r; lra. }
  assert (C4 : nH * (b - l0) <= 2 * (a - l0) * nhi) by lra.
  assert (C5 : 2 * (a - l0) * nhi <= 2 * (a - l0) * (N - 1)).
  { apply Rmult_le_compat_l; lra. }
  lra.
Qed.

Lemma sep_arith_high (a b h1 m clo chi Slo Shi nlo nhi nL N : R) :
  1 <= nlo -> 1 <= nhi -> N = nlo + nhi -> b <= h1 -> a < b ->
  m = (clo + chi) / 2 ->
  clo * nlo = Slo -> chi * nhi = Shi ->
  Shi <= h1 * nhi ->
  Slo <= a * nL + h1 * (nlo - nL) ->
  nL * (h1 - a) > 2 * (N - 1) * (h1 - b) ->
  m < b.
Proof.
  intros Hlo Hhi HN Hbh Hab Hm Elo Ehi Bhi Blo Hsep.
  destruct (Rlt_le_dec m b) as [H|H]; [exact H|exfalso].
  assert (C1 : chi <= h1).
  { apply (Rmult_le_reg_r nhi); lra. }
  assert (C2 : 2 * b - h1 <= clo) by lra.
  assert (C3 : (2 * b - h1) * nlo <= clo * nlo).
  { apply Rmult_le_compat_r; lra. }
  assert (C4 : nL * (h1 - a) <= 2 * (h1 - b) * nlo) by lra.
  assert (C5 : 2 * (h1 - b) * nlo <= 2 * (h1 - b) * (N - 1)).
  { apply Rmult_le_compat_l; lra. }
  lra.
Qed.

Lemma mean_times_length (v : vec) (c : R) :
  mean v = Some c -> c * INR (length v) = sum v /\ 1 <= INR (length v).
Proof.
  intros E. apply mean_Some in E as [Hne ->].
  pose proof (length_pos_INR v Hne) as P. split; [field; lra|].
  destruct v as [|x v]; [now elim Hne|].
  cbn [length]. rewrite S_INR. pose proof (pos_INR (length v)). lra.
Qed.

(** A threshold split whose two inhabited sides have their means as
    centres cannot cut through a group of well-separated data. *)
Lemma threshold_between_groups (jl jh : nat) (labels : list nat) (ent : vec)
  (clo chi l0 a b h1 : R) :
  jl <> jh ->
  Forall2 (fun l x => (l = jl \/ l = jh)
                      /\ (l = jl -> x <= (clo + chi) / 2)
                      /\ (l = jh -> (clo + chi) / 2 <= x)) labels ent ->
  length ent = (length (cluster jl labels ent)
                + length (cluster jh labels ent))%nat ->
  mean (cluster jl labels ent) = Some clo ->
  mean (cluster jh labels ent) = Some chi ->
  well_separated ent l0 a b h1 ->
  a < (clo + chi) / 2 < b.
Proof.
  intros Hne F HN Elo Ehi (Hab & Hla & Hbh & Hgrp & SepH & SepL).
  set (m := (clo + chi) / 2) in *.
  destruct (mean_times_length _ _ Elo) as [Mlo Plo].
  destruct (mean_times_length _ _ Ehi) as [Mhi Phi].
  assert (HNR : INR (length ent)
                = INR (length (cluster jl labels ent))
                  + INR (length (cluster jh labels ent)))
    by (rewrite HN; apply plus_INR).
  rewrite Forall_forall in Hgrp.
  split.
  - destruct (Rlt_le_dec a m) as [H|H]; [exact H|].
    assert (F1 : Forall2 (fun l x => l0 <= x /\ (b <= x -> l = jh)) labels ent).
    { refine (Forall2_impl _ _ _ _ _ F). intros l x Hin HP. cbv beta in *.
      destruct HP as ([-> | ->] & Hl & Hh); (split; [destruct (Hgrp x Hin); lra|]);
        auto.
      intros Hbx. specialize (Hl eq_refl). lra. }
    assert (F2 : Forall2 (fun (_ : nat) x => l0 <= x) labels ent).
    { refine (Forall2_impl _ _ _ _ _ F). intros l x Hin HP. cbv beta in *.
      destruct (Hgrp x Hin); lra. }
    destruct (cluster_sum_lower jh l0 b labels ent ltac:(lra) F1) as [B1 _].
    pose proof (sum_ge_const l0 _ (cluster_Forall _ jl labels ent F2)) as B2.
    apply (sep_arith_low l0 a b m clo chi _ _ _ _ _ _ Plo Phi HNR Hla Hab
             eq_refl Mlo Mhi B2 B1 SepH).
  - destruct (Rlt_le_dec m b) as [H|H]; [exact H|].
    assert (F1 : Forall2 (fun l x => x <= h1 /\ (x <= a -> l = jl)) labels ent).
    { refine (Forall2_impl _ _ _ _ _ F). intros l x Hin HP. cbv beta in *.
      destruct HP as ([-> | ->] & Hl & Hh); (split; [destruct (Hgrp x Hin); lra|]);
        auto.
      intros Hxa. specialize (Hh eq_refl). lra. }
    assert (F2 : Forall2 (fun (_ : nat) x => x <= h1) labels ent).
    { refine (Forall2_impl _ _ _ _ _ F). intros l x Hin HP. cbv beta in *.
      destruct (Hgrp x Hin); lra. }
    destruct (cluster_sum_upper jl a h1 labels ent ltac:(lra) F1) as [B1 _].
    pose proof (sum_le_const h1 _ (cluster_Forall _ jh labels ent F2)) as B2.
    apply (sep_arith_high a b h1 m clo chi _ _ _ _ _ _ Plo Phi HNR Hbh Hab
             eq_refl Mlo Mhi B2 B1 SepL).
Qed.

(** ** [predict] as a threshold test *)

Lemma predict_centres_lt (km : KMeans) (c0 c1 x : R) :
  cluster_centers_ km = (c0, c1) -> c0 < c1 ->
  (predict km x = 1%nat <-> (c0 + c1) / 2 < x)
  /\ (predict km x = 0%nat <-> x <= (c0 + c1) / 2).
Proof.
  intros E Hlt. unfold predict. rewrite E.
  destruct (Rltb _ _) eqn:G.
  - apply Rltb_true in G.
    assert ((c0 + c1) / 2 < x) by (revert G; solve_Rcmp).
    split; split; intros; try reflexivity; try discriminate; lra.
  - apply Rltb_false in G.
    assert (x <= (c0 + c1) / 2) by (revert G; solve_Rcmp).
    split; split; intros; try reflexivity; try discriminate; lra.
Qed.

Lemma predict_centres_gt (km : KMeans) (c0 c1 x : R) :
  cluster_centers_ km = (c0, c1) -> c1 < c0 ->
  (predict km x = 1%nat <-> x < (c0 + c1) / 2)
  /\ (predict km x = 0%nat <-> (c0 + c1) / 2 <= x).
Proof.
  intros E Hlt. unfold predict. rewrite E.
  destruct (Rltb _ _) eqn:G.
  - apply Rltb_true in G.
    assert (x < (c0 + c1) / 2) by (revert G; solve_Rcmp).
    split; split; intros; try reflexivity; try discriminate; lra.
  - apply Rltb_false in G.
    assert ((c0 + c1) / 2 <= x) by (revert G; solve_Rcmp).
    split; split; intros; try reflexivity; try discriminate; lra.
Qed.

Lemma predict_centres_eq (km : KMeans) (c x : R) :
  cluster_centers_ km = (c, c) -> predict km x = 0%nat.
Proof.
  intros E. unfold predict. rewrite E.
  now rewrite (proj2 (Rltb_false _ _)) by lra.
Qed.

(** A converged fit has two distinct centres. *)
Lemma converged_centres_distinct (ent : vec) (km : KMeans) :
  kmeans_converged ent km ->
  fst (cluster_centers_ km) <> snd (cluster_centers_ km).
Proof.
  intros (Hc & _ & E1) Heq.
  destruct (cluster_centers_ km) as [c0 c1] eqn:Ec. simpl in Heq. subst c1.
  apply mean_Some in E1 as [Hne _]. apply Hne.
  apply select_nil_iff.
  - rewrite Hc. apply length_map.
  - intros l Hl. rewrite Hc in Hl. apply in_map_iff in Hl as (x & <- & _).
    now rewrite (predict_centres_eq km c0 x Ec).
Qed.

Lemma converged_lengths (ent : vec) (km : KMeans) :
  kmeans_converged ent km ->
  length (labels_ km) = length ent
  /\ Forall (fun l => l = 0%nat \/ l = 1%nat) (labels_ km).
Proof.
  intros (Hc & _). rewrite Hc. split; [apply length_map|apply predict_labels_01].
Qed.

(** ** The open-set splitter on a converged fit *)

Lemma converged_iidx (ent : vec) (km : KMeans) :
  kmeans_converged ent km ->
  split_iidx ent (map (predict km) ent)
  = if Rgtb (snd (cluster_centers_ km)) (fst (cluster_centers_ km))
    then 1%nat else 0%nat.
Proof.
  intros Hk. destruct (converged_lengths ent km Hk) as [Hlen H01].
  destruct Hk as (Hc & E0 & E1). rewrite <- Hc.
  now apply split_iidx_two_clusters.
Qed.

Lemma splitter_unknown_has_larger_mean (ent : vec) (km : KMeans) :
  kmeans_converged ent km ->
  let u := split_iidx ent (map (predict km) ent) in
  (u = 0%nat \/ u = 1%nat)
  /\ exists mu mk,
      mean (cluster u (labels_ km) ent) = Some mu
      /\ mean (cluster (1 - u) (labels_ km) ent) = Some mk
      /\ mk < mu.
Proof.
  intros Hk u. unfold u. rewrite (converged_iidx ent km Hk).
  pose proof (converged_centres_distinct ent km Hk) as Hd.
  destruct Hk as (Hc & E0 & E1).
  destruct (Rgtb _ _) eqn:G.
  - apply Rgtb_true in G. split; [now right|].
    exists (snd (cluster_centers_ km)), (fst (cluster_centers_ km)).
    cbn [Nat.sub]. repeat split; auto.
  - apply Rgtb_false in G. split; [now left|].
    exists (fst (cluster_centers_ km)), (snd (cluster_centers_ km)).
    cbn [Nat.sub]. repeat split; auto. lra.
Qed.

Lemma splitter_well_separated (ent : vec) (km : KMeans) (l0 a b h1 : R) :
  kmeans_converged ent km ->
  well_separated ent l0 a b h1 ->
  a < ENT_THRESHOLD_of km < b
  /\ forall i, (i < length ent)%nat ->
               (In i (split_known_idx ent km) <-> nth i ent 0 <= a).
Proof.
  intros Hk Hws.
  destruct (converged_lengths ent km Hk) as [Hlen H01].
  pose proof (converged_centres_distinct ent km Hk) as Hd.
  pose proof (converged_iidx ent km Hk) as Hi.
  destruct (cluster_partition _ ent Hlen H01) as [_ HN].
  unfold split_known_idx. rewrite Hi. clear Hi.
  unfold ENT_THRESHOLD_of.
  destruct Hk as (Hc & E0 & E1).
  destruct (cluster_centers_ km) as [c0 c1] eqn:Ec. cbn [fst snd] in *.
  assert (Hgrp : forall i, (i < length ent)%nat ->
                           l0 <= nth i ent 0 <= a \/ b <= nth i ent 0 <= h1).
  { intros i Hi. destruct Hws as (_ & _ & _ & F & _).
    rewrite Forall_forall in F. apply F. now apply nth_In. }
  assert (Hnth : forall i, nth i (labels_ km) (predict km 0)
                           = predict km (nth i ent 0)).
  { intros i. rewrite Hc. apply map_nth. }
  destruct (Rlt_le_dec c0 c1) as [Hlt|Hge].
  - assert (Hbt : a < (c0 + c1) / 2 < b).
    { apply (threshold_between_groups 0 1 (labels_ km) ent c0 c1 l0 a b h1);
        auto.
      rewrite Hc. apply Forall2_map_l. intros x _.
      destruct (predict_centres_lt km c0 c1 x Ec Hlt) as [P1 P0].
      split; [apply predict_01|]. split; intros E; [now apply P0|].
      apply P1 in E. lra. }
    split; [exact Hbt|]. intros i Hil.
    rewrite (proj2 (Rgtb_true c1 c0)) by lra.
    rewrite (np_where_In _ _ (predict km 0)), Hnth, Hlen.
    destruct (predict_centres_lt km c0 c1 (nth i ent 0) Ec Hlt) as [P1 P0].
    destruct (predict_01 km (nth i ent 0)) as [Ep|Ep]; rewrite Ep; cbn.
    + apply P0 in Ep. destruct (Hgrp i Hil); intuition lra.
    + apply P1 in Ep. split; [intros [_ H]; discriminate|lra].
  - assert (Hgt : c1 < c0) by lra.
    assert (Hbt : a < (c1 + c0) / 2 < b).
    { apply (threshold_between_groups 1 0 (labels_ km) ent c1 c0 l0 a b h1);
        auto; try lia.
      rewrite Hc. apply Forall2_map_l. intros x _.
      destruct (predict_centres_gt km c0 c1 x Ec Hgt) as [P1 P0].
      replace ((c1 + c0) / 2) with ((c0 + c1) / 2) by lra.
      split; [destruct (predict_01 km x); auto|].
      split; intros E; [|now apply P0].
      apply P1 in E. lra. }
    replace ((c1 + c0) / 2) with ((c0 + c1) / 2) in Hbt by lra.
    split; [exact Hbt|]. intros i Hil.
    rewrite (proj2 (Rgtb_false c1 c0)) by lra.
    rewrite (np_where_In _ _ (predict km 0)), Hnth, Hlen.
    destruct (predict_centres_gt km c0 c1 (nth i ent 0) Ec Hgt) as [P1 P0].
    destruct (predict_01 km (nth i ent 0)) as [Ep|Ep]; rewrite Ep; cbn.
    + apply P0 in Ep. split; [intros [_ H]; discriminate|lra].
    + apply P1 in Ep. destruct (Hgrp i Hil); intuition lra.
Qed.

(** ** Unfolding the engine *)

Lemma obtain_label_eq (fit : vec -> KMeans) (loader : list (list sample))
  (cfg : Config) :
  loader <> [] ->
  obtain_label fit loader cfg =
  let N := length (concat loader) in
  if (N =? 0)%nat then Raise ZeroDivisionError else
  if negb (ent_finite (epsilon cfg) (class_num cfg) (probs_of loader))
  then Raise ValueError_not_finite else
  if (N <? 2)%nat then Raise ValueError_n_samples else
  pred_label <- refined_of fit loader cfg ;;
  let known_idx := known_idx_of fit loader cfg in
  let guess := guess_label_of (class_num cfg) N known_idx pred_label in
  Ok {| guess_label := guess;
        ENT_THRESHOLD := ENT_THRESHOLD_of (fit (ent_of loader cfg));
        before_acc := INR (count_eq (predict_of loader)
                                    (map labels (concat loader))) / INR N;
        after_acc := np_div (count_eq guess (map labels (concat loader)))
                            (length (take 0%nat known_idx
                                          (map labels (concat loader)))) |}.
Proof.
  intros Hne. destruct loader as [|b l]; [now elim Hne|].
  unfold obtain_label, refined_of, known_idx_of, LabelSet_of, K_of, d_of,
    ent_of, features_of, predict_of, probs_of.
  cbv zeta.
  destruct (length (concat (b :: l)) =? 0)%nat; [reflexivity|].
  destruct (negb (ent_finite _ _ _)); [reflexivity|].
  destruct (length (concat (b :: l)) <? 2)%nat; [reflexivity|].
  destruct (metric_eqb (distance cfg) cosine); reflexivity.
Qed.

(** ** argmin and the nearest-prototype assigner *)

Lemma argmin_from_bound (l : list float) :
  forall best besti i,
    (besti < i)%nat ->
    (argmin_from best besti i l < i + length l)%nat.
Proof.
  induction l as [|x t IH]; intros best besti i Hb; cbn [argmin_from length].
  - lia.
  - destruct (float_lt_min x best).
    + specialize (IH x i (S i) ltac:(lia)). lia.
    + specialize (IH best besti (S i) ltac:(lia)). lia.
Qed.

Lemma argmin_lt (row : list float) :
  row <> [] -> (argmin row < length row)%nat.
Proof.
  destruct row as [|x t]; [intros H; now elim H|intros _].
  cbn [argmin length]. pose proof (argmin_from_bound t x 0%nat 1%nat ltac:(lia)).
  lia.
Qed.

Lemma length_cdist_row (m : metric) (XA XB : matrix) :
  Forall (fun row => length row = length XB) (cdist m XA XB).
Proof.
  unfold cdist. apply Forall_forall. intros row Hr.
  apply in_map_iff in Hr as (a & <- & _). apply length_map.
Qed.

Lemma assign_nil (m : metric) (all_fea initc : matrix) :
  assign m all_fea initc [] = Raise ValueError_argmin.
Proof. reflexivity. Qed.

Lemma assign_Ok (m : metric) (all_fea initc : matrix) (labelset : list nat) :
  labelset <> [] ->
  exists pl, assign m all_fea initc labelset = Ok pl
             /\ length pl = length all_fea
             /\ Forall (fun c => In c labelset) pl.
Proof.
  intros Hne. unfold assign, argmin_axis1.
  destruct (Nat.eqb_spec (length labelset) 0) as [E|E].
  { destruct labelset; [now elim Hne|discriminate]. }
  cbn [bind]. eexists. split; [reflexivity|]. split.
  - unfold take, cdist. now rewrite !length_map.
  - unfold take. apply Forall_forall. intros c Hc.
    apply in_map_iff in Hc as (i & <- & Hi).
    apply in_map_iff in Hi as (row & <- & Hrow).
    apply nth_In.
    pose proof (length_cdist_row m all_fea (map (fun i => nth i initc []) labelset))
      as Hl.
    rewrite Forall_forall in Hl. specialize (Hl row Hrow).
    rewrite length_map in Hl. rewrite <- Hl. apply argmin_lt.
    intros ->. simpl in Hl. lia.
Qed.

Lemma assign_inv (m : metric) (all_fea initc : matrix) (labelset pl : list nat) :
  assign m all_fea initc labelset = Ok pl ->
  labelset <> [] /\ length pl = length all_fea
  /\ Forall (fun c => In c labelset) pl.
Proof.
  intros E. destruct labelset as [|k ls]; [discriminate|].
  split; [discriminate|].
  destruct (assign_Ok m all_fea initc (k :: ls) ltac:(discriminate))
    as (pl' & E' & H). rewrite E in E'. injection E' as ->. exact H.
Qed.


(** ** The refinement loop *)

Lemma refine_eq (m : metric) (thr : R) (K d : nat) (all_fea all_output : matrix)
  (pred : list nat) :
  refine m thr K d all_fea all_output pred =
  let labelset := labelset_of K thr pred in
  pl0 <- assign m all_fea (build_initc K d all_output all_fea) labelset ;;
  assign m all_fea (build_initc K d (eye_rows K pl0) all_fea) labelset.
Proof.
  unfold refine. cbv zeta.
  destruct (assign m all_fea _ _) as [pl0|e]; [|reflexivity].
  cbn [bind for_range]. unfold round_body.
  destruct (assign m all_fea _ _); reflexivity.
Qed.

Lemma refine_nil (m : metric) (thr : R) (K d : nat) (all_fea all_output : matrix)
  (pred : list nat) :
  labelset_of K thr pred = [] ->
  refine m thr K d all_fea all_output pred = Raise ValueError_argmin.
Proof.
  intros E. rewrite refine_eq. cbv zeta. rewrite E. reflexivity.
Qed.

Lemma refine_Ok (m : metric) (thr : R) (K d : nat) (all_fea all_output : matrix)
  (pred : list nat) :
  labelset_of K thr pred <> [] ->
  exists pl, refine m thr K d all_fea all_output pred = Ok pl
             /\ length pl = length all_fea
             /\ Forall (fun c => In c (labelset_of K thr pred)) pl.
Proof.
  intros Hne. rewrite refine_eq. cbv zeta.
  destruct (assign_Ok m all_fea (build_initc K d all_output all_fea) _ Hne)
    as (pl0 & -> & _).
  cbn [bind]. now apply assign_Ok.
Qed.

Lemma refine_inv (m : metric) (thr : R) (K d : nat) (all_fea all_output : matrix)
  (pred pl : list nat) :
  refine m thr K d all_fea all_output pred = Ok pl ->
  labelset_of K thr pred <> [] /\ length pl = length all_fea
  /\ Forall (fun c => In c (labelset_of K thr pred)) pl.
Proof.
  intros E.
  destruct (labelset_of K thr pred) as [|k ls] eqn:El.
  { rewrite refine_nil in E by assumption. discriminate. }
  split; [discriminate|].
  destruct (refine_Ok m thr K d all_fea all_output pred) as (pl' & E' & H).
  { rewrite El. discriminate. }
  rewrite E in E'. injection E' as ->. rewrite El in H. exact H.
Qed.

Lemma length_cls_count (K : nat) (pred : list nat) : length (cls_count K pred) = K.
Proof. unfold cls_count. now rewrite length_map, length_seq. Qed.

Lemma labelset_lt (K : nat) (thr : R) (pred : list nat) (k : nat) :
  In k (labelset_of K thr pred) -> (k < K)%nat.
Proof.
  unfold labelset_of. rewrite (np_where_In _ _ 0).
  rewrite length_cls_count. tauto.
Qed.

(** ** Scatter *)

Lemma length_upd (i v : nat) (l : list nat) : length (upd i v l) = length l.
Proof.
  revert i. induction l as [|x t IH]; intros [|i]; simpl; auto.
Qed.

Lemma nth_upd_same (i v d : nat) (l : list nat) :
  (i < length l)%nat -> nth i (upd i v l) d = v.
Proof.
  revert i. induction l as [|x t IH]; intros [|i] H; simpl in *; try lia; auto.
  apply IH. lia.
Qed.

Lemma nth_upd_other (i k v d : nat) (l : list nat) :
  i <> k -> nth k (upd i v l) d = nth k l d.
Proof.
  revert i k. induction l as [|x t IH]; intros [|i] [|k] H; simpl; auto; try lia.
Qed.

Lemma setitem_cons (l : list nat) (i v : nat) (idx vals : list nat) :
  setitem l (i :: idx) (v :: vals) = setitem (upd i v l) idx vals.
Proof. reflexivity. Qed.

Lemma length_setitem (idx : list nat) :
  forall vals l, length (setitem l idx vals) = length l.
Proof.
  induction idx as [|i idx IH]; intros vals l; [reflexivity|].
  destruct vals as [|v vals]; [reflexivity|].
  rewrite setitem_cons, IH. apply length_upd.
Qed.

Lemma setitem_notin (idx : list nat) :
  forall vals l k d, ~ In k idx -> nth k (setitem l idx vals) d = nth k l d.
Proof.
  induction idx as [|i idx IH]; intros vals l k d Hk; [reflexivity|].
  destruct vals as [|v vals]; [reflexivity|].
  rewrite setitem_cons, IH by (intros H; apply Hk; now right).
  apply nth_upd_other. intros ->. apply Hk. now left.
Qed.

Lemma setitem_in (idx : list nat) :
  forall vals l j d,
    NoDup idx -> length idx = length vals ->
    (forall k, In k idx -> (k < length l)%nat) ->
    (j < length idx)%nat ->
    nth (nth j idx 0%nat) (setitem l idx vals) d = nth j vals d.
Proof.
  induction idx as [|i idx IH]; intros vals l j d Hnd Hlen Hb Hj;
    [simpl in Hj; lia|].
  destruct vals as [|v vals]; [discriminate|].
  injection Hlen as Hlen. inversion Hnd as [|? ? Hni Hnd']; subst.
  rewrite setitem_cons. destruct j as [|j]; cbn [nth].
  - rewrite setitem_notin by assumption.
    apply nth_upd_same. apply Hb. now left.
  - apply IH; auto.
    + intros k Hk. rewrite length_upd. apply Hb. now right.
    + simpl in Hj. lia.
Qed.

Lemma where_from_ge {A : Type} (f : A -> bool) (l : list A) (i k : nat) :
  In k (where_from f i l) -> (i <= k)%nat.
Proof.
  intros H. destruct l as [|x t]; [contradiction|].
  apply (where_from_In f (x :: t) x) in H. lia.
Qed.

Lemma where_from_NoDup {A : Type} (f : A -> bool) (l : list A) :
  forall i, NoDup (where_from f i l).
Proof.
  induction l as [|x t IH]; intros i; cbn [where_from]; [constructor|].
  destruct (f x); [|apply IH].
  constructor; [|apply IH].
  intros H. apply where_from_ge in H. lia.
Qed.

Lemma np_where_NoDup {A : Type} (f : A -> bool) (l : list A) :
  NoDup (np_where f l).
Proof. apply where_from_NoDup. Qed.

Lemma np_where_lt {A : Type} (f : A -> bool) (l : list A) (k : nat) :
  In k (np_where f l) -> (k < length l)%nat.
Proof.
  intros H. destruct l as [|x t]; [contradiction|].
  apply (np_where_In f (x :: t) x) in H. tauto.
Qed.

(** The scattered vector: the sentinel outside [known_idx], the refined
    label at each KNOWN position. *)
Lemma guess_label_spec (class_num N : nat) (known_idx pred_label : list nat) :
  NoDup known_idx ->
  (forall k, In k known_idx -> (k < N)%nat) ->
  length pred_label = length known_idx ->
  length (guess_label_of class_num N known_idx pred_label) = N
  /\ (forall i, (i < N)%nat -> ~ In i known_idx ->
                nth i (guess_label_of class_num N known_idx pred_label) 0%nat
                = class_num)
  /\ (forall j, (j < length known_idx)%nat ->
                nth (nth j known_idx 0%nat)
                    (guess_label_of class_num N known_idx pred_label) 0%nat
                = nth j pred_label 0%nat).
Proof.
  intros Hnd Hb Hlen. unfold guess_label_of.
  split; [|split].
  - now rewrite length_setitem, repeat_length.
  - intros i Hi Hni. rewrite setitem_notin by assumption.
    apply nth_repeat_lt. exact Hi.
  - intros j Hj. apply setitem_in; auto.
    intros k Hk. rewrite repeat_length. now apply Hb.
Qed.

(** ** Counting hard assignments *)

Lemma nth_map_seq {A : Type} (f : nat -> A) (K k : nat) (d : A) :
  (k < K)%nat -> nth k (map f (seq 0 K)) d = f k.
Proof.
  intros H. rewrite (nth_indep _ d (f 0%nat)) by (now rewrite length_map, length_seq).
  rewrite map_nth, seq_nth by assumption. reflexivity.
Qed.

Lemma column_eye_rows (K k : nat) (pred : list nat) :
  (k < K)%nat ->
  column k (eye_rows K pred) = map (fun l => if (l =? k)%nat then 1 else 0) pred.
Proof.
  intros H. unfold column, eye_rows. rewrite map_map.
  apply map_ext. intros l. now rewrite nth_map_seq.
Qed.

Lemma sum_indicator (k : nat) (pred : list nat) :
  sum (map (fun l => if (l =? k)%nat then 1 else 0) pred)
  = INR (count_occ Nat.eq_dec pred k).
Proof.
  induction pred as [|l t IH]; [reflexivity|].
  cbn [map count_occ]. rewrite sum_cons, IH.
  destruct (Nat.eqb_spec l k) as [->|Hne].
  - destruct (Nat.eq_dec k k); [|contradiction]. rewrite S_INR. lra.
  - destruct (Nat.eq_dec l k); [contradiction|]. lra.
Qed.

(** [cls_count[k]] is the number of samples whose prediction is [k]. *)
Lemma cls_count_nth (K k : nat) (pred : list nat) :
  (k < K)%nat ->
  nth k (cls_count K pred) 0 = INR (count_occ Nat.eq_dec pred k).
Proof.
  intros H. unfold cls_count. rewrite nth_map_seq by assumption.
  rewrite column_eye_rows by assumption. apply sum_indicator.
Qed.

(** LabelSet: the classes predicted strictly more than [thr] times. *)
Lemma labelset_In (K : nat) (thr : R) (pred : list nat) (k : nat) :
  In k (labelset_of K thr pred)
  <-> (k < K)%nat /\ INR (count_occ Nat.eq_dec pred k) > thr.
Proof.
  unfold labelset_of. rewrite (np_where_In _ _ 0), length_cls_count.
  split; intros [Hk H]; split; auto.
  - rewrite cls_count_nth in H by assumption. now apply Rgtb_true.
  - rewrite cls_count_nth by assumption. now apply Rgtb_true.
Qed.

Lemma argmax_from_bound (l : vec) :
  forall best besti i,
    (besti < i)%nat -> (argmax_from best besti i l < i + length l)%nat.
Proof.
  induction l as [|x t IH]; intros best besti i Hb; cbn [argmax_from length].
  - lia.
  - destruct (Rgtb x best).
    + specialize (IH x i (S i) ltac:(lia)). lia.
    + specialize (IH best besti (S i) ltac:(lia)). lia.
Qed.

Lemma argmax_lt (row : vec) : row <> [] -> (argmax row < length row)%nat.
Proof.
  destruct row as [|x t]; [intros H; now elim H|intros _].
  cbn [argmax length]. pose proof (argmax_from_bound t x 0%nat 1%nat ltac:(lia)).
  lia.
Qed.

Lemma length_softmax (row : vec) : length (softmax row) = length row.
Proof. apply length_map. Qed.

(** ** Shape of the tensors of a pass *)

Lemma length_probs_of (loader : list (list sample)) :
  length (probs_of loader) = length (concat loader).
Proof. unfold probs_of. now rewrite !length_map. Qed.

Lemma length_ent_of (loader : list (list sample)) (cfg : Config) :
  length (ent_of loader cfg) = length (concat loader).
Proof. unfold ent_of. now rewrite length_map, length_probs_of. Qed.

Lemma K_of_class_num (loader : list (list sample)) (n : nat) :
  concat loader <> [] ->
  Forall (fun s => length (outputs s) = n) (concat loader) ->
  K_of loader = n.
Proof.
  unfold K_of, probs_of. destruct (concat loader) as [|s t]; [intros H; now elim H|].
  intros _ F. inversion F; subst. cbn [map hd]. apply length_softmax.
Qed.

Lemma known_idx_of_lt (fit : vec -> KMeans) (loader : list (list sample))
  (cfg : Config) (k : nat) :
  length (labels_ (fit (ent_of loader cfg))) = length (concat loader) ->
  In k (known_idx_of fit loader cfg) -> (k < length (concat loader))%nat.
Proof.
  intros Hl Hk. unfold known_idx_of, split_known_idx in Hk.
  apply np_where_lt in Hk. lia.
Qed.

Lemma known_idx_of_NoDup (fit : vec -> KMeans) (loader : list (list sample))
  (cfg : Config) :
  NoDup (known_idx_of fit loader cfg).
Proof. apply np_where_NoDup. Qed.

(** ** Softmax *)

Lemma sum_exp_pos (row : vec) : row <> [] -> 0 < sum (map exp row).
Proof.
  induction row as [|x t IH]; [intros H; now elim H|intros _].
  cbn [map]. rewrite sum_cons. pose proof (exp_pos x).
  destruct t as [|y t']; [unfold sum; simpl; lra|].
  specialize (IH ltac:(discriminate)). lra.
Qed.

Lemma sum_map_div (f : R -> R) (c : R) (l : vec) :
  sum (map (fun x => f x / c) l) = sum (map f l) / c.
Proof.
  induction l as [|x t IH]; [unfold sum; simpl; lra|].
  cbn [map]. rewrite !sum_cons, IH. lra.
Qed.

(** Whatever the classifier outputs are, the row that is scored is a
    distribution. *)
Lemma softmax_valid (row : vec) : row <> [] -> valid_dist (softmax row).
Proof.
  intros Hne. pose proof (sum_exp_pos row Hne) as HS. unfold softmax. split.
  - apply Forall_forall. intros p Hp. apply in_map_iff in Hp as (x & <- & _).
    left. apply Rdiv_lt_0_compat; [apply exp_pos|exact HS].
  - rewrite (sum_map_div exp). field. lra.
Qed.

Lemma softmax_pos (row : vec) (p : R) : In p (softmax row) -> 0 < p.
Proof.
  intros Hp. unfold softmax in Hp. apply in_map_iff in Hp as (x & <- & Hx).
  apply Rdiv_lt_0_compat; [apply exp_pos|].
  apply sum_exp_pos. intros ->. contradiction.
Qed.

(** With a positive stability constant and a class count other than 1 the
    entropy scores are finite. *)
Lemma probs_finite (loader : list (list sample)) (cfg : Config) :
  class_num cfg <> 1%nat -> 0 < epsilon cfg ->
  ent_finite (epsilon cfg) (class_num cfg) (probs_of loader) = true.
Proof.
  intros HK He. unfold ent_finite.
  apply andb_true_intro. split.
  - apply negb_true_iff. now apply Nat.eqb_neq.
  - apply forallb_forall. intros row Hrow.
    unfold probs_of in Hrow. apply in_map_iff in Hrow as (r & <- & _).
    apply forallb_forall. intros p Hp. apply Rltb_true.
    pose proof (softmax_pos r p Hp). lra.
Qed.

Lemma not_finite_inv (loader : list (list sample)) (cfg : Config) :
  ent_finite (epsilon cfg) (class_num cfg) (probs_of loader) = false ->
  class_num cfg = 1%nat \/ epsilon cfg <= 0.
Proof.
  intros E. destruct (Nat.eq_dec (class_num cfg) 1) as [H|H]; [now left|right].
  destruct (Rlt_le_dec 0 (epsilon cfg)) as [He|He]; [|exact He].
  rewrite (probs_finite loader cfg H He) in E. discriminate.
Qed.

(** ** Outcome of a pass *)

Lemma two_samples_loader (loader : list (list sample)) :
  (2 <= length (concat loader))%nat ->
  loader <> [] /\ (length (concat loader) =? 0)%nat = false
  /\ (length (concat loader) <? 2)%nat = false.
Proof.
  intros H. split; [|split].
  - intros ->. simpl in H. lia.
  - apply Nat.eqb_neq. lia.
  - apply Nat.ltb_ge. lia.
Qed.

Lemma refined_of_Ok (fit : vec -> KMeans) (loader : list (list sample))
  (cfg : Config) :
  LabelSet_of fit loader cfg <> [] ->
  exists pl, refined_of fit loader cfg = Ok pl
             /\ length pl = length (known_idx_of fit loader cfg)
             /\ Forall (fun c => In c (LabelSet_of fit loader cfg)) pl.
Proof.
  intros Hne. unfold refined_of. cbv zeta.
  destruct (refine_Ok (distance cfg) (threshold cfg) (K_of loader)
              (d_of loader cfg)
              (take [] (known_idx_of fit loader cfg) (features_of loader cfg))
              (take [] (known_idx_of fit loader cfg) (probs_of loader))
              (take 0%nat (known_idx_of fit loader cfg) (predict_of loader)) Hne)
    as (pl & E & Hlen & Hin).
  exists pl. split; [exact E|]. split; [|exact Hin].
  rewrite Hlen. unfold take. apply length_map.
Qed.

Lemma refined_of_Raise (fit : vec -> KMeans) (loader : list (list sample))
  (cfg : Config) :
  LabelSet_of fit loader cfg = [] ->
  refined_of fit loader cfg = Raise ValueError_argmin.
Proof.
  intros E. unfold refined_of. cbv zeta. now apply refine_nil.
Qed.

Lemma obtain_label_Ok (fit : vec -> KMeans) (loader : list (list sample))
  (cfg : Config) :
  (2 <= length (concat loader))%nat ->
  class_num cfg <> 1%nat -> 0 < epsilon cfg ->
  LabelSet_of fit loader cfg <> [] ->
  exists out pl,
    obtain_label fit loader cfg = Ok out
    /\ refined_of fit loader cfg = Ok pl
    /\ length pl = length (known_idx_of fit loader cfg)
    /\ Forall (fun c => In c (LabelSet_of fit loader cfg)) pl
    /\ guess_label out
       = guess_label_of (class_num cfg) (length (concat loader))
                        (known_idx_of fit loader cfg) pl
    /\ ENT_THRESHOLD out = ENT_THRESHOLD_of (fit (ent_of loader cfg)).
Proof.
  intros HN HK He Hne.
  destruct (two_samples_loader loader HN) as (Hl & E0 & E2).
  destruct (refined_of_Ok fit loader cfg Hne) as (pl & Er & Hlen & Hin).
  rewrite (obtain_label_eq fit loader cfg Hl). cbv zeta.
  rewrite E0, E2, Er, (probs_finite loader cfg HK He). cbn [bind negb].
  eexists. exists pl. split; [reflexivity|]. cbn [guess_label ENT_THRESHOLD].
  auto.
Qed.

Lemma obtain_label_empty_LabelSet (fit : vec -> KMeans)
  (loader : list (list sample)) (cfg : Config) :
  (2 <= length (concat loader))%nat ->
  class_num cfg <> 1%nat -> 0 < epsilon cfg ->
  LabelSet_of fit loader cfg = [] ->
  obtain_label fit loader cfg = Raise ValueError_argmin.
Proof.
  intros HN HK Heps He.
  destruct (two_samples_loader loader HN) as (Hl & E0 & E2).
  rewrite (obtain_label_eq fit loader cfg Hl). cbv zeta.
  rewrite E0, E2, (refined_of_Raise fit loader cfg He),
    (probs_finite loader cfg HK Heps). reflexivity.
Qed.

Lemma obtain_label_inv (fit : vec -> KMeans) (loader : list (list sample))
  (cfg : Config) (out : Output) :
  obtain_label fit loader cfg = Ok out ->
  (2 <= length (concat loader))%nat
  /\ exists pl,
      refined_of fit loader cfg = Ok pl
      /\ guess_label out
         = guess_label_of (class_num cfg) (length (concat loader))
                          (known_idx_of fit loader cfg) pl
      /\ ENT_THRESHOLD out = ENT_THRESHOLD_of (fit (ent_of loader cfg)).
Proof.
  intros E. destruct loader as [|b l]; [discriminate|].
  rewrite (obtain_label_eq fit (b :: l) cfg ltac:(discriminate)) in E.
  cbv zeta in E.
  destruct (Nat.eqb_spec (length (concat (b :: l))) 0); [discriminate|].
  destruct (negb (ent_finite _ _ _)); [discriminate|].
  destruct (Nat.ltb_spec (length (concat (b :: l))) 2); [discriminate|].
  split; [lia|].
  destruct (refined_of fit (b :: l) cfg) as [pl|e]; [|discriminate].
  cbn [bind] in E. injection E as <-. exists pl. cbn. auto.
Qed.

(** ** Passes that cannot fail *)

Lemma labelset_nonempty (K : nat) (thr : R) (pred : list nat) (c : nat) :
  In c pred -> (c < K)%nat -> thr < 1 -> labelset_of K thr pred <> [].
Proof.
  intros Hin Hc Hthr E.
  assert (H : In c (labelset_of K thr pred)).
  { apply labelset_In. split; [exact Hc|].
    apply (count_occ_In Nat.eq_dec) in Hin.
    assert (H1 : (1 <= count_occ Nat.eq_dec pred c)%nat) by lia.
    apply le_INR in H1. simpl in H1. lra. }
  rewrite E in H. contradiction.
Qed.

Lemma split_iidx_01 (ent : vec) (labels : list nat) :
  split_iidx ent labels = 0%nat \/ split_iidx ent labels = 1%nat.
Proof.
  unfold split_iidx. destruct (float_gt _ _); auto.
Qed.

(** If k-means used both labels, some sample is KNOWN. *)
Lemma known_idx_nonempty (ent : vec) (km : KMeans) :
  In 0%nat (labels_ km) -> In 1%nat (labels_ km) ->
  split_known_idx ent km <> [].
Proof.
  intros H0 H1 E. unfold split_known_idx in E.
  destruct (split_iidx_01 ent (map (predict km) ent)) as [Ei|Ei];
    rewrite Ei in E.
  - destruct (In_nth _ _ 0%nat H1) as (i & Hi & Hn).
    assert (In i (np_where (fun l => negb (l =? 0)%nat) (labels_ km))).
    { apply (np_where_In _ _ 0%nat). rewrite Hn. auto. }
    rewrite E in H. contradiction.
  - destruct (In_nth _ _ 0%nat H0) as (i & Hi & Hn).
    assert (In i (np_where (fun l => negb (l =? 1)%nat) (labels_ km))).
    { apply (np_where_In _ _ 0%nat). rewrite Hn. auto. }
    rewrite E in H. contradiction.
Qed.

Lemma predict_of_lt (loader : list (list sample)) (n i : nat) :
  (0 < n)%nat ->
  Forall (fun s => length (outputs s) = n) (concat loader) ->
  (i < length (concat loader))%nat ->
  (nth i (predict_of loader) 0%nat < n)%nat.
Proof.
  intros Hn F Hi. unfold predict_of, probs_of.
  rewrite !map_map.
  rewrite (nth_indep _ 0%nat (argmax (softmax (outputs (nth 0 (concat loader)
            {| feas := []; outputs := []; labels := 0 |})))))
    by (now rewrite length_map).
  rewrite (map_nth (fun s => argmax (softmax (outputs s)))).
  rewrite Forall_forall in F.
  set (s := nth i (concat loader) _).
  assert (Hs : length (outputs s) = n) by (apply F, nth_In, Hi).
  rewrite <- Hs, <- length_softmax. apply argmax_lt.
  intros E. apply (f_equal (@length R)) in E. rewrite length_softmax in E.
  simpl in E. lia.
Qed.

(** With the default minimum support (any threshold below 1), a pass on
    which k-means used both labels has an inhabited LabelSet. *)
Lemma LabelSet_of_nonempty (fit : vec -> KMeans) (loader : list (list sample))
  (cfg : Config) :
  (0 < class_num cfg)%nat ->
  Forall (fun s => length (outputs s) = class_num cfg) (concat loader) ->
  length (labels_ (fit (ent_of loader cfg))) = length (concat loader) ->
  In 0%nat (labels_ (fit (ent_of loader cfg))) ->
  In 1%nat (labels_ (fit (ent_of loader cfg))) ->
  threshold cfg < 1 ->
  LabelSet_of fit loader cfg <> [].
Proof.
  intros HK F Hlab H0 H1 Hthr.
  pose proof (known_idx_nonempty (ent_of loader cfg) _ H0 H1) as Hk.
  fold (known_idx_of fit loader cfg) in Hk.
  destruct (known_idx_of fit loader cfg) as [|k ks] eqn:Ek; [now elim Hk|].
  assert (Hlt : (k < length (concat loader))%nat).
  { apply (known_idx_of_lt fit loader cfg k Hlab). rewrite Ek. now left. }
  unfold LabelSet_of. rewrite Ek.
  apply (labelset_nonempty _ _ _ (nth k (predict_of loader) 0%nat)); auto.
  - now left.
  - rewrite (K_of_class_num loader (class_num cfg)); auto.
    + now apply predict_of_lt.
    + intros E. rewrite E in Hlt. simpl in Hlt. lia.
Qed.

(** ** Empty LabelSet *)

Lemma where_from_length {A : Type} (f : A -> bool) (l : list A) :
  forall i, (length (where_from f i l) <= length l)%nat.
Proof.
  induction l as [|x t IH]; intros i; cbn [where_from length]; [lia|].
  destruct (f x); cbn [length]; specialize (IH (S i)); lia.
Qed.

(** No class can be predicted more often than there are samples. *)
Lemma labelset_empty_high_support (K : nat) (thr : R) (pred : list nat) :
  INR (length pred) <= thr -> labelset_of K thr pred = [].
Proof.
  intros H. destruct (labelset_of K thr pred) as [|k ks] eqn:E; [reflexivity|].
  assert (Hk : In k (labelset_of K thr pred)) by (rewrite E; now left).
  apply labelset_In in Hk as [_ Hk].
  pose proof (count_occ_bound Nat.eq_dec k pred) as Hb.
  apply le_INR in Hb. lra.
Qed.

Lemma LabelSet_of_no_known (fit : vec -> KMeans) (loader : list (list sample))
  (cfg : Config) :
  known_idx_of fit loader cfg = [] -> 0 <= threshold cfg ->
  LabelSet_of fit loader cfg = [].
Proof.
  intros E H. unfold LabelSet_of. rewrite E.
  apply labelset_empty_high_support. simpl. exact H.
Qed.

(** C6 (amended).  On a pass over at least two samples, with at least two
    classes and a positive stability constant, an empty LabelSet makes the
    engine raise ValueError at the first nearest-prototype assignment; this is
    in particular what happens, with a non-negative minimum support, when the
    splitter leaves no KNOWN sample.  Nothing is returned. *)
Theorem empty_LabelSet_raises (fit : vec -> KMeans)
  (loader : list (list sample)) (cfg : Config) :
  (2 <= length (concat loader))%nat ->
  (2 <= class_num cfg)%nat ->
  0 < epsilon cfg ->
  (LabelSet_of fit loader cfg = [] ->
   obtain_label fit loader cfg = Raise ValueError_argmin)
  /\ (known_idx_of fit loader cfg = [] -> 0 <= threshold cfg ->
      obtain_label fit loader cfg = Raise ValueError_argmin).
Proof.
  intros HN HK He. split.
  - intros E. apply obtain_label_empty_LabelSet; auto. lia.
  - intros E H. apply obtain_label_empty_LabelSet; auto; [lia|].
    now apply LabelSet_of_no_known.
Qed.

Lemma length_np_where {A : Type} (f : A -> bool) (l : list A) :
  (length (np_where f l) <= length l)%nat.
Proof. apply where_from_length. Qed.

Lemma LabelSet_high_support_empty :
  LabelSet_of fit_two loader_two cfg_high_support = [].
Proof.
  unfold LabelSet_of. apply labelset_empty_high_support.
  unfold take. rewrite length_map.
  unfold known_idx_of, split_known_idx.
  match goal with
  | |- INR (length (np_where ?f ?l)) <= _ =>
      pose proof (length_np_where f l) as H
  end.
  change (length (labels_ (fit_two (ent_of loader_two cfg_high_support))))
    with 2%nat in H.
  apply le_INR in H. simpl in H. simpl. lra.
Qed.

Lemma empty_LabelSet_raises_witness :
  (LabelSet_of fit_two loader_two cfg_high_support = [] ->
   obtain_label fit_two loader_two cfg_high_support = Raise ValueError_argmin)
  /\ (known_idx_of fit_two loader_two cfg_high_support = [] ->
      0 <= threshold cfg_high_support ->
      obtain_label fit_two loader_two cfg_high_support = Raise ValueError_argmin).
Proof.
  apply (empty_LabelSet_raises fit_two loader_two cfg_high_support).
  - simpl. lia.
  - simpl. lia.
  - simpl. lra.
Defined.

(** C6 as stated fails: with a minimum support of 5 on two samples the
    LabelSet is empty and the pass raises instead of returning labels. *)
Lemma empty_LabelSet_no_fallback :
  LabelSet_of fit_two loader_two cfg_high_support = []
  /\ obtain_label fit_two loader_two cfg_high_support = Raise ValueError_argmin
  /\ forall out, obtain_label fit_two loader_two cfg_high_support <> Ok out.
Proof.
  pose proof LabelSet_high_support_empty as E.
  assert (R : obtain_label fit_two loader_two cfg_high_support
              = Raise ValueError_argmin).
  { apply obtain_label_empty_LabelSet;
      [simpl; lia | simpl; lia | simpl; lra | exact E]. }
  split; [exact E|]. split; [exact R|].
  intros out H. rewrite R in H. discriminate.
Qed.

(** ** Softmax before scoring *)

(** Line 51 normalises whatever the classifier returns: over the reals every
    distribution that reaches the entropy scorer of line 58 is non-negative
    and sums to 1, and the scores are computed from these rows. *)
Lemma scored_distributions_valid (loader : list (list sample)) (cfg : Config) :
  Forall (fun s => outputs s <> []) (concat loader) ->
  Forall valid_dist (probs_of loader)
  /\ ent_of loader cfg
     = map (Entropy (epsilon cfg) (class_num cfg)) (probs_of loader).
Proof.
  intros F. split; [|reflexivity].
  unfold probs_of. rewrite map_map. apply Forall_map.
  eapply Forall_impl; [|exact F]. cbn. intros s Hs. now apply softmax_valid.
Qed.

(** ** Ground truth is only logged *)

Lemma map_feas_unlabelled (loader : list (list sample)) :
  map feas (concat loader) = map fst (concat (map (map unlabelled) loader)).
Proof.
  rewrite <- concat_map, map_map. reflexivity.
Qed.

Lemma map_outputs_unlabelled (loader : list (list sample)) :
  map outputs (concat loader) = map snd (concat (map (map unlabelled) loader)).
Proof.
  rewrite <- concat_map, map_map. reflexivity.
Qed.

Section SameInputs.

Variables (fit : vec -> KMeans) (l1 l2 : list (list sample)) (cfg : Config).
Hypothesis same : map (map unlabelled) l1 = map (map unlabelled) l2.

Lemma same_feas : map feas (concat l1) = map feas (concat l2).
Proof. now rewrite !map_feas_unlabelled, same. Qed.

Lemma same_outputs : map outputs (concat l1) = map outputs (concat l2).
Proof. now rewrite !map_outputs_unlabelled, same. Qed.

Lemma same_length : length (concat l1) = length (concat l2).
Proof.
  rewrite <- (length_map feas (concat l1)), same_feas. apply length_map.
Qed.

Lemma same_probs : probs_of l1 = probs_of l2.
Proof. unfold probs_of. now rewrite same_outputs. Qed.

Lemma same_features : features_of l1 cfg = features_of l2 cfg.
Proof. unfold features_of. now rewrite same_feas. Qed.

Lemma same_ent : ent_of l1 cfg = ent_of l2 cfg.
Proof. unfold ent_of. now rewrite same_probs. Qed.

Lemma same_known_idx : known_idx_of fit l1 cfg = known_idx_of fit l2 cfg.
Proof. unfold known_idx_of. now rewrite same_ent. Qed.

Lemma same_refined : refined_of fit l1 cfg = refined_of fit l2 cfg.
Proof.
  unfold refined_of, K_of, d_of, predict_of.
  now rewrite same_known_idx, same_features, same_probs.
Qed.

End SameInputs.

Lemma same_returned (fit : vec -> KMeans) (l1 l2 : list (list sample))
  (cfg : Config) :
  map (map unlabelled) l1 = map (map unlabelled) l2 ->
  returned (obtain_label fit l1 cfg) = returned (obtain_label fit l2 cfg).
Proof.
  intros same.
  pose proof (same_length l1 l2 same) as HN.
  pose proof (same_refined fit l1 l2 cfg same) as HR.
  pose proof (same_known_idx fit l1 l2 cfg same) as HK.
  pose proof (same_ent l1 l2 cfg same) as HE.
  pose proof (same_probs l1 l2 same) as HP.
  destruct l1 as [|b1 t1]; destruct l2 as [|b2 t2];
    try discriminate same; [reflexivity|].
  rewrite (obtain_label_eq fit (b1 :: t1) cfg) by discriminate.
  rewrite (obtain_label_eq fit (b2 :: t2) cfg) by discriminate.
  cbv zeta. rewrite HN, HR, HK, HE, HP.
  destruct (length (concat (b2 :: t2)) =? 0)%nat; [reflexivity|].
  destruct (negb (ent_finite _ _ _)); [reflexivity|].
  destruct (length (concat (b2 :: t2)) <? 2)%nat; [reflexivity|].
  destruct (refined_of fit (b2 :: t2) cfg); reflexivity.
Qed.

(** C7.  What the engine returns (the pseudo-label vector and the threshold,
    or the exception) is a function of the features, the classifier outputs,
    the configuration and the seeded clustering: two passes that differ at
    most in their ground-truth labels return the same. *)
Theorem returned_independent_of_ground_truth (fit : vec -> KMeans)
  (l1 l2 : list (list sample)) (cfg : Config) :
  map (map unlabelled) l1 = map (map unlabelled) l2 ->
  returned (obtain_label fit l1 cfg) = returned (obtain_label fit l2 cfg).
Proof.
  apply same_returned.
Qed.

Lemma returned_independent_of_ground_truth_witness :
  returned (obtain_label fit_two loader_two cfg_default)
  = returned (obtain_label fit_two loader_two_relabelled cfg_default).
Proof.
  apply (returned_independent_of_ground_truth fit_two loader_two
           loader_two_relabelled cfg_default).
  reflexivity.
Defined.

(** ** Open-set splitter *)

(** C2.  On a converged 2-means fit of the entropy scores the cluster tagged
    UNKNOWN is the one with the larger mean entropy, the other one is KNOWN,
    and the threshold is the arithmetic mean of the two centres, which is
    also what the engine returns.  On two well-separated groups KNOWN is
    exactly the low group, UNKNOWN exactly the high group, and the threshold
    lies strictly between the two groups. *)
Theorem open_set_splitter_spec (ent : vec) (km : KMeans) :
  kmeans_converged ent km ->
  ENT_THRESHOLD_of km
  = (fst (cluster_centers_ km) + snd (cluster_centers_ km)) / 2
  /\ split_known_idx ent km
     = np_where (fun l => negb (l =? split_iidx ent (labels_ km))%nat)
                (labels_ km)
  /\ (split_iidx ent (labels_ km) = 0%nat \/ split_iidx ent (labels_ km) = 1%nat)
  /\ (exists mu mk,
         mean (cluster (split_iidx ent (labels_ km)) (labels_ km) ent) = Some mu
         /\ mean (cluster (1 - split_iidx ent (labels_ km)) (labels_ km) ent)
            = Some mk
         /\ mk < mu)
  /\ (forall l0 a b h1,
         well_separated ent l0 a b h1 ->
         a < ENT_THRESHOLD_of km < b
         /\ forall i, (i < length ent)%nat ->
                      (In i (split_known_idx ent km) <-> nth i ent 0 <= a)
                      /\ (~ In i (split_known_idx ent km) <-> b <= nth i ent 0))
  /\ (forall fit loader cfg out,
         ent = ent_of loader cfg -> km = fit ent ->
         obtain_label fit loader cfg = Ok out ->
         ENT_THRESHOLD out
         = (fst (cluster_centers_ km) + snd (cluster_centers_ km)) / 2).
Proof.
  intros Hk.
  assert (Hthr : ENT_THRESHOLD_of km
                 = (fst (cluster_centers_ km) + snd (cluster_centers_ km)) / 2).
  { unfold ENT_THRESHOLD_of. now destruct (cluster_centers_ km). }
  assert (Hc : labels_ km = map (predict km) ent) by apply Hk.
  split; [exact Hthr|]. split.
  { unfold split_known_idx. now rewrite <- Hc. }
  pose proof (splitter_unknown_has_larger_mean ent km Hk) as Hu.
  cbv zeta in Hu. rewrite <- Hc in Hu. destruct Hu as [H01 Hmeans].
  split; [exact H01|]. split; [exact Hmeans|]. split.
  - intros l0 a b h1 Hws.
    destruct (splitter_well_separated ent km l0 a b h1 Hk Hws) as [Hbt Hkn].
    split; [exact Hbt|]. intros i Hi. split; [now apply Hkn|].
    rewrite (Hkn i Hi).
    destruct Hws as (Hab & _ & _ & F & _). rewrite Forall_forall in F.
    specialize (F (nth i ent 0) (nth_In ent 0 Hi)). lra.
  - intros fit loader cfg out -> -> E.
    apply obtain_label_inv in E as (_ & pl & _ & _ & Et).
    now rewrite Et, Hthr.
Qed.

Ltac eval_Rleb :=
  repeat match goal with
  | |- context [Rleb ?a ?b] =>
      first [ rewrite (proj2 (Rleb_true a b)) by lra
            | rewrite (proj2 (Rleb_false a b)) by lra ]
  end.

Lemma km_six_converged : kmeans_converged ent_six km_six.
Proof.
  unfold kmeans_converged, km_six, ent_six, predict.
  cbn [labels_ cluster_centers_ map fst snd].
  eval_Rcmp. split; [reflexivity|].
  unfold cluster, select. cbn [combine filter map fst snd Nat.eqb mean length].
  split; f_equal; unfold sum; cbn [fold_right]; simpl INR; lra.
Qed.

Lemma ent_six_well_separated :
  well_separated ent_six (5 / 100) (1 / 10) (8 / 10) (9 / 10).
Proof.
  unfold well_separated, count_ge, count_le, ent_six.
  cbn [filter]. eval_Rleb. cbn [filter length]. simpl INR.
  repeat split; try lra.
  repeat constructor; lra.
Qed.

Lemma open_set_splitter_spec_witness :
  ENT_THRESHOLD_of km_six
  = (fst (cluster_centers_ km_six) + snd (cluster_centers_ km_six)) / 2
  /\ 1 / 10 < ENT_THRESHOLD_of km_six < 8 / 10
  /\ forall i, (i < length ent_six)%nat ->
               (In i (split_known_idx ent_six km_six)
                <-> nth i ent_six 0 <= 1 / 10)
               /\ (~ In i (split_known_idx ent_six km_six)
                   <-> 8 / 10 <= nth i ent_six 0).
Proof.
  destruct (open_set_splitter_spec ent_six km_six km_six_converged)
    as (Hthr & _ & _ & _ & Hws & _).
  split; [exact Hthr|].
  exact (Hws (5 / 100) (1 / 10) (8 / 10) (9 / 10) ent_six_well_separated).
Defined.

(** ** Prototype builder *)

Lemma length_vadd (u v : vec) : length (vadd u v) = Nat.min (length u) (length v).
Proof. unfold vadd. now rewrite length_map, length_combine. Qed.

Lemma length_vscale (a : R) (v : vec) : length (vscale a v) = length v.
Proof. apply length_map. Qed.

Lemma nth_vadd (u v : vec) (j : nat) :
  (j < length u)%nat -> (j < length v)%nat ->
  nth j (vadd u v) 0 = nth j u 0 + nth j v 0.
Proof.
  revert v j. induction u as [|x u IH]; intros [|y v] [|j] Hu Hv;
    simpl in *; try lia; auto.
  apply IH; lia.
Qed.

Lemma nth_vscale (a : R) (v : vec) (j : nat) :
  nth j (vscale a v) 0 = a * nth j v 0.
Proof.
  revert j. induction v as [|x v IH]; intros [|j]; simpl; auto; lra.
Qed.

Lemma length_weighted_sum (d : nat) (X : matrix) :
  Forall (fun x => length x = d) X ->
  forall w, length (weighted_sum d w X) = d.
Proof.
  unfold weighted_sum. induction 1 as [|x X Hx _ IH]; intros w.
  - destruct w; simpl; apply repeat_length.
  - destruct w as [|a w]; [simpl; apply repeat_length|].
    cbn [combine fold_right fst snd].
    rewrite length_vadd, length_vscale, Hx, IH. lia.
Qed.

Lemma nth_repeat_0 (d j : nat) : nth j (repeat 0 d) 0 = 0.
Proof.
  revert j. induction d as [|d IH]; intros [|j]; simpl; auto.
Qed.

(** Coordinate [j] of [sum_i w_i * X_i]. *)
Lemma weighted_sum_nth (d j : nat) (X : matrix) :
  Forall (fun x => length x = d) X -> (j < d)%nat ->
  forall w,
    nth j (weighted_sum d w X) 0
    = sum (map (fun p => fst p * nth j (snd p) 0) (combine w X)).
Proof.
  intros F Hj. induction F as [|x X Hx F IH]; intros w.
  - destruct w; unfold weighted_sum; simpl; apply nth_repeat_0.
  - destruct w as [|a w]; [unfold weighted_sum; simpl; apply nth_repeat_0|].
    change (weighted_sum d (a :: w) (x :: X))
      with (vadd (vscale a x) (weighted_sum d w X)).
    rewrite nth_vadd.
    + rewrite nth_vscale, IH. cbn [combine map fst snd]. now rewrite sum_cons.
    + rewrite length_vscale. lia.
    + rewrite length_weighted_sum by assumption. lia.
Qed.

Lemma combine_column (k : nat) (aff X : matrix) :
  combine (column k aff) X
  = map (fun p => (nth k (fst p) 0, snd p)) (combine aff X).
Proof.
  revert X. induction aff as [|a aff IH]; intros [|x X]; simpl; auto.
  now rewrite IH.
Qed.

Lemma nth_map_div (c : R) (v : vec) (j : nat) :
  nth j (map (fun x => x / c) v) 0 = nth j v 0 / c.
Proof.
  revert j. induction v as [|x v IH]; intros [|j]; simpl; auto; lra.
Qed.

(** Entry [(k, j)] of [initc]. *)
Lemma build_initc_nth (K d k j : nat) (aff all_fea : matrix) :
  (k < K)%nat -> (j < d)%nat ->
  Forall (fun x => length x = d) all_fea ->
  nth j (nth k (build_initc K d aff all_fea) []) 0
  = sum (map (fun p => nth k (fst p) 0 * nth j (snd p) 0) (combine aff all_fea))
    / (1e-8 + sum (column k aff)).
Proof.
  intros Hk Hj F. unfold build_initc. rewrite nth_map_seq by assumption.
  cbv zeta. rewrite nth_map_div, weighted_sum_nth by assumption.
  rewrite combine_column, map_map. reflexivity.
Qed.

(** With one-hot weights only the samples labelled [k] count. *)
Lemma hard_weights_sum (K k j : nat) (pl : list nat) :
  (k < K)%nat ->
  forall all_fea : matrix,
    length pl = length all_fea ->
    sum (map (fun p => nth k (fst p) 0 * nth j (snd p) 0)
             (combine (eye_rows K pl) all_fea))
    = sum (map (fun x => nth j x 0) (select (fun l => (l =? k)%nat) pl all_fea))
    /\ sum (column k (eye_rows K pl))
       = INR (length (select (fun l => (l =? k)%nat) pl all_fea)).
Proof.
  intros Hk. induction pl as [|l pl IH]; intros [|x X] Hlen; try discriminate.
  - split; reflexivity.
  - injection Hlen as Hlen. destruct (IH X Hlen) as [IH1 IH2].
    unfold select in *. cbn [eye_rows map combine filter fst snd column].
    fold (eye_rows K pl). fold (column k (eye_rows K pl)).
    rewrite !sum_cons, IH1, IH2, nth_map_seq by assumption.
    destruct (l =? k)%nat; cbn [map snd length]; rewrite ?sum_cons, ?S_INR;
      split; lra.
Qed.

(** C4 (amended).  On the KNOWN subset, coordinate j of the prototype of
    class k is the weighted sum of the feature coordinates divided by
    (1e-8 + total weight): the weights are the softmax rows in the initial
    pass and the one-hot rows of the previous hard labels in the following
    round.  With one-hot weights this is the sum of the members of the class
    over (1e-8 + their number): the mean scaled by n/(n + 1e-8), and zero for
    a class without members. *)
Theorem prototype_formula (K d k j : nat) (all_fea : matrix) :
  (k < K)%nat -> (j < d)%nat ->
  Forall (fun x => length x = d) all_fea ->
  (forall aff,
      nth j (nth k (build_initc K d aff all_fea) []) 0
      = sum (map (fun p => nth k (fst p) 0 * nth j (snd p) 0)
                 (combine aff all_fea))
        / (1e-8 + sum (map (fun p => nth k p 0) aff)))
  /\ (forall pl,
         length pl = length all_fea ->
         nth j (nth k (build_initc K d (eye_rows K pl) all_fea) []) 0
         = sum (map (fun x => nth j x 0) (members k pl all_fea))
           / (1e-8 + INR (length (members k pl all_fea)))
         /\ (forall mu,
                mean (map (fun x => nth j x 0) (members k pl all_fea)) = Some mu ->
                nth j (nth k (build_initc K d (eye_rows K pl) all_fea) []) 0
                = mu * (INR (length (members k pl all_fea))
                        / (1e-8 + INR (length (members k pl all_fea)))))
         /\ (members k pl all_fea = [] ->
             nth j (nth k (build_initc K d (eye_rows K pl) all_fea) []) 0 = 0))
  /\ (forall m thr all_output pred,
         refine m thr K d all_fea all_output pred
         = (pl0 <- assign m all_fea (build_initc K d all_output all_fea)
                          (labelset_of K thr pred) ;;
            assign m all_fea (build_initc K d (eye_rows K pl0) all_fea)
                   (labelset_of K thr pred))).
Proof.
  intros Hk Hj F. split; [|split].
  - intros aff. now apply build_initc_nth.
  - intros pl Hlen.
    assert (E : nth j (nth k (build_initc K d (eye_rows K pl) all_fea) []) 0
                = sum (map (fun x => nth j x 0) (members k pl all_fea))
                  / (1e-8 + INR (length (members k pl all_fea)))).
    { rewrite build_initc_nth by assumption.
      destruct (hard_weights_sum K k j pl Hk all_fea Hlen) as [-> ->].
      reflexivity. }
    split; [exact E|]. split.
    + intros mu Hmu. rewrite E.
      apply mean_Some in Hmu as [Hne ->]. rewrite length_map.
      assert (0 < INR (length (members k pl all_fea))).
      { apply lt_0_INR. destruct (members k pl all_fea); [now elim Hne|].
        simpl; lia. }
      assert (He : 0 < 1e-8) by lra.
      unfold vec, matrix in *.
      set (n := INR (length (members k pl all_fea))) in *.
      set (S := sum _).
      set (e := 1e-8) in *. field. split; lra.
    + intros Hm. rewrite E, Hm. unfold sum. simpl. lra.
  - intros. apply refine_eq.
Qed.

Lemma prototype_formula_witness :
  (forall aff,
      nth 1 (nth 0 (build_initc 2 2 aff fea_toy) []) 0
      = sum (map (fun p => nth 0 (fst p) 0 * nth 1 (snd p) 0)
                 (combine aff fea_toy))
        / (1e-8 + sum (map (fun p => nth 0 p 0) aff)))
  /\ (forall pl,
         length pl = length fea_toy ->
         nth 1 (nth 0 (build_initc 2 2 (eye_rows 2 pl) fea_toy) []) 0
         = sum (map (fun x => nth 1 x 0) (members 0 pl fea_toy))
           / (1e-8 + INR (length (members 0 pl fea_toy)))
         /\ (forall mu,
                mean (map (fun x => nth 1 x 0) (members 0 pl fea_toy)) = Some mu ->
                nth 1 (nth 0 (build_initc 2 2 (eye_rows 2 pl) fea_toy) []) 0
                = mu * (INR (length (members 0 pl fea_toy))
                        / (1e-8 + INR (length (members 0 pl fea_toy)))))
         /\ (members 0 pl fea_toy = [] ->
             nth 1 (nth 0 (build_initc 2 2 (eye_rows 2 pl) fea_toy) []) 0 = 0))
  /\ (forall m thr all_output pred,
         refine m thr 2 2 fea_toy all_output pred
         = (pl0 <- assign m fea_toy (build_initc 2 2 all_output fea_toy)
                          (labelset_of 2 thr pred) ;;
            assign m fea_toy (build_initc 2 2 (eye_rows 2 pl0) fea_toy)
                   (labelset_of 2 thr pred))).
Proof.
  apply (prototype_formula 2 2 0 1 fea_toy).
  - lia.
  - lia.
  - repeat constructor.
Defined.

(** C4 as stated fails: with one-hot weights on the toy data the prototype
    of class 0 is (0, 1/(2 + 1e-8)) and not the mean (0, 1/2) of its two
    members. *)
Lemma prototype_is_not_the_mean :
  members 0 labels_toy fea_toy = [[0; 0]; [0; 1]]
  /\ mean (map (fun x => nth 1 x 0) (members 0 labels_toy fea_toy)) = Some (1 / 2)
  /\ nth 1 (nth 0 (build_initc 2 2 (eye_rows 2 labels_toy) fea_toy) []) 0
     = 1 / (2 + 1e-8)
  /\ nth 1 (nth 0 (build_initc 2 2 (eye_rows 2 labels_toy) fea_toy) []) 0
     <> 1 / 2.
Proof.
  assert (M : members 0 labels_toy fea_toy = [[0; 0]; [0; 1]]) by reflexivity.
  assert (P : nth 1 (nth 0 (build_initc 2 2 (eye_rows 2 labels_toy) fea_toy) []) 0
              = 1 / (2 + 1e-8)).
  { rewrite build_initc_nth; [|lia|lia|repeat constructor].
    destruct (hard_weights_sum 2 0 1 labels_toy ltac:(lia) fea_toy eq_refl)
      as [-> ->].
    fold (members 0 labels_toy fea_toy). rewrite M.
    unfold sum. cbn [map nth fold_right length]. simpl INR.
    assert (He : 0 < 1e-8) by lra. set (e := 1e-8) in *. field. lra. }
  split; [exact M|]. split.
  - rewrite M. cbn [map nth mean length]. f_equal.
    unfold sum. cbn [fold_right]. simpl INR. lra.
  - split; [exact P|]. rewrite P. intros H.
    assert (He : 0 < 1e-8) by lra. set (e := 1e-8) in *.
    assert (H' : 1 = (2 + e) * (1 / 2)).
    { rewrite <- H. field. lra. }
    lra.
Qed.

(** ** LabelSet across the rounds *)


Lemma Rltb_sqrt (a b : R) :
  0 <= a -> 0 <= b -> Rltb (sqrt a) (sqrt b) = Rltb a b.
Proof.
  intros Ha Hb. destruct (Rltb a b) eqn:E.
  - apply Rltb_true in E. apply Rltb_true. now apply sqrt_lt_1.
  - apply Rltb_false in E. apply Rltb_false. now apply sqrt_le_1.
Qed.

Lemma sq_sum_nonneg (x c : R) : 0 <= (x - c) * (x - c) + 0.
Proof. pose proof (Rle_0_sqr (x - c)) as H. unfold Rsqr in H. lra. Qed.

(** Nearest of the prototypes of classes 0 and 1 for samples on a line. *)
Lemma assign_line (xs : list R) (c0 c1 : R) :
  assign euclidean (map (fun x => [x]) xs) [[c0]; [c1]] [0; 1]%nat
  = Ok (map (fun x => if Rltb ((x - c1) * (x - c1) + 0) ((x - c0) * (x - c0) + 0)
                      then 1%nat else 0%nat) xs).
Proof.
  unfold assign, argmin_axis1, cdist, take. cbn [length Nat.eqb bind map nth].
  f_equal. rewrite !map_map. apply map_ext. intros x.
  unfold dist, sum.
  cbn [combine map fold_right fst snd argmin argmin_from float_lt_min].
  rewrite Rltb_sqrt by apply sq_sum_nonneg.
  destruct (Rltb _ _); reflexivity.
Qed.

Lemma labelset_line : labelset_of 2 1 pred_line = [0; 1]%nat.
Proof.
  unfold labelset_of, cls_count, eye_rows, column, np_where, pred_line.
  cbn [map seq nth Nat.eqb where_from]. unfold sum; cbn [fold_right].
  eval_Rcmp. reflexivity.
Qed.

Lemma initc_line_soft :
  build_initc 2 1 probs_line fea_line
  = [[21 / 10 / (1e-8 + 2)]; [109 / 10 / (1e-8 + 2)]].
Proof.
  unfold build_initc, weighted_sum, column, vadd, vscale, probs_line, fea_line.
  cbn [map seq nth combine fold_right repeat fst snd].
  unfold sum; cbn [fold_right].
  f_equal; [|f_equal]; f_equal; lra.
Qed.


Lemma assign_line_soft :
  assign euclidean fea_line (build_initc 2 1 probs_line fea_line)
         (labelset_of 2 1 pred_line) = Ok [0; 0; 0; 1]%nat.
Proof.
  rewrite labelset_line, initc_line_soft.
  change fea_line with (map (fun x => [x]) [0; 1; 2; 10]).
  rewrite assign_line. cbn [map]. eval_Rcmp. reflexivity.
Qed.



(** * The scripts around the engine *)

(** ** [join] and [split] *)

Lemma string_append_nil_r (x : string) : String.append x EmptyString = x.
Proof.
  induction x as [|c x IH]; simpl; [reflexivity|now rewrite IH].
Qed.

Lemma string_append_assoc (x y z : string) :
  String.append (String.append x y) z = String.append x (String.append y z).
Proof.
  induction x as [|c x IH]; simpl; [reflexivity|now rewrite IH].
Qed.

Lemma split_space_from_append (x : string) :
  forall cur rest,
    has_space x = false ->
    split_space_from cur (String.append x rest)
    = split_space_from (String.append cur x) rest.
Proof.
  induction x as [|c x IH]; intros cur rest H.
  - now rewrite string_append_nil_r.
  - simpl in H. apply orb_false_iff in H as [Hc Hx].
    cbn [String.append split_space_from]. rewrite Hc.
    rewrite IH by assumption. now rewrite string_append_assoc.
Qed.

Lemma split_space_from_word (x cur : string) :
  has_space x = false -> split_space_from cur x = [String.append cur x].
Proof.
  intros H. rewrite <- (string_append_nil_r x) at 1.
  now rewrite split_space_from_append.
Qed.

Lemma split_join_from (l : list string) :
  forall x cur,
    Forall (fun w => has_space w = false) (x :: l) ->
    split_space_from cur (join_space (x :: l)) = String.append cur x :: l.
Proof.
  induction l as [|y l IH]; intros x cur F.
  - inversion F; subst. now apply split_space_from_word.
  - inversion F as [|? ? Hx F']; subst.
    change (join_space (x :: y :: l))
      with (String.append x (String " "%char (join_space (y :: l)))).
    rewrite split_space_from_append by assumption.
    cbn [split_space_from Ascii.eqb Bool.eqb]. f_equal.
    now rewrite IH.
Qed.

(** X1.  Splitting on spaces undoes joining with spaces, for a non-empty
    list of names none of which contains a space. *)
Theorem split_join_round_trip (l : list string) :
  l <> [] ->
  Forall (fun w => has_space w = false) l ->
  split_space (join_space l) = l.
Proof.
  intros Hne F. destruct l as [|x l]; [now elim Hne|].
  unfold split_space. now rewrite split_join_from.
Qed.

Lemma split_join_round_trip_witness :
  split_space (join_space ["Clipart"; "Product"; "RealWorld"]%string)
  = ["Clipart"; "Product"; "RealWorld"]%string.
Proof.
  apply (split_join_round_trip ["Clipart"; "Product"; "RealWorld"]%string).
  - discriminate.
  - repeat constructor.
Defined.

(** ** [init_dataset_name] *)

Lemma dict_item_office_home_source (n : string) :
  dict_item n Source.specific_name_dict
  = if String.eqb "office-home" n
    then Return ["Art"; "Clipart"; "Product"; "RealWorld"]%string
    else Throw KeyError.
Proof.
  unfold dict_item, Source.specific_name_dict. cbn [dict_get].
  destruct (String.eqb "office-home" n); reflexivity.
Qed.

Lemma py_index_range {A : Type} (d : A) (l : list A) (i : Z) :
  (- Z.of_nat (List.length l) <= i < Z.of_nat (List.length l))%Z ->
  py_index d l i
  = Return (nth (Z.to_nat (i mod Z.of_nat (List.length l))) l d).
Proof.
  intros H. unfold py_index. cbv zeta.
  destruct (Z.leb_spec 0 i) as [H0|H0]; cbn [andb].
  - destruct (Z.ltb_spec i (Z.of_nat (List.length l))) as [H1|H1]; [|lia].
    now rewrite Z.mod_small by lia.
  - destruct (Z.leb_spec (- Z.of_nat (List.length l)) i) as [H1|H1]; [|lia].
    destruct (Z.ltb_spec i 0) as [H2|H2]; [|lia]. cbn [andb].
    do 3 f_equal.
    rewrite <- (Z_mod_plus_full i 1 (Z.of_nat (List.length l))).
    rewrite Z.mod_small by lia. lia.
Qed.

Lemma py_index_out {A : Type} (d : A) (l : list A) (i : Z) :
  ~ (- Z.of_nat (List.length l) <= i < Z.of_nat (List.length l))%Z ->
  py_index d l i = Throw IndexError.
Proof.
  intros H. unfold py_index. cbv zeta.
  destruct (Z.leb_spec 0 i); destruct (Z.ltb_spec i (Z.of_nat (List.length l)));
    destruct (Z.leb_spec (- Z.of_nat (List.length l)) i);
    destruct (Z.ltb_spec i 0); cbn [andb]; try reflexivity; lia.
Qed.

Lemma source_init_dataset_name_returns (cfg : Dataset.cfg) :
  Dataset.name cfg = "office-home"%string ->
  (-4 <= Dataset.s cfg < 4)%Z ->
  exists cfg', Source.init_dataset_name cfg = Return cfg'.
Proof.
  intros Hn Hs. unfold Source.init_dataset_name.
  rewrite dict_item_office_home_source, Hn.
  cbn [String.eqb Ascii.eqb Bool.eqb py_bind].
  rewrite py_index_range by (simpl; lia).
  change (Z.of_nat (List.length ["Art"; "Clipart"; "Product"; "RealWorld"]%string))
    with 4%Z.
  assert (Hk : (Z.to_nat (Dataset.s cfg mod 4) < 4)%nat).
  { pose proof (Z.mod_pos_bound (Dataset.s cfg) 4 ltac:(lia)). lia. }
  destruct (Z.to_nat (Dataset.s cfg mod 4)) as [|[|[|[|k]]]]; [| | | |lia];
    eexists; reflexivity.
Qed.

(** X2.  [train_source.py]: for the dataset "office-home" and a source index
    in [-4, 4) (a negative index counts from the end), [init_dataset_name]
    makes [name_src] the indexed domain and [name_tar] the three other
    domains; splitting [name_tar] on spaces, as [main] does, gives these
    three names back, in order and without the source domain. *)
Theorem source_init_dataset_name_office_home (cfg : Dataset.cfg) :
  Dataset.name cfg = "office-home"%string ->
  (-4 <= Dataset.s cfg < 4)%Z ->
  exists cfg',
    Source.init_dataset_name cfg = Return cfg'
    /\ Dataset.name_src cfg'
       = nth (Z.to_nat (Dataset.s cfg mod 4))
             ["Art"; "Clipart"; "Product"; "RealWorld"]%string EmptyString
    /\ List.length (Source.target_names cfg') = 3%nat
    /\ ~ In (Dataset.name_src cfg') (Source.target_names cfg')
    /\ (forall n, In n ["Art"; "Clipart"; "Product"; "RealWorld"]%string
                  <-> n = Dataset.name_src cfg'
                      \/ In n (Source.target_names cfg'))
    /\ Source.target_names cfg'
       = filter (fun n => negb (String.eqb n (Dataset.name_src cfg')))
                ["Art"; "Clipart"; "Product"; "RealWorld"]%string.
Proof.
  intros Hn Hs. unfold Source.init_dataset_name.
  rewrite dict_item_office_home_source, Hn. cbn [String.eqb Ascii.eqb Bool.eqb py_bind].
  rewrite py_index_range by (simpl; lia).
  change (Z.of_nat (List.length ["Art"; "Clipart"; "Product"; "RealWorld"]%string))
    with 4%Z.
  assert (Hk : (Z.to_nat (Dataset.s cfg mod 4) < 4)%nat).
  { pose proof (Z.mod_pos_bound (Dataset.s cfg) 4 ltac:(lia)). lia. }
  destruct (Z.to_nat (Dataset.s cfg mod 4)) as [|[|[|[|k]]]]; [| | | |lia];
    (eexists; split; [reflexivity|]);
    (split; [reflexivity|]); (split; [reflexivity|]);
    (split; [cbn; intuition discriminate|]);
    (split; [|reflexivity]);
    intros n; cbn; intuition congruence.
Qed.

Lemma source_init_dataset_name_office_home_witness :
  exists cfg',
    Source.init_dataset_name
      {| Dataset.name := "office-home"; Dataset.s := 1; Dataset.t := 0;
         Dataset.name_src := ""; Dataset.name_tar := "" |} = Return cfg'
    /\ Dataset.name_src cfg' = "Clipart"%string
    /\ Source.target_names cfg' = ["Art"; "Product"; "RealWorld"]%string.
Proof.
  destruct (source_init_dataset_name_office_home
              {| Dataset.name := "office-home"; Dataset.s := 1; Dataset.t := 0;
                 Dataset.name_src := ""; Dataset.name_tar := "" |}
              eq_refl ltac:(simpl; lia))
    as (cfg' & E & Hsrc & _ & _ & _ & Htar).
  exists cfg'. split; [exact E|]. split; [exact Hsrc|].
  rewrite Htar, Hsrc. reflexivity.
Defined.

(** X3.  [train_source.py]: [init_dataset_name] knows no dataset but
    "office-home": any other name (among them the "VISDA-C" that [validate]
    tests for) raises KeyError, and a source index outside [-4, 4) raises
    IndexError; the removal of the source domain never fails. *)
Theorem source_init_dataset_name_errors (cfg : Dataset.cfg) :
  (Dataset.name cfg <> "office-home"%string ->
   Source.init_dataset_name cfg = Throw KeyError)
  /\ (Dataset.name cfg = "office-home"%string ->
      ~ (-4 <= Dataset.s cfg < 4)%Z ->
      Source.init_dataset_name cfg = Throw IndexError)
  /\ (forall e, Source.init_dataset_name cfg = Throw e ->
                e = KeyError \/ e = IndexError)
  /\ (Dataset.name cfg = "VISDA-C"%string ->
      Source.init_dataset_name cfg = Throw KeyError).
Proof.
  assert (HK : Dataset.name cfg <> "office-home"%string ->
               Source.init_dataset_name cfg = Throw KeyError).
  { intros Hn. unfold Source.init_dataset_name.
    rewrite dict_item_office_home_source.
    destruct (String.eqb_spec "office-home" (Dataset.name cfg)) as [E|E];
      [now elim Hn|reflexivity]. }
  assert (HI : Dataset.name cfg = "office-home"%string ->
               ~ (-4 <= Dataset.s cfg < 4)%Z ->
               Source.init_dataset_name cfg = Throw IndexError).
  { intros Hn Hs. unfold Source.init_dataset_name.
    rewrite dict_item_office_home_source, Hn.
    cbn [String.eqb Ascii.eqb Bool.eqb py_bind].
    now rewrite py_index_out by (simpl; lia). }
  split; [exact HK|]. split; [exact HI|]. split.
  - intros e E.
    destruct (String.eqb_spec (Dataset.name cfg) "office-home") as [Hn|Hn].
    + destruct (Z_le_dec (-4) (Dataset.s cfg)) as [H1|H1];
        [destruct (Z_lt_dec (Dataset.s cfg) 4) as [H2|H2]|].
      * destruct (source_init_dataset_name_returns cfg Hn (conj H1 H2))
          as (cfg' & E'). rewrite E' in E. discriminate.
      * rewrite HI in E by (auto; lia). injection E as <-. now right.
      * rewrite HI in E by (auto; lia). injection E as <-. now right.
    + rewrite HK in E by assumption. injection E as <-. now left.
  - intros Hn. apply HK. rewrite Hn. discriminate.
Qed.

Lemma nth_lt_In (l : list string) (k n : nat) :
  n = List.length l -> (k < n)%nat -> In (nth k l EmptyString) l.
Proof. intros -> H. now apply nth_In. Qed.

Lemma dict_item_target (n : string) :
  dict_item n Target.specific_name_dict
  = if String.eqb "office-home" n
    then Return ["Art"; "Clipart"; "Product"; "RealWorld"]%string
    else if String.eqb "RMFD" n
         then Return ["AFDB_face_dataset"; "AFDB_masked_face_dataest"]%string
         else Throw KeyError.
Proof.
  unfold dict_item, Target.specific_name_dict. cbn [dict_get].
  destruct (String.eqb "office-home" n); [reflexivity|].
  destruct (String.eqb "RMFD" n); reflexivity.
Qed.

Lemma in_range_dec (n i : Z) : {in_range n i} + {~ in_range n i}.
Proof.
  unfold in_range. destruct (Z_le_dec (- n) i); destruct (Z_lt_dec i n);
    (left; lia) || (right; lia).
Qed.

(** The outcome of the target [init_dataset_name] on a known dataset whose
    list of domains is [names]. *)
Lemma target_init_known (cfg : Dataset.cfg) (names : list string) :
  dict_item (Dataset.name cfg) Target.specific_name_dict = Return names ->
  Target.init_dataset_name cfg
  = if in_range_dec (Z.of_nat (List.length names)) (Dataset.s cfg)
    then if in_range_dec (Z.of_nat (List.length names)) (Dataset.t cfg)
         then Return
                {| Dataset.name := Dataset.name cfg;
                   Dataset.s := Dataset.s cfg; Dataset.t := Dataset.t cfg;
                   Dataset.name_src :=
                     nth (Z.to_nat (Dataset.s cfg mod Z.of_nat (List.length names)))
                         names EmptyString;
                   Dataset.name_tar :=
                     nth (Z.to_nat (Dataset.t cfg mod Z.of_nat (List.length names)))
                         names EmptyString |}
         else Throw IndexError
    else Throw IndexError.
Proof.
  intros E. unfold Target.init_dataset_name. rewrite E. cbn [py_bind].
  destruct (in_range_dec _ (Dataset.s cfg)) as [Hs|Hs].
  - rewrite py_index_range by exact Hs. cbn [py_bind].
    destruct (in_range_dec _ (Dataset.t cfg)) as [Ht|Ht].
    + now rewrite py_index_range by exact Ht.
    + now rewrite py_index_out by exact Ht.
  - now rewrite py_index_out by exact Hs.
Qed.

(** X4.  [train_target_oda.py]: [init_dataset_name] returns exactly for
    "office-home" with both indices in [-4, 4) and for "RMFD" with both
    indices in [-2, 2); any other dataset name raises KeyError.  The two
    names it sets are domains of the dataset, and nothing keeps the target
    domain apart from the source domain: equal indices give equal names. *)
Theorem target_init_dataset_name_spec (cfg : Dataset.cfg) :
  ((exists cfg', Target.init_dataset_name cfg = Return cfg')
   <-> (Dataset.name cfg = "office-home"%string
        /\ (-4 <= Dataset.s cfg < 4)%Z /\ (-4 <= Dataset.t cfg < 4)%Z)
       \/ (Dataset.name cfg = "RMFD"%string
           /\ (-2 <= Dataset.s cfg < 2)%Z /\ (-2 <= Dataset.t cfg < 2)%Z))
  /\ (Target.init_dataset_name cfg = Throw KeyError
      <-> Dataset.name cfg <> "office-home"%string
          /\ Dataset.name cfg <> "RMFD"%string)
  /\ (forall cfg',
         Target.init_dataset_name cfg = Return cfg' ->
         exists names,
           dict_get (Dataset.name cfg) Target.specific_name_dict = Some names
           /\ In (Dataset.name_src cfg') names
           /\ In (Dataset.name_tar cfg') names
           /\ (Dataset.s cfg = Dataset.t cfg ->
               Dataset.name_src cfg' = Dataset.name_tar cfg')).
Proof.
  pose proof (dict_item_target (Dataset.name cfg)) as Hd.
  destruct (String.eqb_spec "office-home" (Dataset.name cfg)) as [E1|E1];
    [|destruct (String.eqb_spec "RMFD" (Dataset.name cfg)) as [E2|E2]].
  - pose proof (target_init_known cfg _ Hd) as Hi.
    change (Z.of_nat (List.length ["Art"; "Clipart"; "Product"; "RealWorld"]%string))
      with 4%Z in Hi.
    split; [|split].
    + split.
      * intros [cfg' E]. left. rewrite Hi in E.
        destruct (in_range_dec 4 (Dataset.s cfg)) as [Hs|Hs]; [|discriminate].
        destruct (in_range_dec 4 (Dataset.t cfg)) as [Ht|Ht]; [|discriminate].
        unfold in_range in *. auto.
      * intros [(_ & Hs & Ht)|(En & _)];
          [|rewrite <- E1 in En; discriminate].
        rewrite Hi.
        destruct (in_range_dec 4 (Dataset.s cfg)) as [Hs'|Hs'];
          [|unfold in_range in Hs'; lia].
        destruct (in_range_dec 4 (Dataset.t cfg)) as [Ht'|Ht'];
          [|unfold in_range in Ht'; lia].
        eexists; reflexivity.
    + split.
      * intros E. rewrite Hi in E.
        destruct (in_range_dec 4 (Dataset.s cfg)); [|discriminate].
        destruct (in_range_dec 4 (Dataset.t cfg)); discriminate.
      * intros [H _]. now elim H.
    + intros cfg' E. rewrite Hi in E.
      destruct (in_range_dec 4 (Dataset.s cfg)) as [Hs|Hs]; [|discriminate].
      destruct (in_range_dec 4 (Dataset.t cfg)) as [Ht|Ht]; [|discriminate].
      injection E as <-. cbn [Dataset.name_src Dataset.name_tar].
      exists ["Art"; "Clipart"; "Product"; "RealWorld"]%string.
      split; [rewrite <- E1; reflexivity|].
      pose proof (Z.mod_pos_bound (Dataset.s cfg) 4 ltac:(lia)).
      pose proof (Z.mod_pos_bound (Dataset.t cfg) 4 ltac:(lia)).
      split;
        [exact (nth_lt_In ["Art"; "Clipart"; "Product"; "RealWorld"]%string
                  (Z.to_nat (Dataset.s cfg mod 4)) 4 eq_refl ltac:(lia))|].
      split;
        [exact (nth_lt_In ["Art"; "Clipart"; "Product"; "RealWorld"]%string
                  (Z.to_nat (Dataset.t cfg mod 4)) 4 eq_refl ltac:(lia))|].
      now intros ->.
  - pose proof (target_init_known cfg _ Hd) as Hi.
    change (Z.of_nat (List.length ["AFDB_face_dataset"; "AFDB_masked_face_dataest"]%string))
      with 2%Z in Hi.
    split; [|split].
    + split.
      * intros [cfg' E]. right. rewrite Hi in E.
        destruct (in_range_dec 2 (Dataset.s cfg)) as [Hs|Hs]; [|discriminate].
        destruct (in_range_dec 2 (Dataset.t cfg)) as [Ht|Ht]; [|discriminate].
        unfold in_range in *. auto.
      * intros [(En & _)|(_ & Hs & Ht)];
          [now elim E1|].
        rewrite Hi.
        destruct (in_range_dec 2 (Dataset.s cfg)) as [Hs'|Hs'];
          [|unfold in_range in Hs'; lia].
        destruct (in_range_dec 2 (Dataset.t cfg)) as [Ht'|Ht'];
          [|unfold in_range in Ht'; lia].
        eexists; reflexivity.
    + split.
      * intros E. rewrite Hi in E.
        destruct (in_range_dec 2 (Dataset.s cfg)); [|discriminate].
        destruct (in_range_dec 2 (Dataset.t cfg)); discriminate.
      * intros [_ H]. now elim H.
    + intros cfg' E. rewrite Hi in E.
      destruct (in_range_dec 2 (Dataset.s cfg)) as [Hs|Hs]; [|discriminate].
      destruct (in_range_dec 2 (Dataset.t cfg)) as [Ht|Ht]; [|discriminate].
      injection E as <-. cbn [Dataset.name_src Dataset.name_tar].
      exists ["AFDB_face_dataset"; "AFDB_masked_face_dataest"]%string.
      split; [rewrite <- E2; reflexivity|].
      pose proof (Z.mod_pos_bound (Dataset.s cfg) 2 ltac:(lia)).
      pose proof (Z.mod_pos_bound (Dataset.t cfg) 2 ltac:(lia)).
      split;
        [exact (nth_lt_In ["AFDB_face_dataset"; "AFDB_masked_face_dataest"]%string
                  (Z.to_nat (Dataset.s cfg mod 2)) 2 eq_refl ltac:(lia))|].
      split;
        [exact (nth_lt_In ["AFDB_face_dataset"; "AFDB_masked_face_dataest"]%string
                  (Z.to_nat (Dataset.t cfg mod 2)) 2 eq_refl ltac:(lia))|].
      now intros ->.
  - assert (Hi : Target.init_dataset_name cfg = Throw KeyError).
    { unfold Target.init_dataset_name. now rewrite Hd. }
    split; [|split].
    + split.
      * intros [cfg' E]. rewrite Hi in E. discriminate.
      * intros [(En & _)|(En & _)]; [now elim E1|now elim E2].
    + split; [intros _; split; congruence | intros _; exact Hi].
    + intros cfg' E. rewrite Hi in E. discriminate.
Qed.

(** ** Dicts and [op_copy] *)

Lemma dict_get_set_same {V : Type} (k : string) (v : V) (d : dict V) :
  dict_get k (dict_set k v d) = Some v.
Proof.
  induction d as [|[k' v'] d IH]; cbn [dict_set dict_get].
  - now rewrite String.eqb_refl.
  - destruct (String.eqb k' k) eqn:E; cbn [dict_get]; rewrite E; auto.
Qed.

Lemma dict_get_set_other {V : Type} (k k0 : string) (v : V) (d : dict V) :
  k0 <> k -> dict_get k0 (dict_set k v d) = dict_get k0 d.
Proof.
  intros Hne. induction d as [|[k' v'] d IH]; cbn [dict_set dict_get].
  - destruct (String.eqb_spec k k0) as [->|]; [now elim Hne|reflexivity].
  - destruct (String.eqb_spec k' k) as [->|Hk]; cbn [dict_get].
    + destruct (String.eqb_spec k k0) as [->|]; [now elim Hne|reflexivity].
    + now rewrite IH.
Qed.

Lemma dict_set_same_value {V : Type} (k : string) (v : V) (d : dict V) :
  dict_get k d = Some v -> dict_set k v d = d.
Proof.
  induction d as [|[k' v'] d IH]; cbn [dict_set dict_get]; [discriminate|].
  destruct (String.eqb_spec k' k) as [->|Hk].
  - intros E. now injection E as ->.
  - intros E. now rewrite IH.
Qed.

Lemma op_copy_cons {V : Type} (g : dict V) (rest : list (dict V)) :
  op_copy (g :: rest)
  = (lr <~ dict_item "lr" g ;;
     rest' <~ op_copy rest ;;
     Return (dict_set "lr0" lr g :: rest')).
Proof. reflexivity. Qed.

Lemma op_copy_returns {V : Type} (groups : list (dict V)) :
  Forall (fun g => dict_get "lr" g <> None) groups ->
  exists groups', op_copy groups = Return groups'.
Proof.
  induction 1 as [|g rest Hg _ [rest' IH]]; [now exists []|].
  rewrite op_copy_cons. unfold dict_item.
  destruct (dict_get "lr" g) as [lr|]; [|now elim Hg].
  cbn [py_bind]. rewrite IH. cbn [py_bind]. eexists; reflexivity.
Qed.

Lemma op_copy_inv {V : Type} (groups : list (dict V)) :
  forall groups',
    op_copy groups = Return groups' ->
    Forall2 (fun g g' => exists lr, dict_get "lr" g = Some lr
                                    /\ g' = dict_set "lr0" lr g)
            groups groups'.
Proof.
  induction groups as [|g rest IH]; intros groups' E.
  - injection E as <-. constructor.
  - rewrite op_copy_cons in E. unfold dict_item in E.
    destruct (dict_get "lr" g) as [lr|] eqn:Hg; [|discriminate].
    cbn [py_bind] in E.
    destruct (op_copy rest) as [rest'|e]; [|discriminate].
    cbn [py_bind] in E. injection E as <-.
    constructor; [now exists lr|now apply IH].
Qed.

(** X5.  [op_copy] succeeds exactly when every parameter group has a learning
    rate, and raises KeyError otherwise.  It then keeps the number and order
    of the groups, sets ['lr0'] of every group to that group's ['lr'], leaves
    every other entry as it was, and copying again changes nothing. *)
Theorem op_copy_spec {V : Type} (groups : list (dict V)) :
  ((exists groups', op_copy groups = Return groups')
   <-> Forall (fun g => dict_get "lr" g <> None) groups)
  /\ (forall e, op_copy groups = Throw e -> e = KeyError)
  /\ (forall groups',
         op_copy groups = Return groups' ->
         Forall2 (fun g g' =>
                    dict_get "lr0" g' = dict_get "lr" g
                    /\ dict_get "lr" g' = dict_get "lr" g
                    /\ (forall k, k <> "lr0"%string ->
                                  dict_get k g' = dict_get k g))
                 groups groups'
         /\ op_copy groups' = Return groups').
Proof.
  split; [|split].
  - split; [|apply op_copy_returns].
    intros [groups' E]. apply op_copy_inv in E.
    induction E as [|g g' rest rest' (lr & Hlr & _) _ IH]; constructor; auto.
    rewrite Hlr. discriminate.
  - induction groups as [|g rest IH]; intros e E; [discriminate|].
    rewrite op_copy_cons in E. unfold dict_item in E.
    destruct (dict_get "lr" g) as [lr|]; cbn [py_bind] in E.
    + destruct (op_copy rest) as [rest'|e']; cbn [py_bind] in E;
        [discriminate|].
      injection E as <-. now apply IH.
    + now injection E as <-.
  - intros groups' E. apply op_copy_inv in E.
    induction E as [|g g' rest rest' (lr & Hlr & ->) _ [IH1 IH2]].
    + split; [constructor|reflexivity].
    + assert (Hlr' : dict_get "lr" (dict_set "lr0" lr g) = Some lr).
      { rewrite dict_get_set_other by discriminate. exact Hlr. }
      split.
      * constructor; [|exact IH1].
        split; [now rewrite dict_get_set_same|].
        split; [now rewrite Hlr'|].
        intros k Hk. now apply dict_get_set_other.
      * rewrite op_copy_cons. unfold dict_item. rewrite Hlr'.
        cbn [py_bind]. rewrite IH2. cbn [py_bind].
        rewrite (dict_set_same_value "lr0" lr) by apply dict_get_set_same.
        reflexivity.
Qed.

(** * More on the engine *)

(** ** Cosine preprocessing *)

Lemma sum_squares_nonneg (v : vec) : 0 <= sum (map (fun x => x * x) v).
Proof.
  apply sum_nonneg. apply Forall_forall. intros y Hy.
  apply in_map_iff in Hy as (x & <- & _). apply Rle_0_sqr.
Qed.

Lemma norm_append_one_pos (v : vec) : 1 <= norm (v ++ [1]).
Proof.
  unfold norm. rewrite map_app, sum_app. cbn [map]. rewrite sum_cons.
  change (sum []) with 0.
  pose proof (sum_squares_nonneg v) as H.
  rewrite <- sqrt_1 at 1. apply sqrt_le_1; lra.
Qed.

Lemma norm_scaled (v : vec) (c : R) :
  0 < c -> norm (map (fun x => x / c) v) = norm v / c.
Proof.
  intros Hc. unfold norm. rewrite map_map.
  rewrite (sum_map_ext _ (fun x => (x * x) / (c * c)))
    by (intros x _; field; lra).
  rewrite <- (map_map (fun x => x * x) (fun y => y / (c * c))).
  rewrite (sum_map_div (fun y => y)), map_id.
  rewrite sqrt_div; [|apply sum_squares_nonneg|nra].
  rewrite sqrt_square by lra. reflexivity.
Qed.

(** X6.  In cosine mode every feature vector gets one more coordinate and
    leaves the preparation with Euclidean norm 1; the added coordinate is
    positive, so no prepared vector is zero. *)
Theorem cosine_prepare_unit_norm (v : vec) :
  norm (cosine_prepare v) = 1
  /\ List.length (cosine_prepare v) = S (List.length v)
  /\ 0 < nth (List.length v) (cosine_prepare v) 0 <= 1.
Proof.
  pose proof (norm_append_one_pos v) as Hn.
  unfold cosine_prepare. cbv zeta. split; [|split].
  - rewrite norm_scaled by lra. field. lra.
  - rewrite length_map, length_app. simpl. lia.
  - rewrite nth_map_div, app_nth2, Nat.sub_diag by lia. cbn [nth].
    split.
    + apply Rdiv_lt_0_compat; lra.
    + apply (Rmult_le_reg_r (norm (v ++ [1]))); [lra|].
      unfold Rdiv. rewrite Rmult_assoc, Rinv_l; lra.
Qed.

(** ** The prediction of the classifier *)



(** ** Nearest prototype *)

Lemma argmin_from_Some (xs : vec) :
  forall best besti i,
    (besti < i)%nat ->
    (argmin_from (Some best) besti i (map Some xs) = besti
     /\ forall j, (j < List.length xs)%nat -> best <= nth j xs 0)
    \/ ((i <= argmin_from (Some best) besti i (map Some xs)
         < i + List.length xs)%nat
        /\ nth (argmin_from (Some best) besti i (map Some xs) - i) xs 0 < best
        /\ (forall j, (j < List.length xs)%nat ->
                      nth (argmin_from (Some best) besti i (map Some xs) - i) xs 0
                      <= nth j xs 0)
        /\ (forall j, (j < argmin_from (Some best) besti i (map Some xs) - i)%nat ->
                      nth (argmin_from (Some best) besti i (map Some xs) - i) xs 0
                      < nth j xs 0)).
Proof.
  induction xs as [|x xs IH]; intros best besti i Hb.
  - left. split; [reflexivity|]. intros j Hj. simpl in Hj. lia.
  - cbn [map argmin_from float_lt_min].
    destruct (Rltb x best) eqn:G.
    + apply Rltb_true in G. right.
      destruct (IH x i (S i) ltac:(lia)) as [[E Hall]|(Hr & Hlt & Hmin & Hfirst)].
      * rewrite E, Nat.sub_diag. cbn [nth List.length].
        split; [lia|]. split; [exact G|]. split.
        -- intros [|j] Hj; [lra|]. apply Hall. simpl in Hj. lia.
        -- intros j Hj. lia.
      * set (r := argmin_from (Some x) i (S i) (map Some xs)) in *.
        replace (r - i)%nat with (S (r - S i)) by lia.
        cbn [nth List.length]. split; [lia|]. split; [lra|]. split.
        -- intros [|j] Hj; [lra|]. apply Hmin. simpl in Hj. lia.
        -- intros [|j] Hj; [lra|]. apply Hfirst. lia.
    + apply Rltb_false in G.
      destruct (IH best besti (S i) ltac:(lia))
        as [[E Hall]|(Hr & Hlt & Hmin & Hfirst)].
      * left. split; [exact E|].
        intros [|j] Hj; [exact G|]. apply Hall. simpl in Hj. lia.
      * right.
        set (r := argmin_from (Some best) besti (S i) (map Some xs)) in *.
        replace (r - i)%nat with (S (r - S i)) by lia.
        cbn [nth List.length]. split; [lia|]. split; [exact Hlt|]. split.
        -- intros [|j] Hj; [lra|]. apply Hmin. simpl in Hj. lia.
        -- intros [|j] Hj; [lra|]. apply Hfirst. lia.
Qed.

(** [argmin] on numbers: the position of the first minimum. *)
Lemma argmin_Some (xs : vec) :
  xs <> [] ->
  (argmin (map Some xs) < List.length xs)%nat
  /\ (forall j, (j < List.length xs)%nat ->
                nth (argmin (map Some xs)) xs 0 <= nth j xs 0)
  /\ (forall j, (j < argmin (map Some xs))%nat ->
                nth (argmin (map Some xs)) xs 0 < nth j xs 0).
Proof.
  destruct xs as [|x xs]; [intros H; now elim H|intros _].
  cbn [map argmin].
  destruct (argmin_from_Some xs x 0%nat 1%nat ltac:(lia))
    as [[E Hall]|(Hr & Hlt & Hmin & Hfirst)].
  - rewrite E. cbn [nth List.length]. split; [lia|]. split.
    + intros [|j] Hj; [lra|]. apply Hall. simpl in Hj. lia.
    + intros j Hj. lia.
  - set (r := argmin_from (Some x) 0 1 (map Some xs)) in *.
    assert (Er : r = S (r - 1)) by lia. rewrite Er.
    cbn [nth List.length]. split; [lia|]. split.
    + intros [|j] Hj; [lra|]. apply Hmin. simpl in Hj. lia.
    + intros [|j] Hj; [lra|]. apply Hfirst. lia.
Qed.

Lemma where_from_sorted {A : Type} (f : A -> bool) (l : list A) :
  forall i, StronglySorted lt (where_from f i l).
Proof.
  induction l as [|x l IH]; intros i; cbn [where_from]; [constructor|].
  destruct (f x); [|apply IH].
  constructor; [apply IH|].
  apply Forall_forall. intros k Hk. apply where_from_ge in Hk. lia.
Qed.

Lemma strongly_sorted_nth (l : list nat) :
  StronglySorted lt l ->
  forall j1 j2, (j1 < j2 < List.length l)%nat ->
                (nth j1 l 0 < nth j2 l 0)%nat.
Proof.
  induction 1 as [|x l Hs IH Hall]; intros j1 j2 Hj; [simpl in Hj; lia|].
  destruct j2 as [|j2]; [lia|]. cbn [nth].
  destruct j1 as [|j1].
  - rewrite Forall_forall in Hall. apply Hall. apply nth_In.
    simpl in Hj. lia.
  - apply IH. simpl in Hj. lia.
Qed.

Lemma dist_euclidean (u v : vec) : dist euclidean u v = Some (euclid u v).
Proof. reflexivity. Qed.

(** X8.  With the Euclidean distance, the class the assigner gives a sample
    is a class of LabelSet whose prototype is nearest to the sample: no
    prototype of LabelSet is strictly nearer, and among equally near ones the
    smallest class index is taken. *)
Theorem assign_euclidean_nearest (K : nat) (thr : R) (pred : list nat)
  (all_fea initc : matrix) (pl : list nat) :
  assign euclidean all_fea initc (labelset_of K thr pred) = Ok pl ->
  forall i c',
    (i < List.length all_fea)%nat ->
    In c' (labelset_of K thr pred) ->
    In (nth i pl 0%nat) (labelset_of K thr pred)
    /\ euclid (nth i all_fea []) (nth (nth i pl 0%nat) initc [])
       <= euclid (nth i all_fea []) (nth c' initc [])
    /\ (euclid (nth i all_fea []) (nth (nth i pl 0%nat) initc [])
        = euclid (nth i all_fea []) (nth c' initc []) ->
        (nth i pl 0%nat <= c')%nat).
Proof.
  intros E i c' Hi Hc'.
  set (ls := labelset_of K thr pred) in *.
  destruct (assign_inv _ _ _ _ _ E) as (Hne & Hlen & Hin).
  unfold assign, argmin_axis1 in E.
  destruct (Nat.eqb_spec (List.length ls) 0) as [E0|E0];
    [destruct ls; [now elim Hne|discriminate]|].
  cbn [bind] in E. injection E as <-.
  set (x := nth i all_fea []).
  set (xs := map (fun k => euclid x (nth k initc [])) ls).
  assert (Hrow : nth i (cdist euclidean all_fea (take [] ls initc)) []
                 = map Some xs).
  { unfold cdist.
    rewrite (nth_indep _ [] ((fun a => map (fun b => dist euclidean a b)
                                          (take [] ls initc)) []))
      by (rewrite length_map; exact Hi).
    rewrite (map_nth (fun a => map (fun b => dist euclidean a b)
                                   (take [] ls initc))).
    fold x. unfold take, xs. rewrite !map_map. reflexivity. }
  assert (Hpl : nth i (take 0%nat (map argmin (cdist euclidean all_fea
                                                     (take [] ls initc))) ls) 0%nat
                = nth (argmin (map Some xs)) ls 0%nat).
  { unfold take at 1.
    rewrite (nth_indep _ 0%nat ((fun r => nth r ls 0%nat) 0%nat))
      by (rewrite !length_map; unfold cdist; rewrite length_map; exact Hi).
    rewrite (map_nth (fun r => nth r ls 0%nat)).
    rewrite (nth_indep (map argmin (cdist euclidean all_fea (take [] ls initc)))
                       0%nat (argmin []))
      by (rewrite length_map; unfold cdist; rewrite length_map; exact Hi).
    rewrite (map_nth argmin). now rewrite Hrow. }
  rewrite Hpl.
  assert (Hxs : xs <> []).
  { unfold xs. destruct ls; [now elim Hne|discriminate]. }
  assert (Hlxs : List.length xs = List.length ls)
    by (unfold xs; apply length_map).
  destruct (argmin_Some xs Hxs) as (Hr & Hmin & Hfirst).
  set (r := argmin (map Some xs)) in *.
  assert (Hnth : forall j, (j < List.length ls)%nat ->
                           nth j xs 0 = euclid x (nth (nth j ls 0%nat) initc [])).
  { intros j Hj. unfold xs.
    rewrite (nth_indep _ 0 ((fun k => euclid x (nth k initc [])) 0%nat))
      by (rewrite length_map; exact Hj).
    now rewrite (map_nth (fun k => euclid x (nth k initc []))). }
  destruct (In_nth _ _ 0%nat Hc') as (j & Hj & <-).
  rewrite <- !Hnth by lia.
  split; [apply nth_In; lia|]. split; [apply Hmin; lia|].
  intros Heq.
  destruct (Nat.lt_ge_cases j r) as [Hjr|Hjr].
  - specialize (Hfirst j Hjr). lra.
  - destruct (Nat.eq_dec j r) as [->|Hne']; [lia|].
    pose proof (strongly_sorted_nth ls (where_from_sorted _ _ 0%nat) r j
                  ltac:(lia)). lia.
Qed.

Lemma assign_euclidean_nearest_witness :
  In (nth 3 [0; 0; 0; 1]%nat 0%nat) (labelset_of 2 1 pred_line)
  /\ euclid (nth 3 fea_line [])
            (nth (nth 3 [0; 0; 0; 1]%nat 0%nat)
                 (build_initc 2 1 probs_line fea_line) [])
     <= euclid (nth 3 fea_line [])
               (nth 0 (build_initc 2 1 probs_line fea_line) [])
  /\ (euclid (nth 3 fea_line [])
             (nth (nth 3 [0; 0; 0; 1]%nat 0%nat)
                  (build_initc 2 1 probs_line fea_line) [])
      = euclid (nth 3 fea_line [])
               (nth 0 (build_initc 2 1 probs_line fea_line) []) ->
      (nth 3 [0; 0; 0; 1]%nat 0%nat <= 0)%nat).
Proof.
  apply (assign_euclidean_nearest 2 1 pred_line fea_line
           (build_initc 2 1 probs_line fea_line) [0; 0; 0; 1]%nat
           assign_line_soft 3%nat 0%nat).
  - simpl. lia.
  - rewrite labelset_line. simpl. auto.
Defined.

(** * The training scripts *)

(** ** Ranges and loops *)

Lemma In_range (a b e : Z) : In e (range a b) <-> (a <= e < b)%Z.
Proof.
  unfold range. rewrite in_map_iff. split.
  - intros [k [<- Hk]]. apply in_seq in Hk. lia.
  - intros H. exists (Z.to_nat (e - a)). split; [lia|]. apply in_seq. lia.
Qed.

Lemma range_nil (a b : Z) : (b <= a)%Z -> range a b = [].
Proof. intros H. unfold range. replace (Z.to_nat (b - a)) with 0%nat by lia. reflexivity. Qed.

Lemma range_cons (a b : Z) : (a < b)%Z -> range a b = a :: range (a + 1) b.
Proof.
  intros H. unfold range.
  replace (Z.to_nat (b - a)) with (S (Z.to_nat (b - (a + 1)))) by lia.
  cbn [seq map]. f_equal; [lia|].
  rewrite <- seq_shift, map_map. apply map_ext. intros k. lia.
Qed.

Lemma range_snoc (a b : Z) : (a <= b)%Z -> range a (b + 1) = range a b ++ [b].
Proof.
  intros H. unfold range.
  replace (Z.to_nat (b + 1 - a)) with (Z.to_nat (b - a) + 1)%nat by lia.
  rewrite seq_app, map_app. cbn [seq map]. do 2 f_equal. lia.
Qed.

Lemma seq_offset (n s len : nat) :
  seq (n + s) len = map (fun k => (n + k)%nat) (seq s len).
Proof.
  revert s. induction len as [|len IH]; intros s; simpl; auto.
  f_equal. rewrite <- IH. f_equal. lia.
Qed.

Lemma range_app (a b c : Z) : (a <= b <= c)%Z -> range a c = range a b ++ range b c.
Proof.
  intros H. unfold range.
  replace (Z.to_nat (c - a)) with (Z.to_nat (b - a) + Z.to_nat (c - b))%nat by lia.
  rewrite seq_app, map_app. f_equal.
  rewrite <- (Nat.add_0_r (0 + Z.to_nat (b - a))), seq_offset, map_map.
  apply map_ext. intros k. lia.
Qed.

Lemma length_range (a b : Z) : List.length (range a b) = Z.to_nat (b - a).
Proof. unfold range. now rewrite length_map, length_seq. Qed.

Lemma for_each_app {A St : Type} (body : A -> St -> py St) (l1 l2 : list A) (st : St) :
  for_each body (l1 ++ l2) st = (st' <~ for_each body l1 st ;; for_each body l2 st').
Proof.
  revert st. induction l1 as [|x t IH]; intros st; simpl; auto.
  destruct (body x st); simpl; auto.
Qed.

Lemma py_mod_Return (a b m : Z) : py_mod a b = Return m -> b <> 0%Z /\ m = (a mod b)%Z.
Proof. unfold py_mod. destruct (Z.eqb_spec b 0); [discriminate|]. intros [= <-]. auto. Qed.

Lemma py_mod_nonzero (a b : Z) : b <> 0%Z -> py_mod a b = Return (a mod b)%Z.
Proof. intros H. unfold py_mod. destruct (Z.eqb_spec b 0); congruence. Qed.

Lemma py_mod_zero (a : Z) : py_mod a 0 = Throw ZeroDivision.
Proof. reflexivity. Qed.

(** ** The target script *)

Section TargetScript.

Variable W X : Type.
Variable scheduler : W -> Z -> W.
Variable forward : W -> X -> matrix * W.
Variable criterion : matrix -> list nat -> R.
Variable utils_Entropy : matrix -> vec.
Variable step : W -> X -> list nat -> W.
Variable test_pass : W -> list (list sample).
Variable KMeans_fit : vec -> KMeans.
Variable cal_acc_target_oda : W -> R * R * R.

Local Abbreviation train_from :=
  (Target.train_from W X scheduler forward criterion utils_Entropy step).
Local Abbreviation train :=
  (Target.train W X scheduler forward criterion utils_Entropy step).
Local Abbreviation get_mem_label := (Target.get_mem_label W test_pass KMeans_fit).
Local Abbreviation epoch_body :=
  (Target.epoch_body W X scheduler forward criterion utils_Entropy step
                     test_pass KMeans_fit cal_acc_target_oda).
Local Abbreviation main :=
  (Target.main W X scheduler forward criterion utils_Entropy step
               test_pass KMeans_fit cal_acc_target_oda).

Lemma target_train_from_inv (cfg : Config) (tc : Train.cfg) (epoch_sum : Z)
  (batches : list (X * list nat)) (ml : option (list nat)) :
  forall (i : Z) (w w' : W) (calls : list Target.call),
  train_from cfg tc epoch_sum i batches ml w = Return (w', calls) ->
  Target.scheduler_calls calls
  = range (epoch_sum + i + 1)
          (epoch_sum + i + 1 + Z.of_nat (List.length batches))
  /\ Target.outline calls = [] /\ Target.validated_acc_os2 calls = []
  /\ (batches <> [] -> ml <> None).
Proof.
  induction batches as [|[x tar_idx] rest IH]; intros i w w' calls E.
  - cbn in E. injection E as <- <-. cbn [List.length Z.of_nat].
    rewrite range_nil by lia. repeat split; auto.
  - cbn [Target.train_from] in E.
    destruct (Target.mem_getitem ml tar_idx) as [pred|e] eqn:Eg;
      cbn [py_bind] in E; [|discriminate].
    destruct (forward (scheduler w (epoch_sum + i + 1)%Z) x) as [out w1].
    destruct (Target.select_known cfg pred out) as [[ok pk]|e];
      cbn [py_bind] in E; [|discriminate].
    assert (Hml : ml <> None) by (intros ->; discriminate).
    rewrite range_cons by (cbn [List.length]; lia).
    destruct (List.length pk =? 0)%nat.
    + destruct (train_from cfg tc epoch_sum (i + 1)%Z rest ml w1)
        as [[w2 c2]|e] eqn:Er; cbn [py_bind] in E; [|discriminate].
      injection E as <- <-. cbn [fst snd].
      destruct (IH _ _ _ _ Er) as (H1 & H2 & H3 & _).
      cbn [Target.scheduler_calls Target.outline Target.validated_acc_os2 flat_map app].
      fold (Target.scheduler_calls c2) (Target.outline c2) (Target.validated_acc_os2 c2).
      rewrite H1, H2, H3.
      replace (epoch_sum + (i + 1) + 1)%Z with (epoch_sum + i + 1 + 1)%Z by lia.
      replace (epoch_sum + i + 1 + 1 + Z.of_nat (List.length rest))%Z
        with (epoch_sum + i + 1 + Z.of_nat (List.length ((x, tar_idx) :: rest)))%Z
        by (cbn [List.length]; lia).
      repeat split; auto.
    + destruct (train_from cfg tc epoch_sum (i + 1)%Z rest ml _)
        as [[w2 c2]|e] eqn:Er; cbn [py_bind] in E; [|discriminate].
      injection E as <- <-. cbn [fst snd].
      destruct (IH _ _ _ _ Er) as (H1 & H2 & H3 & _).
      cbn [Target.scheduler_calls Target.outline Target.validated_acc_os2 flat_map app].
      fold (Target.scheduler_calls c2) (Target.outline c2) (Target.validated_acc_os2 c2).
      rewrite H1, H2, H3.
      replace (epoch_sum + (i + 1) + 1)%Z with (epoch_sum + i + 1 + 1)%Z by lia.
      replace (epoch_sum + i + 1 + 1 + Z.of_nat (List.length rest))%Z
        with (epoch_sum + i + 1 + Z.of_nat (List.length ((x, tar_idx) :: rest)))%Z
        by (cbn [List.length]; lia).
      repeat split; auto.
Qed.

Lemma target_train_from_throws (cfg : Config) (tc : Train.cfg) (epoch_sum : Z)
  (batches : list (X * list nat)) (ml : option (list nat)) :
  forall (i : Z) (w : W) (e : py_exn),
  train_from cfg tc epoch_sum i batches ml w = Throw e ->
  e = TypeError \/ e = IndexError.
Proof.
  induction batches as [|[x tar_idx] rest IH]; intros i w e E.
  - discriminate.
  - cbn [Target.train_from] in E.
    destruct (Target.mem_getitem ml tar_idx) as [pred|e1] eqn:Eg;
      cbn [py_bind] in E.
    2:{ injection E as <-. unfold Target.mem_getitem in Eg.
        destruct ml; [|injection Eg as <-; auto].
        destruct (forallb _ _); [discriminate|]. injection Eg as <-. auto. }
    destruct (forward (scheduler w (epoch_sum + i + 1)%Z) x) as [out w1].
    destruct (Target.select_known cfg pred out) as [[ok pk]|e1] eqn:Es;
      cbn [py_bind] in E.
    2:{ injection E as <-. unfold Target.select_known in Es.
        destruct (_ =? _)%nat; [discriminate|]. injection Es as <-. auto. }
    destruct (List.length pk =? 0)%nat.
    + destruct (train_from cfg tc epoch_sum (i + 1)%Z rest ml w1)
        as [[w2 c2]|e1] eqn:Er; cbn [py_bind] in E; [discriminate|].
      injection E as <-. eapply IH; eauto.
    + destruct (train_from cfg tc epoch_sum (i + 1)%Z rest ml _)
        as [[w2 c2]|e1] eqn:Er; cbn [py_bind] in E; [discriminate|].
      injection E as <-. eapply IH; eauto.
Qed.

Lemma target_train_None (cfg : Config) (tc : Train.cfg) (epoch : Z)
  (train_loader : list (X * list nat)) (w : W) :
  train_loader <> [] ->
  train cfg tc epoch train_loader None w = Throw TypeError.
Proof.
  destruct train_loader as [|[x tar_idx] rest]; [congruence|]. reflexivity.
Qed.

Lemma target_get_mem_label_throws (cfg : Config) (w : W) (e : py_exn) :
  get_mem_label cfg w = Throw e -> exists e', e = Engine e'.
Proof.
  unfold Target.get_mem_label. destruct (obtain_label _ _ _); [discriminate|].
  intros [= <-]. eauto.
Qed.

Lemma target_epoch_body_inv (cfg : Config) (tc : Train.cfg)
  (train_loader : list (X * list nat)) (interval epoch : Z)
  (st st' : Target.state W) :
  epoch_body cfg tc train_loader interval epoch st = Return st' ->
  let refresh := ((epoch mod interval =? 0)%Z && Rgtb (Train.cls_par tc) 0)%bool in
  let validated :=
    ((epoch mod interval =? 0) || (epoch =? Train.max_epoch tc))%Z in
  let len := Z.of_nat (List.length train_loader) in
  interval <> 0%Z
  /\ Target.outline (Target.trace st')
     = Target.outline (Target.trace st)
       ++ (if refresh then [Target.Relabelled] else [])
       ++ [Target.Logged (epoch + 1) validated]
  /\ Target.scheduler_calls (Target.trace st')
     = Target.scheduler_calls (Target.trace st)
       ++ range (epoch * len + 1) (epoch * len + 1 + len)
  /\ (if validated
      then exists a,
          Target.validated_acc_os2 (Target.trace st')
          = Target.validated_acc_os2 (Target.trace st) ++ [a]
          /\ Target.best_acc st'
             = (if Rleb (Target.best_acc st) a then a else Target.best_acc st)
      else Target.validated_acc_os2 (Target.trace st')
           = Target.validated_acc_os2 (Target.trace st)
           /\ Target.best_acc st' = Target.best_acc st)
  /\ (train_loader <> [] -> refresh = true \/ Target.mem_label st <> None).
Proof.
  intros E refresh validated len. unfold Target.epoch_body in E.
  destruct (py_mod epoch interval) as [m|e] eqn:Em; cbn [py_bind] in E;
    [|discriminate].
  apply py_mod_Return in Em. destruct Em as [Hi ->].
  fold refresh in E. fold validated in E.
  split; [exact Hi|].
  assert (exists st1,
    Target.net st1 = Target.net st
    /\ Target.best_acc st1 = Target.best_acc st
    /\ Target.outline (Target.trace st1)
       = Target.outline (Target.trace st) ++ (if refresh then [Target.Relabelled] else [])
    /\ Target.scheduler_calls (Target.trace st1) = Target.scheduler_calls (Target.trace st)
    /\ Target.validated_acc_os2 (Target.trace st1) = Target.validated_acc_os2 (Target.trace st)
    /\ (refresh = true \/ Target.mem_label st1 = Target.mem_label st)
    /\ (r <~ train cfg tc epoch train_loader (Target.mem_label st1) (Target.net st1) ;;
        let (w, calls) := r in
        if validated then
          Return {| Target.net := w; Target.mem_label := Target.mem_label st1;
                    Target.best_acc :=
                      if Rleb (Target.best_acc st1) (snd (fst (Target.validate W cal_acc_target_oda w)))
                      then snd (fst (Target.validate W cal_acc_target_oda w))
                      else Target.best_acc st1;
                    Target.trace := Target.trace st1 ++ calls
                      ++ [Target.Epoch_log (epoch + 1) (Some (Target.validate W cal_acc_target_oda w))] |}
        else
          Return {| Target.net := w; Target.mem_label := Target.mem_label st1;
                    Target.best_acc := Target.best_acc st1;
                    Target.trace := Target.trace st1 ++ calls
                      ++ [Target.Epoch_log (epoch + 1) None] |}) = Return st')
    as (st1 & Hn & Hb & Ho & Hs & Hv & Hm & E1).
  { destruct refresh.
    - destruct (get_mem_label cfg (Target.net st)) as [out|e]; cbn [py_bind] in E;
        [|discriminate].
      eexists. split; [|split; [|split; [|split; [|split; [|split]]]]].
      7: exact E.
      all: cbn [Target.net Target.best_acc Target.trace]; auto.
      all: unfold Target.outline, Target.scheduler_calls, Target.validated_acc_os2;
        rewrite flat_map_app; cbn [flat_map app]; auto using app_nil_r.
    - cbn [py_bind] in E.
      exists st. split; [|split; [|split; [|split; [|split; [|split]]]]];
        auto using app_nil_r. }
  destruct (train cfg tc epoch train_loader (Target.mem_label st1) (Target.net st1))
    as [[w calls]|e] eqn:Et; cbn [py_bind] in E1; [|discriminate].
  unfold Target.train in Et.
  apply target_train_from_inv in Et. destruct Et as (Hc1 & Hc2 & Hc3 & Hc4).
  fold len in Hc1.
  assert (Hmem : train_loader <> [] ->
                 refresh = true \/ Target.mem_label st <> None).
  { intros Hne. destruct Hm as [Hm|Hm]; [left; exact Hm|].
    right. rewrite <- Hm. auto. }
  replace (epoch * len + 0 + 1)%Z with (epoch * len + 1)%Z in Hc1 by lia.
  destruct validated.
  - injection E1 as <-. cbn [Target.trace Target.best_acc].
    unfold Target.outline, Target.scheduler_calls, Target.validated_acc_os2 in *.
    rewrite !flat_map_app, Hc1, Hc2, Hc3, Ho, Hs, Hv. cbn [flat_map app].
    rewrite Hb, <- !app_assoc, !app_nil_r. 
    repeat split; auto. eexists. split; reflexivity.
  - injection E1 as <-. cbn [Target.trace Target.best_acc].
    unfold Target.outline, Target.scheduler_calls, Target.validated_acc_os2 in *.
    rewrite !flat_map_app, Hc1, Hc2, Hc3, Ho, Hs, Hv. cbn [flat_map app].
    rewrite Hb, <- !app_assoc, !app_nil_r.
    repeat split; auto.
Qed.

Lemma target_epoch_body_throws (cfg : Config) (tc : Train.cfg)
  (train_loader : list (X * list nat)) (interval epoch : Z)
  (st : Target.state W) (e : py_exn) :
  epoch_body cfg tc train_loader interval epoch st = Throw e ->
  (interval = 0%Z /\ e = ZeroDivision)
  \/ (interval <> 0%Z
      /\ (e = TypeError \/ e = IndexError \/ exists e', e = Engine e')).
Proof.
  intros E. unfold Target.epoch_body in E.
  destruct (Z.eq_dec interval 0) as [->|Hi].
  - rewrite py_mod_zero in E. cbn [py_bind] in E. injection E as <-. auto.
  - right. split; [exact Hi|].
    rewrite py_mod_nonzero in E by exact Hi. cbn [py_bind] in E.
    destruct ((epoch mod interval =? 0)%Z && Rgtb (Train.cls_par tc) 0)%bool.
    + destruct (get_mem_label cfg (Target.net st)) as [out|e1] eqn:Eg;
        cbn [py_bind] in E.
      2:{ injection E as <-. right; right.
          eapply target_get_mem_label_throws; eauto. }
      cbn [Target.net Target.mem_label] in E.
      destruct (train cfg tc epoch train_loader _ _) as [[w calls]|e1] eqn:Et;
        cbn [py_bind] in E.
      * destruct (_ || _)%bool; discriminate.
      * injection E as <-. apply target_train_from_throws in Et. tauto.
    + cbn [py_bind] in E.
      destruct (train cfg tc epoch train_loader _ _) as [[w calls]|e1] eqn:Et;
        cbn [py_bind] in E.
      * destruct (_ || _)%bool; discriminate.
      * injection E as <-. apply target_train_from_throws in Et. tauto.
Qed.

Lemma largest_of_step (accs : list R) (b a : R) :
  largest_of accs b ->
  largest_of (accs ++ [a]) (if Rleb b a then a else b).
Proof.
  intros (H0 & Hall & Hin). unfold Rleb. destruct (Rle_dec b a) as [Hle|Hgt].
  - split; [lra|]. split.
    + apply Forall_app. split.
      * eapply Forall_impl; [|exact Hall]. cbn. intros; lra.
      * constructor; [lra|constructor].
    + right. apply in_or_app. right. left. reflexivity.
  - split; [exact H0|]. split.
    + apply Forall_app. split; [exact Hall|]. constructor; [lra|constructor].
    + destruct Hin; [left; auto|right; apply in_or_app; auto].
Qed.

Lemma target_loop_inv (cfg : Config) (tc : Train.cfg)
  (train_loader : list (X * list nat)) (interval : Z) (l : list Z) :
  forall st st' : Target.state W,
  for_each (epoch_body cfg tc train_loader interval) l st = Return st' ->
  (forall e, In e l -> e <> Train.max_epoch tc) ->
  let len := Z.of_nat (List.length train_loader) in
  Target.outline (Target.trace st')
  = Target.outline (Target.trace st)
    ++ flat_map (fun e =>
         (if ((e mod interval =? 0)%Z && Rgtb (Train.cls_par tc) 0)%bool
          then [Target.Relabelled] else [])
         ++ [Target.Logged (e + 1) (e mod interval =? 0)%Z]) l
  /\ Target.scheduler_calls (Target.trace st')
     = Target.scheduler_calls (Target.trace st)
       ++ flat_map (fun e => range (e * len + 1) (e * len + 1 + len)) l
  /\ (largest_of (Target.validated_acc_os2 (Target.trace st)) (Target.best_acc st) ->
      largest_of (Target.validated_acc_os2 (Target.trace st')) (Target.best_acc st')).
Proof.
  induction l as [|e l IH]; intros st st' E Hne len.
  - injection E as <-. cbn [flat_map]. rewrite !app_nil_r. auto.
  - cbn [for_each] in E.
    destruct (epoch_body cfg tc train_loader interval e st) as [st1|e1] eqn:E1;
      cbn [py_bind] in E; [|discriminate].
    apply target_epoch_body_inv in E1. cbv zeta in E1.
    destruct E1 as (Hi & Ho & Hs & Hv & _).
    destruct (IH st1 st' E (fun x Hx => Hne x (or_intror Hx)))
      as (Ho' & Hs' & Hb').
    assert (Hem : (e =? Train.max_epoch tc)%Z = false)
      by (apply Z.eqb_neq, Hne; left; reflexivity).
    rewrite Hem, orb_false_r in Ho, Hv.
    fold len in Hs. cbn [flat_map].
    rewrite Ho', Ho, Hs', Hs, <- !app_assoc. split; [reflexivity|].
    split; [reflexivity|].
    intros HL. apply Hb'.
    destruct (e mod interval =? 0)%Z.
    + destruct Hv as (a & -> & ->). apply largest_of_step, HL.
    + destruct Hv as (-> & ->). exact HL.
Qed.

Lemma target_loop_throws (cfg : Config) (tc : Train.cfg)
  (train_loader : list (X * list nat)) (interval : Z) (l : list Z) :
  forall (st : Target.state W) (e : py_exn),
  for_each (epoch_body cfg tc train_loader interval) l st = Throw e ->
  interval <> 0%Z -> e <> ZeroDivision.
Proof.
  induction l as [|x l IH]; intros st e E Hi; [discriminate|].
  cbn [for_each] in E.
  destruct (epoch_body cfg tc train_loader interval x st) as [st1|e1] eqn:E1;
    cbn [py_bind] in E.
  - eapply IH; eauto.
  - injection E as <-. apply target_epoch_body_throws in E1.
    destruct E1 as [[? _]|[_ [->|[->|[e' ->]]]]]; [contradiction| | |];
      discriminate.
Qed.

Lemma flat_map_blocks (len : Z) (n : nat) :
  (0 <= len)%Z ->
  flat_map (fun e => range (e * len + 1) (e * len + 1 + len))
           (range 0 (Z.of_nat n))
  = range 1 (Z.of_nat n * len + 1).
Proof.
  intros Hl. induction n as [|n IH].
  - cbn [Z.of_nat]. rewrite range_nil by lia. cbn [flat_map].
    rewrite range_nil by lia. reflexivity.
  - replace (Z.of_nat (S n)) with (Z.of_nat n + 1)%Z by lia.
    rewrite range_snoc by lia. rewrite flat_map_app, IH. cbn [flat_map].
    rewrite app_nil_r.
    rewrite (range_app 1 (Z.of_nat n * len + 1) ((Z.of_nat n + 1) * len + 1))
      by nia.
    do 2 f_equal. lia.
Qed.

Lemma target_main_eq (da_type : string) (dcfg d : Dataset.cfg) (cfg : Config)
  (tc : Train.cfg) (train_loader : list (X * list nat)) (w0 : W) :
  da_type = "oda"%string ->
  Target.init_dataset_name dcfg = Return d ->
  0 < Train.lr_decay1 tc \/ 0 < Train.lr_decay2 tc ->
  main da_type dcfg cfg tc train_loader w0
  = (st <~ for_each (epoch_body cfg tc train_loader (Train.max_epoch tc / 15))
                    (range 0 (Train.max_epoch tc))
                    {| Target.net := w0; Target.mem_label := None;
                       Target.best_acc := 0; Target.trace := [] |} ;;
     Return (d, st)).
Proof.
  intros -> Hd Hdecay. unfold Target.main. rewrite Hd. cbn [py_bind].
  change (negb ("oda" =? "oda")%string) with false. cbv iota.
  unfold Rgtb.
  destruct (Rgt_dec (Train.lr_decay1 tc) 0), (Rgt_dec (Train.lr_decay2 tc) 0);
    try reflexivity.
  exfalso. destruct Hdecay; lra.
Qed.

Lemma target_main_inv (da_type : string) (dcfg d : Dataset.cfg) (cfg : Config)
  (tc : Train.cfg) (train_loader : list (X * list nat)) (w0 : W)
  (st : Target.state W) :
  main da_type dcfg cfg tc train_loader w0 = Return (d, st) ->
  for_each (epoch_body cfg tc train_loader (Train.max_epoch tc / 15))
           (range 0 (Train.max_epoch tc))
           {| Target.net := w0; Target.mem_label := None;
              Target.best_acc := 0; Target.trace := [] |}
  = Return st.
Proof.
  unfold Target.main.
  destruct (Target.init_dataset_name dcfg) as [d'|e]; cbn [py_bind];
    [|discriminate].
  destruct (negb (da_type =? "oda")%string); [discriminate|].
  destruct (SGD _) as [g|e]; cbn [py_bind]; [|discriminate].
  destruct (op_copy g) as [g'|e]; cbn [py_bind]; [|discriminate].
  destruct (for_each _ _ _) as [st'|e]; cbn [py_bind]; [|discriminate].
  intros [= _ ->]. reflexivity.
Qed.

(** X9.  [train_target_oda.py]: with a known dataset, [da.type = 'oda'] and
    at least one trainable network, [main] raises ZeroDivisionError exactly
    when [1 <= max_epoch <= 14]: [interval = max_epoch // 15] is then 0 and
    the first [epoch % interval] fails, before any pseudo-labelling or
    training.  (The loaders, networks and helpers are taken not to raise.) *)
Theorem target_main_zero_division (da_type : string) (dcfg d : Dataset.cfg)
  (cfg : Config) (tc : Train.cfg) (train_loader : list (X * list nat)) (w0 : W) :
  da_type = "oda"%string ->
  Target.init_dataset_name dcfg = Return d ->
  0 < Train.lr_decay1 tc \/ 0 < Train.lr_decay2 tc ->
  (main da_type dcfg cfg tc train_loader w0 = Throw ZeroDivision
   <-> (1 <= Train.max_epoch tc <= 14)%Z).
Proof.
  intros Hda Hd Hdecay.
  rewrite (target_main_eq da_type dcfg d cfg tc train_loader w0 Hda Hd Hdecay).
  split.
  - intros E.
    destruct (for_each _ _ _) as [st|e] eqn:El; cbn [py_bind] in E;
      [discriminate|].
    injection E as ->.
    destruct (Z_le_gt_dec (Train.max_epoch tc) 0) as [H0|H0].
    { rewrite range_nil in El by lia. discriminate. }
    destruct (Z_le_gt_dec 15 (Train.max_epoch tc)) as [H15|H15]; [|lia].
    exfalso. apply target_loop_throws in El; [congruence|].
    pose proof (Z.div_le_mono 15 (Train.max_epoch tc) 15 ltac:(lia) H15) as Hq.
    rewrite Z.div_same in Hq by lia. lia.
  - intros H. rewrite range_cons by lia. cbn [for_each].
    rewrite Z.div_small by lia. unfold Target.epoch_body.
    rewrite py_mod_zero. reflexivity.
Qed.

(** X10.  [train_target_oda.py]: with [cls_par <= 0] the pseudo-labels are
    never computed, [mem_label] stays [None], and the first batch of the
    first epoch raises TypeError at [mem_label[tar_idx]]: a run of at least
    15 epochs over a non-empty training loader cannot train with the
    entropy terms alone. *)
Theorem target_main_needs_cls_par (da_type : string) (dcfg d : Dataset.cfg)
  (cfg : Config) (tc : Train.cfg) (train_loader : list (X * list nat)) (w0 : W) :
  da_type = "oda"%string ->
  Target.init_dataset_name dcfg = Return d ->
  0 < Train.lr_decay1 tc \/ 0 < Train.lr_decay2 tc ->
  (15 <= Train.max_epoch tc)%Z ->
  Train.cls_par tc <= 0 ->
  train_loader <> [] ->
  main da_type dcfg cfg tc train_loader w0 = Throw TypeError.
Proof.
  intros Hda Hd Hdecay H15 Hcls Hne.
  rewrite (target_main_eq da_type dcfg d cfg tc train_loader w0 Hda Hd Hdecay).
  rewrite range_cons by lia. cbn [for_each].
  assert (Hi : (Train.max_epoch tc / 15 <> 0)%Z).
  { pose proof (Z.div_le_mono 15 (Train.max_epoch tc) 15 ltac:(lia) H15) as Hq.
    rewrite Z.div_same in Hq by lia. lia. }
  unfold Target.epoch_body. rewrite py_mod_nonzero by exact Hi.
  cbn [py_bind].
  replace (Rgtb (Train.cls_par tc) 0) with false
    by (unfold Rgtb; destruct (Rgt_dec _ _); [lra|reflexivity]).
  rewrite andb_false_r. cbn [py_bind Target.mem_label Target.net].
  rewrite target_train_None by exact Hne. reflexivity.
Qed.

(** X11.  [train_target_oda.py]: in a run of [main] that returns, epoch
    [e] of [range(max_epoch)] is validated exactly when
    [e % (max_epoch // 15) = 0], the pseudo-labels are refreshed before the
    training of exactly these epochs (when [cls_par > 0]), and every epoch
    is logged once, in order, under the number [e + 1].  The test
    [epoch == max_epoch] never holds, so the last epoch is validated only
    if it falls on the interval. *)
Theorem target_main_schedule (da_type : string) (dcfg d : Dataset.cfg)
  (cfg : Config) (tc : Train.cfg) (train_loader : list (X * list nat)) (w0 : W)
  (st : Target.state W) :
  main da_type dcfg cfg tc train_loader w0 = Return (d, st) ->
  let interval := (Train.max_epoch tc / 15)%Z in
  Target.outline (Target.trace st)
  = flat_map (fun epoch =>
      (if ((epoch mod interval =? 0)%Z && Rgtb (Train.cls_par tc) 0)%bool
       then [Target.Relabelled] else [])
      ++ [Target.Logged (epoch + 1) (epoch mod interval =? 0)%Z])
      (range 0 (Train.max_epoch tc)).
Proof.
  intros E interval. apply target_main_inv in E.
  apply target_loop_inv in E.
  - destruct E as (Ho & _). exact Ho.
  - intros e He. apply In_range in He. lia.
Qed.

(** X12.  [train_target_oda.py]: in a run of [main] that returns, the
    iteration numbers passed to the scheduler are [1, 2, ...,
    max_epoch * len(train_loader)], consecutive and in order: a batch that
    is skipped because it holds no known sample still advances the
    schedule. *)
Theorem target_main_scheduler_iterations (da_type : string)
  (dcfg d : Dataset.cfg) (cfg : Config) (tc : Train.cfg)
  (train_loader : list (X * list nat)) (w0 : W) (st : Target.state W) :
  main da_type dcfg cfg tc train_loader w0 = Return (d, st) ->
  Target.scheduler_calls (Target.trace st)
  = range 1 (Z.max 0 (Train.max_epoch tc)
             * Z.of_nat (List.length train_loader) + 1).
Proof.
  intros E. apply target_main_inv in E.
  apply target_loop_inv in E.
  2:{ intros e He. apply In_range in He. lia. }
  destruct E as (_ & Hs & _). cbv zeta in Hs. rewrite Hs. cbn [app].
  cbn [Target.trace Target.scheduler_calls flat_map app].
  destruct (Z_le_gt_dec (Train.max_epoch tc) 0) as [H0|H0].
  - rewrite range_nil by lia. rewrite Z.max_l by lia.
    cbn [flat_map]. rewrite range_nil by lia. reflexivity.
  - rewrite Z.max_r by lia.
    rewrite <- (Z2Nat.id (Train.max_epoch tc)) by lia.
    apply flat_map_blocks. lia.
Qed.

(** X13.  [train_target_oda.py]: in a run of [main] that returns, the
    [best_acc] that is logged at the end is the largest of 0 and the
    [acc_os2] of the validated epochs. *)
Theorem target_main_best_acc (da_type : string) (dcfg d : Dataset.cfg)
  (cfg : Config) (tc : Train.cfg) (train_loader : list (X * list nat)) (w0 : W)
  (st : Target.state W) :
  main da_type dcfg cfg tc train_loader w0 = Return (d, st) ->
  largest_of (Target.validated_acc_os2 (Target.trace st)) (Target.best_acc st).
Proof.
  intros E. apply target_main_inv in E.
  apply target_loop_inv in E.
  2:{ intros e He. apply In_range in He. lia. }
  destruct E as (_ & _ & Hb). apply Hb.
  cbn. split; [lra|]. split; [constructor|]. left. reflexivity.
Qed.

Lemma target_train_from_returns (cfg : Config) (tc : Train.cfg) (epoch_sum : Z)
  (batches : list (X * list nat)) (m : list nat) :
  (forall x idx, In (x, idx) batches ->
     Forall (fun i => (i < List.length m)%nat) idx
     /\ forall w, List.length (fst (forward w x)) = List.length idx) ->
  forall (i : Z) (w : W),
  exists r, train_from cfg tc epoch_sum i batches (Some m) w = Return r.
Proof.
  induction batches as [|[x idx] rest IH]; intros Hb i w.
  - eexists. reflexivity.
  - cbn [Target.train_from Target.mem_getitem].
    destruct (Hb x idx (or_introl eq_refl)) as [Hidx Hlen].
    replace (forallb (fun i0 => (i0 <? List.length m)%nat) idx) with true.
    2:{ symmetry. apply forallb_forall. intros k Hk.
        rewrite Forall_forall in Hidx. apply Nat.ltb_lt. auto. }
    cbn [py_bind].
    specialize (Hlen (scheduler w (epoch_sum + i + 1)%Z)).
    destruct (forward (scheduler w (epoch_sum + i + 1)%Z) x) as [out w1].
    cbn [fst] in Hlen. unfold Target.select_known.
    unfold take at 1. rewrite length_map, Hlen, Nat.eqb_refl. cbn [py_bind].
    assert (Hrest : forall x' idx', In (x', idx') rest ->
              Forall (fun i => (i < List.length m)%nat) idx'
              /\ forall w, List.length (fst (forward w x')) = List.length idx')
      by (intros; apply Hb; right; assumption).
    destruct (List.length _ =? 0)%nat.
    + destruct (IH Hrest (i + 1)%Z w1) as [r ->]. eexists. reflexivity.
    + destruct (IH Hrest (i + 1)%Z (step w1 x (take 0%nat idx m))) as [r ->].
      eexists. reflexivity.
Qed.

Lemma target_loop_returns (cfg : Config) (tc : Train.cfg)
  (train_loader : list (X * list nat)) (interval : Z) (N : nat) :
  interval <> 0%Z ->
  0 < Train.cls_par tc ->
  (forall w, exists out,
      obtain_label KMeans_fit (test_pass w) cfg = Ok out
      /\ List.length (guess_label out) = N) ->
  (forall x idx, In (x, idx) train_loader ->
     Forall (fun i => (i < N)%nat) idx
     /\ forall w, List.length (fst (forward w x)) = List.length idx) ->
  forall (l : list Z) (st : Target.state W),
  (match Target.mem_label st with
   | Some m => List.length m = N
   | None => match l with
             | [] => True
             | e :: _ => (e mod interval = 0)%Z
             end
   end) ->
  exists st', for_each (epoch_body cfg tc train_loader interval) l st
              = Return st'.
Proof.
  intros Hi Hcls Hlab Hb.
  assert (Hg : Rgtb (Train.cls_par tc) 0 = true)
    by (unfold Rgtb; destruct (Rgt_dec _ _); [reflexivity|lra]).
  induction l as [|e l IH]; intros st Hst.
  - eexists. reflexivity.
  - cbn [for_each].
    assert (exists st1, epoch_body cfg tc train_loader interval e st = Return st1
                        /\ exists m, Target.mem_label st1 = Some m
                                     /\ List.length m = N)
      as (st1 & -> & m & Hm & HN).
    { unfold Target.epoch_body. rewrite py_mod_nonzero by exact Hi.
      cbn [py_bind]. rewrite Hg, andb_true_r.
      destruct (e mod interval =? 0)%Z eqn:Em.
      - unfold Target.get_mem_label.
        destruct (Hlab (Target.net st)) as (out & -> & HN).
        cbn [py_bind Target.mem_label Target.net].
        destruct (target_train_from_returns cfg tc
                    (e * Z.of_nat (List.length train_loader))%Z train_loader
                    (guess_label out)
                    ltac:(rewrite HN; exact Hb) 0%Z (Target.net st))
          as [[w calls] Er].
        unfold Target.train. rewrite Er. cbn [py_bind orb].
        eexists. split; [reflexivity|]. cbn [Target.mem_label]. eauto.
      - cbn [py_bind].
        destruct (Target.mem_label st) as [m|] eqn:Hml.
        2:{ apply Z.eqb_neq in Em. contradiction. }
        destruct (target_train_from_returns cfg tc
                    (e * Z.of_nat (List.length train_loader))%Z train_loader m
                    ltac:(rewrite Hst; exact Hb) 0%Z (Target.net st))
          as [[w calls] Er].
        unfold Target.train. rewrite Er. cbn [py_bind orb].
        destruct (e =? Train.max_epoch tc)%Z;
          (eexists; split; [reflexivity|]; cbn [Target.mem_label]; eauto). }
    cbn [py_bind]. apply IH. rewrite Hm. exact HN.
Qed.

Lemma target_main_returns (da_type : string) (dcfg d : Dataset.cfg)
  (cfg : Config) (tc : Train.cfg) (train_loader : list (X * list nat)) (w0 : W)
  (N : nat) :
  da_type = "oda"%string ->
  Target.init_dataset_name dcfg = Return d ->
  0 < Train.lr_decay1 tc \/ 0 < Train.lr_decay2 tc ->
  (15 <= Train.max_epoch tc)%Z ->
  0 < Train.cls_par tc ->
  (forall w, exists out,
      obtain_label KMeans_fit (test_pass w) cfg = Ok out
      /\ List.length (guess_label out) = N) ->
  (forall x idx, In (x, idx) train_loader ->
     Forall (fun i => (i < N)%nat) idx
     /\ forall w, List.length (fst (forward w x)) = List.length idx) ->
  exists st, main da_type dcfg cfg tc train_loader w0 = Return (d, st).
Proof.
  intros Hda Hd Hdecay H15 Hcls Hlab Hb.
  rewrite (target_main_eq da_type dcfg d cfg tc train_loader w0 Hda Hd Hdecay).
  assert (Hi : (Train.max_epoch tc / 15 <> 0)%Z).
  { pose proof (Z.div_le_mono 15 (Train.max_epoch tc) 15 ltac:(lia) H15) as Hq.
    rewrite Z.div_same in Hq by lia. lia. }
  destruct (target_loop_returns cfg tc train_loader _ N Hi Hcls Hlab Hb
              (range 0 (Train.max_epoch tc))
              {| Target.net := w0; Target.mem_label := None;
                 Target.best_acc := 0; Target.trace := [] |}) as [st ->].
  - cbn [Target.mem_label]. rewrite range_cons by lia. apply Z.mod_0_l, Hi.
  - exists st. reflexivity.
Qed.

End TargetScript.

(** ** The diversity term *)

Lemma sum_map_div_any {A : Type} (f : A -> R) (c : R) (l : list A) :
  sum (map (fun x => f x / c) l) = sum (map f l) / c.
Proof.
  induction l as [|x t IH]; [unfold sum; cbn [map fold_right]; lra|].
  cbn [map]. rewrite !sum_cons, IH. lra.
Qed.

Lemma sum_map_plus {A : Type} (f g : A -> R) (l : list A) :
  sum (map (fun x => f x + g x) l) = sum (map f l) + sum (map g l).
Proof.
  induction l as [|x t IH]; [unfold sum; cbn [map fold_right]; lra|].
  cbn [map]. rewrite !sum_cons, IH. lra.
Qed.

Lemma map_nth_seq (row : vec) :
  map (fun k => nth k row 0) (seq 0 (List.length row)) = row.
Proof.
  apply nth_ext with (d := 0) (d' := 0).
  - now rewrite length_map, length_seq.
  - intros n Hn. rewrite length_map, length_seq in Hn.
    exact (nth_map_seq (fun k => nth k row 0) _ n 0 Hn).
Qed.

(** Summing the column sums is summing the row sums. *)
Lemma sum_columns (K : nat) (m : matrix) :
  Forall (fun row => List.length row = K) m ->
  sum (map (fun k => sum (column k m)) (seq 0 K)) = sum (map sum m).
Proof.
  induction 1 as [|row m Hrow _ IH].
  - cbn [map column]. change (sum []) with 0.
    induction (seq 0 K) as [|k l IHl]; [reflexivity|].
    cbn [map]. rewrite sum_cons, IHl. change (sum []) with 0. lra.
  - cbn [map]. rewrite sum_cons, <- IH.
    replace (sum row) with (sum (map (fun k => nth k row 0) (seq 0 K)))
      by (now rewrite <- Hrow, map_nth_seq).
    rewrite <- sum_map_plus. apply sum_map_ext. intros k _.
    unfold column. cbn [map]. apply sum_cons.
Qed.

Lemma column_nonneg (k : nat) (m : matrix) :
  Forall (fun row => Forall (fun x => 0 <= x) row) m ->
  Forall (fun x => 0 <= x) (column k m).
Proof.
  intros H. unfold column. apply Forall_map.
  eapply Forall_impl; [|exact H]. cbn. intros row Hrow.
  destruct (Nat.lt_ge_cases k (List.length row)) as [Hk|Hk].
  - rewrite Forall_forall in Hrow. apply Hrow, nth_In, Hk.
  - rewrite nth_overflow by exact Hk. lra.
Qed.

Lemma mean_dim0_valid (K : nat) (m : matrix) :
  m <> [] ->
  Forall (fun row => List.length row = K) m ->
  Forall valid_dist m ->
  valid_dist (Target.mean_dim0 m) /\ List.length (Target.mean_dim0 m) = K.
Proof.
  intros Hne HK Hv.
  assert (HB : 0 < INR (List.length m))
    by (apply lt_0_INR; destruct m; [congruence|cbn; lia]).
  assert (Hhd : List.length (hd [] m) = K).
  { destruct m as [|row m']; [congruence|]. inversion HK; subst. reflexivity. }
  unfold Target.mean_dim0. rewrite Hhd. split; [split|].
  - apply Forall_map. apply Forall_forall. intros k _.
    apply Rmult_le_pos; [|left; apply Rinv_0_lt_compat, HB].
    apply sum_nonneg, column_nonneg.
    eapply Forall_impl; [|exact Hv]. intros row [Hp _]. exact Hp.
  - rewrite sum_map_div_any, (sum_columns K m HK).
    replace (sum (map sum m)) with (INR (List.length m)).
    + field. lra.
    + clear -Hv. induction Hv as [|row m [_ Hs] _ IH].
      * reflexivity.
      * cbn [map]. rewrite sum_cons, <- IH, Hs.
        change (List.length (row :: m)) with (S (List.length m)).
        rewrite S_INR. lra.
  - now rewrite length_map, length_seq.
Qed.

(** X14.  [train_target_oda.py], lines 175-176: for [epsilon > 0] and a
    batch of at least one row of [K >= 1] logits, the diversity term
    [gentropy_loss] of the softmax outputs is a number between
    [- ln (1 + epsilon)] and [- ln (1 / K + epsilon)]; the mean of the
    softmax rows is itself a distribution over the [K] classes. *)
Theorem gentropy_loss_range (eps : R) (K : nat) (outputs_test : matrix) :
  0 < eps -> (0 < K)%nat -> outputs_test <> [] ->
  Forall (fun row => List.length row = K) outputs_test ->
  exists g,
    Target.gentropy_loss eps (map softmax outputs_test) = Some g
    /\ - ln (1 + eps) <= g <= - ln (/ INR K + eps).
Proof.
  intros He HK Hne Hrows.
  destruct (mean_dim0_valid K (map softmax outputs_test)) as [Hv Hlen].
  - destruct outputs_test; [congruence|discriminate].
  - apply Forall_map. eapply Forall_impl; [|exact Hrows].
    cbn. intros row Hr. now rewrite length_softmax.
  - apply Forall_map. eapply Forall_impl; [|exact Hrows].
    cbn. intros row Hr. apply softmax_valid. intros ->. cbn in Hr. lia.
  - unfold Target.gentropy_loss.
    replace (forallb _ _) with true.
    + eexists. split; [reflexivity|]. split.
      * apply entropy_sum_lower; assumption.
      * rewrite <- Hlen. apply entropy_sum_upper; [assumption|lia|assumption].
    + symmetry. apply forallb_forall. intros x Hx.
      pose proof (valid_dist_le_1 _ x Hv Hx).
      unfold Rltb. destruct (Rlt_dec 0 (x + eps)); [reflexivity|lra].
Qed.

(** ** What a batch is trained on *)

Lemma guess_label_known (fit : vec -> KMeans) (loader : list (list sample))
  (cfg : Config) (out : Output) :
  obtain_label fit loader cfg = Ok out ->
  Forall (fun s => List.length (outputs s) = class_num cfg) (concat loader) ->
  List.length (labels_ (fit (ent_of loader cfg))) = List.length (concat loader) ->
  List.length (guess_label out) = List.length (concat loader)
  /\ forall i, (i < List.length (concat loader))%nat ->
       (In i (known_idx_of fit loader cfg) ->
        In (nth i (guess_label out) 0%nat) (LabelSet_of fit loader cfg)
        /\ Target.known cfg (nth i (guess_label out) 0%nat) = true)
       /\ (~ In i (known_idx_of fit loader cfg) ->
           nth i (guess_label out) 0%nat = class_num cfg
           /\ Target.known cfg (nth i (guess_label out) 0%nat) = false).
Proof.
  intros E HK Hfit.
  apply obtain_label_inv in E. destruct E as (HN & pl & Er & Hg & _).
  unfold refined_of in Er. cbv zeta in Er. apply refine_inv in Er.
  destruct Er as (_ & Hlen & Hin).
  fold (LabelSet_of fit loader cfg) in Hin.
  unfold take in Hlen. rewrite length_map in Hlen.
  destruct (guess_label_spec (class_num cfg) (List.length (concat loader))
              (known_idx_of fit loader cfg) pl
              (known_idx_of_NoDup fit loader cfg)
              (fun k => known_idx_of_lt fit loader cfg k Hfit) Hlen)
    as (HL & Hout & Hinn).
  rewrite Hg. split; [exact HL|]. intros i Hi. split.
  - intros Hk. apply (In_nth _ _ 0%nat) in Hk. destruct Hk as (j & Hj & <-).
    rewrite (Hinn j Hj).
    assert (Hc : In (nth j pl 0%nat) (LabelSet_of fit loader cfg)).
    { rewrite Forall_forall in Hin. apply Hin, nth_In. lia. }
    split; [exact Hc|].
    unfold LabelSet_of in Hc. apply labelset_lt in Hc.
    rewrite (K_of_class_num loader (class_num cfg)) in Hc.
    + unfold Target.known. apply Nat.ltb_lt. exact Hc.
    + intros Hnil. rewrite Hnil in HN. cbn in HN. lia.
    + exact HK.
  - intros Hk. rewrite (Hout i Hi Hk). split; [reflexivity|].
    unfold Target.known. apply Nat.ltb_irrefl.
Qed.

Lemma select_map_eq {A : Type} (f g : nat -> bool) (a b : list nat) :
  map f a = map g b ->
  forall l : list A, select f a l = select g b l.
Proof.
  revert b. induction a as [|x a IH]; intros [|y b] H l; try discriminate.
  - reflexivity.
  - injection H as Hxy Hab. destruct l as [|r l]; [reflexivity|].
    unfold select in *. cbn [combine filter fst]. rewrite Hxy.
    destruct (g y); cbn [map]; rewrite (IH b Hab l); reflexivity.
Qed.

(** X15.  [train_target_oda.py], lines 152-163, after a successful
    [obtain_label] on as many logits as [class_num]: for a batch whose
    indices are in range, [mem_label[tar_idx]] is defined, the mask
    [pred < class_num] keeps exactly the samples whose index is in
    [known_idx] (and their rows of [outputs_test]), the pseudo-labels kept
    are classes of the LabelSet, and the batch is skipped exactly when none
    of its samples is in [known_idx]. *)
Theorem train_batch_keeps_known (fit : vec -> KMeans)
  (loader : list (list sample)) (cfg : Config) (out : Output)
  (tar_idx : list nat) :
  obtain_label fit loader cfg = Ok out ->
  Forall (fun s => List.length (outputs s) = class_num cfg) (concat loader) ->
  List.length (labels_ (fit (ent_of loader cfg))) = List.length (concat loader) ->
  Forall (fun i => (i < List.length (concat loader))%nat) tar_idx ->
  let is_known := fun i =>
    if in_dec Nat.eq_dec i (known_idx_of fit loader cfg) then true else false in
  exists pred,
    Target.mem_getitem (Some (guess_label out)) tar_idx = Return pred
    /\ map (Target.known cfg) pred = map is_known tar_idx
    /\ (forall outputs_test : matrix,
          List.length outputs_test = List.length tar_idx ->
          Target.select_known cfg pred outputs_test
          = Return (select is_known tar_idx outputs_test,
                    filter (Target.known cfg) pred))
    /\ Forall (fun c => In c (LabelSet_of fit loader cfg))
              (filter (Target.known cfg) pred)
    /\ (filter (Target.known cfg) pred = []
        <-> Forall (fun i => ~ In i (known_idx_of fit loader cfg)) tar_idx).
Proof.
  intros E HK Hfit Hidx is_known.
  destruct (guess_label_known fit loader cfg out E HK Hfit) as (HL & Hg).
  unfold Target.mem_getitem. rewrite HL.
  replace (forallb _ tar_idx) with true.
  2:{ symmetry. apply forallb_forall. intros i Hi.
      rewrite Forall_forall in Hidx. apply Nat.ltb_lt. auto. }
  eexists. split; [reflexivity|].
  assert (Hmap : map (Target.known cfg) (take 0%nat tar_idx (guess_label out))
                 = map is_known tar_idx
                 /\ Forall (fun c => In c (LabelSet_of fit loader cfg))
                           (filter (Target.known cfg)
                                   (take 0%nat tar_idx (guess_label out)))
                 /\ (filter (Target.known cfg)
                            (take 0%nat tar_idx (guess_label out)) = []
                     <-> Forall (fun i => ~ In i (known_idx_of fit loader cfg))
                                tar_idx)).
  { unfold take. subst is_known. induction Hidx as [|i t Hi _ IH].
    - cbn. repeat split; auto.
    - destruct IH as (IH1 & IH2 & IH3). cbn [map filter].
      destruct (Hg i Hi) as [Hyes Hno].
      destruct (in_dec Nat.eq_dec i (known_idx_of fit loader cfg)) as [Hk|Hk].
      + destruct (Hyes Hk) as [Hc ->]. rewrite IH1.
        split; [reflexivity|]. split; [constructor; assumption|].
        split; [discriminate|]. intros HF. inversion HF; subst. contradiction.
      + destruct (Hno Hk) as [_ ->]. rewrite IH1.
        split; [reflexivity|]. split; [exact IH2|].
        rewrite IH3. split; [intros; constructor; assumption|].
        intros HF. inversion HF; subst. assumption. }
  destruct Hmap as (H1 & H2 & H3).
  split; [exact H1|]. split; [|split; assumption].
  intros outputs_test Hlen. unfold Target.select_known.
  unfold take at 1. rewrite length_map, Hlen, Nat.eqb_refl.
  rewrite (select_map_eq _ _ _ _ H1). reflexivity.
Qed.

(** ** The source script *)

Section SourceScript.

Variables W X Y L : Type.
Variable scheduler : W -> Z -> W.
Variable step : W -> X -> Y -> W.
Variable cal_acc : W -> bool -> R.

Local Abbreviation train_from := (Source.train_from W X Y L scheduler step).
Local Abbreviation train := (Source.train W X Y L scheduler step).
Local Abbreviation validate := (Source.validate W cal_acc).
Local Abbreviation epoch_body :=
  (Source.epoch_body W X Y L scheduler step cal_acc).
Local Abbreviation main := (Source.main W X Y L scheduler step cal_acc).
Local Abbreviation trained := (Source.trained W X Y L scheduler step).

Lemma source_train_from_calls (epoch : Z) (batches : list (X * Y)) :
  forall (i : Z) (w : W),
  Source.scheduler_calls (snd (train_from epoch i batches w))
  = map (Z.mul epoch) (range i (i + Z.of_nat (List.length batches)))
  /\ Source.epoch_logs (snd (train_from epoch i batches w)) = []
  /\ Source.validators (snd (train_from epoch i batches w)) = []
  /\ Source.saves (snd (train_from epoch i batches w)) = []
  /\ Source.inferences (snd (train_from epoch i batches w)) = [].
Proof.
  induction batches as [|[x y] rest IH]; intros i w.
  - cbn [Source.train_from snd List.length Z.of_nat].
    rewrite range_nil by lia. repeat split.
  - cbn [Source.train_from].
    specialize (IH (i + 1)%Z (step (scheduler w (epoch * i)%Z) x y)).
    destruct (train_from epoch (i + 1)%Z rest _) as [w' calls].
    cbn [snd] in *. destruct IH as (H1 & H2 & H3 & H4 & H5).
    rewrite range_cons by (cbn [List.length]; lia).
    cbn [Source.scheduler_calls Source.epoch_logs Source.validators Source.saves Source.inferences flat_map app map].
    fold (Source.scheduler_calls calls) (Source.epoch_logs calls) (Source.validators calls)
         (Source.saves calls) (Source.inferences calls).
    rewrite H1, H2, H3, H4, H5.
    replace (i + 1 + Z.of_nat (List.length rest))%Z
      with (i + Z.of_nat (List.length ((x, y) :: rest)))%Z
      by (cbn [List.length]; lia).
    repeat split.
Qed.

Lemma source_epoch_body_inv (cfg : Dataset.cfg) (tc : Train.cfg)
  (train_loader : list (X * Y)) (interval epoch : Z) (st st' : Source.state W L) :
  epoch_body cfg tc train_loader interval epoch st = Return st' ->
  let w := fst (train epoch train_loader (Source.net st)) in
  let v := ((epoch mod interval =? 0) || (epoch =? Train.max_epoch tc))%Z in
  let acc := fst (validate cfg w) in
  let better := (v && Rgtb acc (Source.best_acc st))%bool in
  interval <> 0%Z
  /\ Source.net st' = w
  /\ Source.best_acc st' = (if better then acc else Source.best_acc st)
  /\ Source.best_net st' = (better || Source.best_net st)%bool
  /\ Source.scheduler_calls (Source.trace st')
     = Source.scheduler_calls (Source.trace st)
       ++ map (Z.mul epoch) (range 0 (Z.of_nat (List.length train_loader)))
  /\ Source.epoch_logs (Source.trace st') = Source.epoch_logs (Source.trace st) ++ [(epoch, v)]
  /\ Source.validators (Source.trace st')
     = Source.validators (Source.trace st) ++ (if v then [snd (validate cfg w)] else [])
  /\ Source.saves (Source.trace st')
     = Source.saves (Source.trace st) ++ (if better then [w] else [])
  /\ Source.inferences (Source.trace st') = Source.inferences (Source.trace st).
Proof.
  intros E w v acc better. unfold Source.epoch_body in E.
  pose proof (source_train_from_calls epoch train_loader 0 (Source.net st))
    as (H1 & H2 & H3 & H4 & H5).
  fold (train epoch train_loader (Source.net st)) in H1, H2, H3, H4, H5.
  subst w. destruct (train epoch train_loader (Source.net st)) as [w calls].
  cbn [fst snd] in *.
  destruct (py_mod epoch interval) as [m|e] eqn:Em; cbn [py_bind] in E;
    [|discriminate].
  apply py_mod_Return in Em. destruct Em as [Hi ->]. fold v in E.
  split; [exact Hi|]. subst better acc.
  destruct (validate cfg w) as [acc ev]. cbn [fst snd] in *.
  destruct v; cbn [andb orb].
  - destruct (Rgtb acc (Source.best_acc st)); injection E as <-;
      cbn [Source.net Source.best_acc Source.best_net Source.trace];
      unfold Source.scheduler_calls, Source.epoch_logs, Source.validators, Source.saves, Source.inferences in *;
      rewrite !flat_map_app, H1, H2, H3, H4, H5; cbn [flat_map app];
      rewrite ?app_nil_r; repeat split; reflexivity.
  - injection E as <-.
    cbn [Source.net Source.best_acc Source.best_net Source.trace].
    unfold Source.scheduler_calls, Source.epoch_logs, Source.validators, Source.saves, Source.inferences in *.
    rewrite !flat_map_app, H1, H2, H3, H4, H5. cbn [flat_map app].
    rewrite ?app_nil_r. repeat split; reflexivity.
Qed.

Lemma source_epoch_body_returns (cfg : Dataset.cfg) (tc : Train.cfg)
  (train_loader : list (X * Y)) (interval epoch : Z) (st : Source.state W L) :
  interval <> 0%Z ->
  exists st', epoch_body cfg tc train_loader interval epoch st = Return st'.
Proof.
  intros Hi. unfold Source.epoch_body.
  destruct (train epoch train_loader (Source.net st)) as [w calls].
  rewrite py_mod_nonzero by exact Hi. cbn [py_bind].
  destruct (_ || _)%bool; [|eexists; reflexivity].
  destruct (validate cfg w) as [acc ev].
  destruct (Rgtb acc (Source.best_acc st)); eexists; reflexivity.
Qed.

Lemma source_loop_returns (cfg : Dataset.cfg) (tc : Train.cfg)
  (train_loader : list (X * Y)) (interval : Z) (l : list Z) :
  interval <> 0%Z ->
  forall st : Source.state W L,
  exists st', for_each (epoch_body cfg tc train_loader interval) l st = Return st'.
Proof.
  intros Hi. induction l as [|e l IH]; intros st.
  - eexists. reflexivity.
  - cbn [for_each].
    destruct (source_epoch_body_returns cfg tc train_loader interval e st Hi)
      as [st1 ->].
    cbn [py_bind]. apply IH.
Qed.

Lemma trained_succ (train_loader : list (X * Y)) (w0 : W) (n : Z) :
  (0 <= n)%Z ->
  trained train_loader w0 (n + 1)
  = fst (train (n + 1) train_loader (trained train_loader w0 n)).
Proof.
  intros Hn. unfold Source.trained.
  rewrite (range_snoc 1 (n + 1)) by lia. rewrite fold_left_app. reflexivity.
Qed.

Lemma last_Some_app {A : Type} (l : list A) (x : A) :
  last (map Some (l ++ [x])) None = Some x.
Proof.
  rewrite map_app. cbn [map]. apply last_last.
Qed.

Lemma source_loop_inv (cfg : Dataset.cfg) (tc : Train.cfg)
  (train_loader : list (X * Y)) (interval : Z) (w0 : W) (n : nat) :
  forall st : Source.state W L,
  for_each (epoch_body cfg tc train_loader interval)
           (range 1 (Z.of_nat n + 1))
           {| Source.net := w0; Source.best_acc := 0;
              Source.best_net := false; Source.trace := [] |}
  = Return st ->
  let v := fun e => ((e mod interval =? 0) || (e =? Train.max_epoch tc))%Z in
  let flag := String.eqb (Dataset.name cfg) "VISDA-C" in
  Source.net st = trained train_loader w0 (Z.of_nat n)
  /\ Source.scheduler_calls (Source.trace st)
     = flat_map (fun e => map (Z.mul e)
                            (range 0 (Z.of_nat (List.length train_loader))))
                (range 1 (Z.of_nat n + 1))
  /\ Source.epoch_logs (Source.trace st)
     = map (fun e => (e, v e)) (range 1 (Z.of_nat n + 1))
  /\ Forall (fun ev => ev = Source.Cal_acc flag) (Source.validators (Source.trace st))
  /\ Forall (fun w => exists e, (1 <= e <= Z.of_nat n)%Z /\ v e = true
                               /\ w = trained train_loader w0 e)
            (Source.saves (Source.trace st))
  /\ 0 <= Source.best_acc st
  /\ Source.best_net st = Rgtb (Source.best_acc st) 0
  /\ (Source.saves (Source.trace st) = [] <-> Source.best_net st = false)
  /\ (forall w, last (map Some (Source.saves (Source.trace st))) None = Some w ->
                cal_acc w flag = Source.best_acc st)
  /\ Source.inferences (Source.trace st) = [].
Proof.
  induction n as [|n IH]; intros st E v flag.
  - cbn [Z.of_nat] in *. rewrite range_nil in * by lia.
    injection E as <-.
    cbn [Source.net Source.best_acc Source.best_net Source.trace].
    unfold Source.trained. rewrite range_nil by lia.
    cbn. repeat split; auto; try lra; try discriminate.
    unfold Rgtb. destruct (Rgt_dec 0 0); [lra|reflexivity].
  - replace (Z.of_nat (S n)) with (Z.of_nat n + 1)%Z in * by lia.
    rewrite (range_snoc 1 (Z.of_nat n + 1)) in E by lia.
    rewrite for_each_app in E.
    destruct (for_each _ (range 1 (Z.of_nat n + 1)) _) as [st1|e] eqn:E1;
      cbn [py_bind] in E; [|discriminate].
    specialize (IH st1 eq_refl). cbv zeta in IH. fold v flag in IH.
    destruct IH as (In1 & Is & Ie & Iv & Isv & I0 & Ibn & Iempty & Ilast & Iinf).
    cbn [for_each] in E.
    destruct (epoch_body cfg tc train_loader interval (Z.of_nat n + 1)%Z st1)
      as [st2|e] eqn:E2; cbn [py_bind] in E; [|discriminate].
    injection E as <-.
    apply source_epoch_body_inv in E2. cbv zeta in E2. fold (v (Z.of_nat n + 1)%Z) in E2.
    destruct E2 as (Hi & Hn & Hb & Hbn & Hs & He & Hv & Hsv & Hinf).
    rewrite In1, <- trained_succ in * by lia.
    assert (Hval : validate cfg (trained train_loader w0 (Z.of_nat n + 1))
                   = (cal_acc (trained train_loader w0 (Z.of_nat n + 1)) flag,
                      Source.Cal_acc flag)).
    { unfold Source.validate. fold flag. destruct flag; reflexivity. }
    rewrite Hval in *. cbn [fst snd] in *.
    rewrite (range_snoc 1 (Z.of_nat n + 1)) by lia.
    rewrite flat_map_app, map_app. cbn [flat_map map]. rewrite app_nil_r.
    split; [exact Hn|]. split; [rewrite Hs, Is; reflexivity|].
    split; [rewrite He, Ie; reflexivity|].
    split.
    { rewrite Hv. apply Forall_app. split; [exact Iv|].
      destruct (v (Z.of_nat n + 1)%Z); repeat constructor. }
    assert (Isv' : Forall (fun w => exists e, (1 <= e <= Z.of_nat n + 1)%Z
                             /\ v e = true /\ w = trained train_loader w0 e)
                          (Source.saves (Source.trace st1))).
    { eapply Forall_impl; [|exact Isv]. cbn. intros w (e & He1 & He2 & He3).
      exists e. repeat split; auto; lia. }
    set (acc := cal_acc (trained train_loader w0 (Z.of_nat n + 1)) flag) in *.
    destruct (v (Z.of_nat n + 1)%Z) eqn:Ev; cbn [andb orb] in *.
    + unfold Rgtb in Hb, Hbn, Hsv.
      destruct (Rgt_dec acc (Source.best_acc st1)) as [Hgt|Hle]; cbn [orb] in *.
      * rewrite Hb, Hbn, Hsv. split.
        { apply Forall_app. split; [exact Isv'|]. constructor; [|constructor].
          exists (Z.of_nat n + 1)%Z. repeat split; auto; lia. }
        split; [lra|]. split.
        { unfold Rgtb. destruct (Rgt_dec acc 0); [reflexivity|lra]. }
        split.
        { split; [|discriminate]. intros Habs.
          apply app_eq_nil in Habs. destruct Habs; discriminate. }
        split; [|exact (eq_trans Hinf Iinf)].
        intros w Hw. rewrite last_Some_app in Hw. injection Hw as <-. reflexivity.
      * rewrite Hb, Hbn, Hsv, app_nil_r.
        split; [exact Isv'|]. split; [exact I0|]. split; [exact Ibn|].
        split; [exact Iempty|]. split; [exact Ilast|exact (eq_trans Hinf Iinf)].
    + rewrite Hb, Hbn, Hsv, app_nil_r.
      split; [exact Isv'|]. split; [exact I0|]. split; [exact Ibn|].
      split; [exact Iempty|]. split; [exact Ilast|exact (eq_trans Hinf Iinf)].
Qed.

Lemma source_init_name (cfg d : Dataset.cfg) :
  Source.init_dataset_name cfg = Return d ->
  Dataset.name d = "office-home"%string.
Proof.
  unfold Source.init_dataset_name. rewrite dict_item_office_home_source.
  destruct (String.eqb_spec "office-home" (Dataset.name cfg)) as [Hn|Hn];
    cbn [py_bind]; [|discriminate].
  destruct (py_index _ _ _) as [src|e]; cbn [py_bind]; [|discriminate].
  destruct (py_remove _ _) as [rest|e]; cbn [py_bind]; [|discriminate].
  intros [= <-]. cbn [Dataset.name]. auto.
Qed.

Lemma source_main_eq (da_type : string) (cfg d : Dataset.cfg) (tc : Train.cfg)
  (train_loader : list (X * Y)) (test_loader_list : list L) (w0 : W) :
  Source.init_dataset_name cfg = Return d ->
  main da_type cfg tc train_loader test_loader_list w0
  = (st <~ for_each (epoch_body d tc train_loader (Train.max_epoch tc / 10))
                    (range 1 (Train.max_epoch tc + 1))
                    {| Source.net := w0; Source.best_acc := 0;
                       Source.best_net := false; Source.trace := [] |} ;;
     Return (d,
             {| Source.net := Source.net st; Source.best_acc := Source.best_acc st;
                Source.best_net := Source.best_net st;
                Source.trace :=
                  Source.trace st
                  ++ map (fun p => Source.Inference (Source.inference da_type)
                                     (if Source.best_net st
                                      then Some (Source.net st) else None)
                                     (fst p) (snd p))
                         (combine test_loader_list (Source.target_names d)) |})).
Proof.
  intros Hd. unfold Source.main. rewrite Hd. reflexivity.
Qed.

Lemma source_inference_events (ev : Source.evaluator) (best : option W)
  (l : list (L * string)) :
  let tr := map (fun p => @Source.Inference W L ev best (fst p) (snd p)) l in
  Source.scheduler_calls tr = [] /\ Source.epoch_logs tr = [] /\ Source.validators tr = []
  /\ Source.saves tr = []
  /\ Source.inferences tr = map (fun p => (ev, best, fst p, snd p)) l.
Proof.
  induction l as [|p l IH]; cbn; [repeat split|].
  destruct IH as (H1 & H2 & H3 & H4 & H5).
  repeat split; auto. f_equal. exact H5.
Qed.

Lemma interval_nonzero (m k : Z) : (0 < k <= m)%Z -> (m / k <> 0)%Z.
Proof.
  intros H. pose proof (Z.div_le_mono k m k ltac:(lia) ltac:(lia)) as Hq.
  rewrite Z.div_same in Hq by lia. lia.
Qed.

Lemma range_to_nat (m : Z) : range 1 (m + 1) = range 1 (Z.of_nat (Z.to_nat m) + 1).
Proof.
  destruct (Z_le_gt_dec 0 m); [now rewrite Z2Nat.id by lia|].
  rewrite !range_nil by lia. reflexivity.
Qed.

Lemma trained_to_nat (train_loader : list (X * Y)) (w0 : W) (m : Z) :
  trained train_loader w0 (Z.of_nat (Z.to_nat m)) = trained train_loader w0 m.
Proof. unfold Source.trained. now rewrite <- range_to_nat. Qed.

Lemma source_loop_total (cfg : Dataset.cfg) (tc : Train.cfg)
  (train_loader : list (X * Y)) (w0 : W) :
  ~ (1 <= Train.max_epoch tc <= 9)%Z ->
  exists st,
    for_each (epoch_body cfg tc train_loader (Train.max_epoch tc / 10))
      (range 1 (Train.max_epoch tc + 1))
      {| Source.net := w0; Source.best_acc := 0;
         Source.best_net := false; Source.trace := [] |}
    = Return st.
Proof.
  intros H. destruct (Z_le_gt_dec (Train.max_epoch tc) 0).
  - rewrite range_nil by lia. eexists. reflexivity.
  - apply source_loop_returns, interval_nonzero. lia.
Qed.

(** X16.  [train_source.py]: once [init_dataset_name] has succeeded, [main]
    raises ZeroDivisionError exactly when [1 <= max_epoch <= 9]
    ([interval = max_epoch // 10] is 0; the first epoch is trained before
    the modulo fails), and it returns for every other [max_epoch].  (The
    loaders, networks and helpers are taken not to raise.) *)
Theorem source_main_zero_division (da_type : string) (cfg d : Dataset.cfg)
  (tc : Train.cfg) (train_loader : list (X * Y)) (test_loader_list : list L)
  (w0 : W) :
  Source.init_dataset_name cfg = Return d ->
  (main da_type cfg tc train_loader test_loader_list w0 = Throw ZeroDivision
   <-> (1 <= Train.max_epoch tc <= 9)%Z)
  /\ ((exists st, main da_type cfg tc train_loader test_loader_list w0
                  = Return (d, st))
      <-> ~ (1 <= Train.max_epoch tc <= 9)%Z).
Proof.
  intros Hd.
  rewrite (source_main_eq da_type cfg d tc train_loader test_loader_list w0 Hd).
  assert (Hsmall : (1 <= Train.max_epoch tc <= 9)%Z ->
    for_each (epoch_body d tc train_loader (Train.max_epoch tc / 10))
      (range 1 (Train.max_epoch tc + 1))
      {| Source.net := w0; Source.best_acc := 0;
         Source.best_net := false; Source.trace := [] |}
    = Throw ZeroDivision).
  { intros H. rewrite range_cons by lia. cbn [for_each].
    rewrite Z.div_small by lia. unfold Source.epoch_body.
    destruct (train 1 train_loader _) as [w calls].
    rewrite py_mod_zero. reflexivity. }
  pose proof (source_loop_total d tc train_loader w0) as Hbig.
  split; split.
  - intros E.
    destruct (Z_le_gt_dec 1 (Train.max_epoch tc)),
             (Z_le_gt_dec (Train.max_epoch tc) 9); try lia;
      destruct Hbig as [st Est]; try lia; rewrite Est in E; discriminate.
  - intros H. rewrite (Hsmall H). reflexivity.
  - intros [st E] H. rewrite (Hsmall H) in E. discriminate.
  - intros H. destruct (Hbig H) as [st ->]. eexists. reflexivity.
Qed.

Lemma source_main_inv (da_type : string) (cfg d : Dataset.cfg) (tc : Train.cfg)
  (train_loader : list (X * Y)) (test_loader_list : list L) (w0 : W)
  (st : Source.state W L) :
  main da_type cfg tc train_loader test_loader_list w0 = Return (d, st) ->
  Dataset.name d = "office-home"%string
  /\ exists st1,
      for_each (epoch_body d tc train_loader (Train.max_epoch tc / 10))
               (range 1 (Z.of_nat (Z.to_nat (Train.max_epoch tc)) + 1))
               {| Source.net := w0; Source.best_acc := 0;
                  Source.best_net := false; Source.trace := [] |}
      = Return st1
      /\ Source.net st = Source.net st1
      /\ Source.best_acc st = Source.best_acc st1
      /\ Source.best_net st = Source.best_net st1
      /\ Source.trace st
         = Source.trace st1
           ++ map (fun p => Source.Inference (Source.inference da_type)
                              (if Source.best_net st1
                               then Some (Source.net st1) else None)
                              (fst p) (snd p))
                  (combine test_loader_list (Source.target_names d)).
Proof.
  intros E.
  destruct (Source.init_dataset_name cfg) as [d'|e] eqn:Hd.
  2:{ unfold Source.main in E. rewrite Hd in E. discriminate. }
  rewrite (source_main_eq da_type cfg d' tc train_loader test_loader_list w0 Hd)
    in E.
  rewrite range_to_nat in E.
  destruct (for_each _ _ _) as [st1|e] eqn:E1; cbn [py_bind] in E;
    [|discriminate].
  injection E as -> <-. split; [eapply source_init_name; eauto|].
  exists st1. split; [exact E1|]. repeat split; reflexivity.
Qed.

(** X17.  [train_source.py]: in a run of [main] that returns, the epochs
    [1 .. max_epoch] are logged once each, in order; epoch [e] is validated
    exactly when [e % (max_epoch // 10) = 0] or [e = max_epoch], so the last
    epoch always is; and [validate] always calls [cal_acc] with the flag
    [False], the "VISDA-C" branch being out of reach behind
    [init_dataset_name]. *)
Theorem source_main_schedule (da_type : string) (cfg d : Dataset.cfg)
  (tc : Train.cfg) (train_loader : list (X * Y)) (test_loader_list : list L)
  (w0 : W) (st : Source.state W L) :
  main da_type cfg tc train_loader test_loader_list w0 = Return (d, st) ->
  let interval := (Train.max_epoch tc / 10)%Z in
  Source.epoch_logs (Source.trace st)
  = map (fun epoch =>
           (epoch, ((epoch mod interval =? 0)
                    || (epoch =? Train.max_epoch tc))%Z))
        (range 1 (Train.max_epoch tc + 1))
  /\ (forall epoch, (1 <= epoch <= Train.max_epoch tc)%Z ->
       (In (epoch, true) (Source.epoch_logs (Source.trace st))
        <-> (epoch mod interval = 0)%Z \/ epoch = Train.max_epoch tc))
  /\ Forall (fun ev => ev = Source.Cal_acc false)
            (Source.validators (Source.trace st)).
Proof.
  intros E interval. apply source_main_inv in E.
  destruct E as (Hname & st1 & E1 & _ & _ & _ & Htr).
  apply source_loop_inv in E1. cbv zeta in E1.
  destruct E1 as (_ & _ & He & Hv & _).
  pose proof (source_inference_events (Source.inference da_type)
                (if Source.best_net st1 then Some (Source.net st1) else None)
                (combine test_loader_list (Source.target_names d)))
    as (_ & Hie & Hiv & _).
  assert (Hlogs : Source.epoch_logs (Source.trace st)
    = map (fun epoch =>
             (epoch, ((epoch mod interval =? 0)
                      || (epoch =? Train.max_epoch tc))%Z))
          (range 1 (Train.max_epoch tc + 1))).
  { rewrite Htr. unfold Source.epoch_logs. rewrite flat_map_app.
    fold (Source.epoch_logs (Source.trace st1)).
    unfold Source.epoch_logs in Hie at 1. cbv zeta in Hie. rewrite Hie, app_nil_r, He.
    now rewrite <- range_to_nat. }
  split; [exact Hlogs|]. split.
  - intros epoch Hep. rewrite Hlogs, in_map_iff. split.
    + intros (e & [= <- Hv'] & _). apply orb_true_iff in Hv'.
      destruct Hv' as [Hv'|Hv']; [left|right]; lia.
    + intros H. exists epoch. split; [|apply In_range; lia].
      f_equal. apply orb_true_iff. destruct H; [left|right]; lia.
  - rewrite Htr. unfold Source.validators. rewrite flat_map_app.
    fold (Source.validators (Source.trace st1)).
    unfold Source.validators in Hiv at 1. cbv zeta in Hiv. rewrite Hiv, app_nil_r.
    rewrite Hname in Hv. exact Hv.
Qed.

(** X18.  [train_source.py]: in a run of [main] that returns, the iteration
    numbers passed to the scheduler are [epoch * i] for the batch [i] of
    epoch [epoch]: every epoch starts again at 0, and no number exceeds
    [max_epoch * (len(train_loader) - 1)]. *)
Theorem source_main_scheduler_iterations (da_type : string)
  (cfg d : Dataset.cfg) (tc : Train.cfg) (train_loader : list (X * Y))
  (test_loader_list : list L) (w0 : W) (st : Source.state W L) :
  main da_type cfg tc train_loader test_loader_list w0 = Return (d, st) ->
  let len := Z.of_nat (List.length train_loader) in
  Source.scheduler_calls (Source.trace st)
  = flat_map (fun epoch => map (Z.mul epoch) (range 0 len))
             (range 1 (Train.max_epoch tc + 1))
  /\ Forall (fun n => (0 <= n <= Train.max_epoch tc * (len - 1))%Z)
            (Source.scheduler_calls (Source.trace st)).
Proof.
  intros E len. apply source_main_inv in E.
  destruct E as (_ & st1 & E1 & _ & _ & _ & Htr).
  apply source_loop_inv in E1. cbv zeta in E1.
  destruct E1 as (_ & Hs & _).
  pose proof (source_inference_events (Source.inference da_type)
                (if Source.best_net st1 then Some (Source.net st1) else None)
                (combine test_loader_list (Source.target_names d)))
    as (His & _).
  assert (Hcalls : Source.scheduler_calls (Source.trace st)
    = flat_map (fun epoch => map (Z.mul epoch) (range 0 len))
               (range 1 (Train.max_epoch tc + 1))).
  { rewrite Htr. unfold Source.scheduler_calls. rewrite flat_map_app.
    fold (Source.scheduler_calls (Source.trace st1)).
    unfold Source.scheduler_calls in His at 1. cbv zeta in His.
    rewrite His, app_nil_r, Hs. now rewrite <- range_to_nat. }
  split; [exact Hcalls|]. rewrite Hcalls. apply Forall_forall.
  intros n Hn. apply in_flat_map in Hn. destruct Hn as (e & He & Hn).
  apply in_map_iff in Hn. destruct Hn as (i & <- & Hi).
  apply In_range in He, Hi. nia.
Qed.

(** X19.  [train_source.py]: [best_netF = netF] binds the network, not a
    copy.  In a run of [main] that returns, every [inference] is passed the
    networks as they are after the last epoch (or [None] when no validation
    exceeded 0), once per pair of a test loader and a target name, while each
    [torch.save] wrote the networks of the epoch it was called in, the last
    one those that reached [best_acc]. *)
Theorem source_main_inference (da_type : string) (cfg d : Dataset.cfg)
  (tc : Train.cfg) (train_loader : list (X * Y)) (test_loader_list : list L)
  (w0 : W) (st : Source.state W L) :
  main da_type cfg tc train_loader test_loader_list w0 = Return (d, st) ->
  let final := trained train_loader w0 (Train.max_epoch tc) in
  Source.net st = final
  /\ Source.inferences (Source.trace st)
     = map (fun p => (Source.inference da_type,
                      (if Rgtb (Source.best_acc st) 0 then Some final else None),
                      fst p, snd p))
           (combine test_loader_list (Source.target_names d))
  /\ Forall (fun w => exists epoch,
                (1 <= epoch <= Train.max_epoch tc)%Z
                /\ w = trained train_loader w0 epoch)
            (Source.saves (Source.trace st))
  /\ (Source.saves (Source.trace st) = [] <-> Source.best_acc st = 0)
  /\ (forall w, last (map Some (Source.saves (Source.trace st))) None = Some w ->
                cal_acc w false = Source.best_acc st).
Proof.
  intros E final. apply source_main_inv in E.
  destruct E as (Hname & st1 & E1 & Hnet & Hacc & Hbn & Htr).
  apply source_loop_inv in E1. cbv zeta in E1. rewrite Hname in E1.
  change (("office-home" =? "VISDA-C")%string) with false in E1.
  destruct E1 as (Hn & _ & _ & _ & Hsv & H0 & Hb & Hempty & Hlast & Hinf).
  rewrite trained_to_nat in Hn. fold final in Hn.
  pose proof (source_inference_events (Source.inference da_type)
                (if Source.best_net st1 then Some (Source.net st1) else None)
                (combine test_loader_list (Source.target_names d)))
    as (_ & _ & _ & Hisv & Hii).
  cbv zeta in Hisv, Hii.
  assert (Hsaves : Source.saves (Source.trace st) = Source.saves (Source.trace st1)).
  { rewrite Htr. unfold Source.saves. rewrite flat_map_app.
    fold (Source.saves (Source.trace st1)). unfold Source.saves in Hisv at 1.
    rewrite Hisv. apply app_nil_r. }
  rewrite Hsaves, Hacc, Hnet.
  split; [exact Hn|]. split.
  { rewrite Htr. unfold Source.inferences. rewrite flat_map_app.
    fold (Source.inferences (Source.trace st1)). unfold Source.inferences in Hii at 1.
    rewrite Hii, Hinf, Hb, Hn. reflexivity. }
  split.
  { eapply Forall_impl; [|exact Hsv]. cbn. intros w (e & He & _ & ->).
    exists e. split; [lia|reflexivity]. }
  split; [|exact Hlast].
  rewrite Hempty, Hb. unfold Rgtb.
  destruct (Rgt_dec (Source.best_acc st1) 0); split; intros; try lra;
    try discriminate; reflexivity.
Qed.

End SourceScript.

(** ** Example runs *)

Lemma obtain_label_two :
  exists out,
    obtain_label fit_two loader_two cfg_default = Ok out
    /\ List.length (guess_label out) = 2%nat.
Proof.
  destruct (obtain_label_Ok fit_two loader_two cfg_default)
    as (out & pl & E & _ & _ & _ & Hg & _).
  - simpl; lia.
  - simpl; lia.
  - simpl; lra.
  - apply LabelSet_of_nonempty.
    + simpl; lia.
    + repeat constructor.
    + reflexivity.
    + simpl; auto.
    + simpl; auto.
    + simpl; lra.
  - exists out. split; [exact E|].
    rewrite Hg. unfold guess_label_of. rewrite length_setitem.
    apply repeat_length.
Qed.

Lemma target_toy_returns :
  exists st,
    target_main_toy (tc_epochs 15 (3 / 10)) = Return (dcfg_art_target, st).
Proof.
  apply (target_main_returns nat unit scheduler_toy forward_toy criterion_toy
           Entropy_toy step_toy test_pass_toy fit_two cal_acc_target_toy
           "oda" dcfg_art dcfg_art_target cfg_default
           (tc_epochs 15 (3 / 10)) train_loader_toy 0%nat 2%nat).
  - reflexivity.
  - reflexivity.
  - right. cbn [tc_epochs Train.lr_decay2]. lra.
  - cbn [tc_epochs Train.max_epoch]. lia.
  - cbn [tc_epochs Train.cls_par]. lra.
  - intros w. exact obtain_label_two.
  - intros x idx [[= <- <-]|[]]. split; [repeat constructor|reflexivity].
Qed.

Lemma source_toy_returns (n : Z) :
  ~ (1 <= n <= 9)%Z ->
  exists st, source_main_toy (tc_epochs n 0) = Return (dcfg_art_source, st).
Proof.
  intros Hn. unfold source_main_toy.
  rewrite (source_main_eq nat unit unit unit scheduler_toy step_source_toy
             cal_acc_toy "oda" dcfg_art dcfg_art_source) by reflexivity.
  cbn [tc_epochs Train.max_epoch].
  destruct (source_loop_total nat unit unit unit scheduler_toy step_source_toy
              cal_acc_toy dcfg_art_source (tc_epochs n 0) [(tt, tt); (tt, tt)]
              0%nat Hn) as [st E].
  cbn [tc_epochs Train.max_epoch] in E. rewrite E. eexists. reflexivity.
Qed.

Lemma target_main_zero_division_witness :
  target_main_toy (tc_epochs 10 (3 / 10)) = Throw ZeroDivision.
Proof.
  assert (Hdecay : 0 < Train.lr_decay1 (tc_epochs 10 (3 / 10))
                   \/ 0 < Train.lr_decay2 (tc_epochs 10 (3 / 10)))
    by (right; cbn [tc_epochs Train.lr_decay2]; lra).
  apply (proj2 (target_main_zero_division nat unit scheduler_toy forward_toy
                  criterion_toy Entropy_toy step_toy test_pass_toy fit_two
                  cal_acc_target_toy "oda" dcfg_art dcfg_art_target cfg_default
                  (tc_epochs 10 (3 / 10)) train_loader_toy 0%nat
                  eq_refl eq_refl Hdecay)).
  cbn [tc_epochs Train.max_epoch]. lia.
Defined.

Lemma target_main_needs_cls_par_witness :
  target_main_toy (tc_epochs 15 0) = Throw TypeError.
Proof.
  apply (target_main_needs_cls_par nat unit scheduler_toy forward_toy
           criterion_toy Entropy_toy step_toy test_pass_toy fit_two
           cal_acc_target_toy "oda" dcfg_art dcfg_art_target cfg_default
           (tc_epochs 15 0) train_loader_toy 0%nat eq_refl eq_refl).
  - right. cbn [tc_epochs Train.lr_decay2]. lra.
  - cbn [tc_epochs Train.max_epoch]. lia.
  - cbn [tc_epochs Train.cls_par]. lra.
  - discriminate.
Defined.

Lemma target_main_schedule_witness :
  exists st,
    target_main_toy (tc_epochs 15 (3 / 10)) = Return (dcfg_art_target, st)
    /\ Target.outline (Target.trace st)
       = flat_map (fun epoch =>
           (if ((epoch mod (15 / 15) =? 0)%Z && Rgtb (3 / 10) 0)%bool
            then [Target.Relabelled] else [])
           ++ [Target.Logged (epoch + 1) (epoch mod (15 / 15) =? 0)%Z])
           (range 0 15).
Proof.
  destruct target_toy_returns as [st E]. exists st. split; [exact E|].
  exact (target_main_schedule nat unit scheduler_toy forward_toy criterion_toy
           Entropy_toy step_toy test_pass_toy fit_two cal_acc_target_toy
           "oda" dcfg_art dcfg_art_target cfg_default (tc_epochs 15 (3 / 10))
           train_loader_toy 0%nat st E).
Defined.

Lemma target_main_scheduler_iterations_witness :
  exists st,
    target_main_toy (tc_epochs 15 (3 / 10)) = Return (dcfg_art_target, st)
    /\ Target.scheduler_calls (Target.trace st) = range 1 16.
Proof.
  destruct target_toy_returns as [st E]. exists st. split; [exact E|].
  exact (target_main_scheduler_iterations nat unit scheduler_toy forward_toy
           criterion_toy Entropy_toy step_toy test_pass_toy fit_two
           cal_acc_target_toy "oda" dcfg_art dcfg_art_target cfg_default
           (tc_epochs 15 (3 / 10)) train_loader_toy 0%nat st E).
Defined.

Lemma target_main_best_acc_witness :
  exists st,
    target_main_toy (tc_epochs 15 (3 / 10)) = Return (dcfg_art_target, st)
    /\ largest_of (Target.validated_acc_os2 (Target.trace st))
                  (Target.best_acc st).
Proof.
  destruct target_toy_returns as [st E]. exists st. split; [exact E|].
  exact (target_main_best_acc nat unit scheduler_toy forward_toy criterion_toy
           Entropy_toy step_toy test_pass_toy fit_two cal_acc_target_toy
           "oda" dcfg_art dcfg_art_target cfg_default (tc_epochs 15 (3 / 10))
           train_loader_toy 0%nat st E).
Defined.

Lemma train_batch_keeps_known_witness :
  exists out pred,
    obtain_label fit_two loader_two cfg_default = Ok out
    /\ Target.mem_getitem (Some (guess_label out)) [1; 0]%nat = Return pred
    /\ map (Target.known cfg_default) pred
       = map (fun i =>
                if in_dec Nat.eq_dec i
                          (known_idx_of fit_two loader_two cfg_default)
                then true else false) [1; 0]%nat.
Proof.
  destruct obtain_label_two as (out & E & _).
  destruct (train_batch_keeps_known fit_two loader_two cfg_default out
              [1; 0]%nat E ltac:(repeat constructor) eq_refl
              ltac:(repeat constructor; simpl; lia))
    as (pred & Hp & Hm & _).
  exists out, pred. split; [exact E|]. split; [exact Hp|exact Hm].
Defined.

Lemma gentropy_loss_range_witness :
  exists g,
    Target.gentropy_loss 1e-5 (map softmax [[0; 0]; [-1; 3]]) = Some g
    /\ - ln (1 + 1e-5) <= g <= - ln (/ INR 2 + 1e-5).
Proof.
  apply (gentropy_loss_range 1e-5 2 [[0; 0]; [-1; 3]]).
  - lra.
  - lia.
  - discriminate.
  - repeat constructor.
Defined.

Lemma source_main_zero_division_witness :
  source_main_toy (tc_epochs 5 0) = Throw ZeroDivision.
Proof.
  apply (proj2 (proj1 (source_main_zero_division nat unit unit unit
                         scheduler_toy step_source_toy cal_acc_toy "oda"
                         dcfg_art dcfg_art_source (tc_epochs 5 0)
                         [(tt, tt); (tt, tt)] [tt; tt; tt] 0%nat eq_refl))).
  cbn [tc_epochs Train.max_epoch]. lia.
Defined.

Lemma source_main_schedule_witness :
  exists st,
    source_main_toy (tc_epochs 25 0) = Return (dcfg_art_source, st)
    /\ (In (25%Z, true) (Source.epoch_logs (Source.trace st))
        <-> (25 mod (25 / 10) = 0)%Z \/ 25%Z = 25%Z).
Proof.
  destruct (source_toy_returns 25 ltac:(lia)) as [st E].
  exists st. split; [exact E|].
  destruct (source_main_schedule nat unit unit unit scheduler_toy
              step_source_toy cal_acc_toy "oda" dcfg_art dcfg_art_source
              (tc_epochs 25 0) [(tt, tt); (tt, tt)] [tt; tt; tt] 0%nat st E)
    as (_ & H & _).
  apply (H 25%Z). cbn [tc_epochs Train.max_epoch]. lia.
Defined.

Lemma source_main_scheduler_iterations_witness :
  exists st,
    source_main_toy (tc_epochs 25 0) = Return (dcfg_art_source, st)
    /\ Forall (fun n => (0 <= n <= 25 * (2 - 1))%Z)
              (Source.scheduler_calls (Source.trace st)).
Proof.
  destruct (source_toy_returns 25 ltac:(lia)) as [st E].
  exists st. split; [exact E|].
  exact (proj2 (source_main_scheduler_iterations nat unit unit unit
                  scheduler_toy step_source_toy cal_acc_toy "oda" dcfg_art
                  dcfg_art_source (tc_epochs 25 0) [(tt, tt); (tt, tt)]
                  [tt; tt; tt] 0%nat st E)).
Defined.

Lemma source_main_inference_witness :
  exists st,
    source_main_toy (tc_epochs 25 0) = Return (dcfg_art_source, st)
    /\ Source.net st
       = Source.trained nat unit unit unit scheduler_toy step_source_toy
                        [(tt, tt); (tt, tt)] 0%nat 25.
Proof.
  destruct (source_toy_returns 25 ltac:(lia)) as [st E].
  exists st. split; [exact E|].
  exact (proj1 (source_main_inference nat unit unit unit scheduler_toy
                  step_source_toy cal_acc_toy "oda" dcfg_art dcfg_art_source
                  (tc_epochs 25 0) [(tt, tt); (tt, tt)] [tt; tt; tt] 0%nat
                  st E)).
Defined.

(** ** Logged accuracies *)

Lemma count_eq_le (a b : list nat) : (count_eq a b <= List.length b)%nat.
Proof.
  unfold count_eq.
  etransitivity; [apply filter_length_le|].
  rewrite length_combine. lia.
Qed.

(** X20.  [train_target_oda.py], lines 53 and 101: when [obtain_label]
    returns and the minimum support is not negative, the accuracy logged
    before refinement lies in [0, 1], the KNOWN subset is not empty, and the
    accuracy logged after refinement is a number (never the NaN of a division
    by zero); it divides the matches over all [N] samples by the number of
    KNOWN samples, so its bound is [N / |known|], not 1. *)
Theorem logged_accuracies (fit : vec -> KMeans) (loader : list (list sample))
  (cfg : Config) (out : Output) :
  obtain_label fit loader cfg = Ok out ->
  0 <= threshold cfg ->
  let N := List.length (concat loader) in
  let known := List.length (known_idx_of fit loader cfg) in
  0 <= before_acc out <= 1
  /\ (0 < known)%nat
  /\ exists a, after_acc out = Some a /\ 0 <= a /\ a * INR known <= INR N.
Proof.
  intros E Hthr N known.
  assert (Hl : loader <> []) by (intros ->; discriminate).
  rewrite (obtain_label_eq fit loader cfg Hl) in E. cbv zeta in E.
  fold N in E.
  destruct (N =? 0)%nat eqn:E0; [discriminate|].
  destruct (negb _); [discriminate|].
  destruct (N <? 2)%nat; [discriminate|].
  destruct (refined_of fit loader cfg) as [pl|e] eqn:Er; [|discriminate].
  cbn [bind] in E. injection E as <-.
  cbn [before_acc after_acc].
  apply Nat.eqb_neq in E0.
  assert (HN : 0 < INR N) by (apply lt_0_INR; lia).
  assert (Hk : (0 < known)%nat).
  { unfold known. destruct (known_idx_of fit loader cfg) eqn:Ek; [|cbn; lia].
    exfalso. unfold refined_of in Er. cbv zeta in Er. apply refine_inv in Er.
    destruct Er as (Hne & _). apply Hne.
    fold (LabelSet_of fit loader cfg).
    apply LabelSet_of_no_known; assumption. }
  split; [|split; [exact Hk|]].
  - pose proof (count_eq_le (predict_of loader) (map labels (concat loader))) as Hc.
    rewrite length_map in Hc. fold N in Hc. apply le_INR in Hc.
    pose proof (pos_INR (count_eq (predict_of loader) (map labels (concat loader)))).
    split.
    + apply Rmult_le_pos; [assumption|]. left. now apply Rinv_0_lt_compat.
    + apply (Rmult_le_reg_r (INR N)); [exact HN|]. 
      unfold Rdiv. rewrite Rmult_assoc, Rinv_l by lra. lra.
  - unfold take. rewrite length_map. fold known. unfold np_div.
    destruct (Nat.eqb_spec known 0); [lia|].
    assert (HK : 0 < INR known) by (apply lt_0_INR; lia).
    eexists. split; [reflexivity|].
    set (g := guess_label_of _ _ _ _).
    pose proof (count_eq_le g (map labels (concat loader))) as Hc.
    rewrite length_map in Hc. fold N in Hc. apply le_INR in Hc.
    pose proof (pos_INR (count_eq g (map labels (concat loader)))).
    split.
    + apply Rmult_le_pos; [assumption|]. left. now apply Rinv_0_lt_compat.
    + unfold Rdiv. rewrite Rmult_assoc, Rinv_l by lra. lra.
Qed.

Lemma logged_accuracies_witness :
  exists out a,
    obtain_label fit_two loader_two cfg_default = Ok out
    /\ 0 <= before_acc out <= 1
    /\ after_acc out = Some a
    /\ a * INR (List.length (known_idx_of fit_two loader_two cfg_default))
       <= INR (List.length (concat loader_two)).
Proof.
  destruct obtain_label_two as (out & E & _).
  destruct (logged_accuracies fit_two loader_two cfg_default out E
              ltac:(simpl; lra)) as (Hb & _ & a & Ha & _ & Hle).
  exists out, a. repeat split; try assumption; apply Hb.
Defined.

(** * The refinement loop and the pseudo-labels, by what they compute *)

(** ** Nearest prototype *)

Lemma argmin_from_first_least (l : list float) :
  forall (prefix : list float) (besti : nat),
    first_least prefix besti ->
    first_least (prefix ++ l)
                (argmin_from (nth besti prefix None) besti (List.length prefix) l).
Proof.
  induction l as [|x t IH]; intros prefix besti H.
  - cbn [argmin_from]. now rewrite app_nil_r.
  - cbn [argmin_from].
    replace (prefix ++ x :: t) with ((prefix ++ [x]) ++ t)
      by (now rewrite <- app_assoc).
    destruct H as [Hb Hm].
    destruct (float_lt_min x (nth besti prefix None)) eqn:E.
    + specialize (IH (prefix ++ [x]) (List.length prefix)).
      rewrite nth_middle, length_app in IH. cbn [List.length] in IH.
      rewrite Nat.add_1_r in IH. apply IH. clear IH.
      split; [rewrite length_app; cbn [List.length]; lia|].
      rewrite nth_middle.
      destruct x as [x|], (nth besti prefix None) as [b|] eqn:Eb;
        cbn [float_lt_min] in E; try discriminate.
      * apply Rltb_true in E. destruct Hm as [Hall Hfirst]. split.
        -- intros q Hq. rewrite length_app in Hq. cbn [List.length] in Hq.
           destruct (Nat.eq_dec q (List.length prefix)) as [->|Hne].
           ++ rewrite nth_middle. exists x. split; [reflexivity|lra].
           ++ rewrite app_nth1 by lia.
              destruct (Hall q ltac:(lia)) as (y & Hy & Hle).
              exists y. split; [exact Hy|lra].
        -- intros q Hq. rewrite app_nth1 by lia.
           destruct (Hall q Hq) as (y & Hy & Hle).
           exists y. split; [exact Hy|lra].
      * destruct Hm as [Hall _]. intros q Hq. rewrite app_nth1 by lia.
        destruct (Hall q Hq) as (y & -> & _). discriminate.
    + specialize (IH (prefix ++ [x]) besti).
      rewrite app_nth1, length_app in IH by lia. cbn [List.length] in IH.
      rewrite Nat.add_1_r in IH. apply IH. clear IH.
      split; [rewrite length_app; lia|].
      rewrite app_nth1 by lia.
      destruct (nth besti prefix None) as [b|] eqn:Eb.
      * destruct x as [x|]; cbn [float_lt_min] in E; [|discriminate].
        apply Rltb_false in E. destruct Hm as [Hall Hfirst]. split.
        -- intros q Hq. rewrite length_app in Hq. cbn [List.length] in Hq.
           destruct (Nat.eq_dec q (List.length prefix)) as [->|Hne].
           ++ rewrite nth_middle. exists x. split; [reflexivity|lra].
           ++ rewrite app_nth1 by lia. apply Hall. lia.
        -- intros q Hq. rewrite app_nth1 by lia. apply Hfirst. exact Hq.
      * intros q Hq. rewrite app_nth1 by lia. apply Hm. exact Hq.
Qed.

Lemma argmin_first_least (row : list float) :
  row <> [] -> first_least row (argmin row).
Proof.
  destruct row as [|x t]; [congruence|]. intros _. unfold argmin.
  apply (argmin_from_first_least t [x] 0%nat).
  split; [cbn; lia|]. cbn [nth].
  destruct x as [x|].
  - split.
    + intros [|q] Hq; [|cbn in Hq; lia]. exists x. split; [reflexivity|lra].
    + intros q Hq. lia.
  - intros q Hq. lia.
Qed.

Lemma first_least_unique (row : list float) (p q : nat) :
  first_least row p -> first_least row q -> p = q.
Proof.
  intros [Hp Mp] [Hq Mq].
  destruct (nth p row None) as [x|] eqn:Ep, (nth q row None) as [y|] eqn:Eq.
  - destruct Mp as [Pall Pfirst], Mq as [Qall Qfirst].
    destruct (Nat.lt_trichotomy p q) as [H|[H|H]]; [|exact H|].
    + destruct (Qfirst p H) as (z & Hz & Hlt). rewrite Ep in Hz.
      injection Hz as <-. destruct (Pall q Hq) as (z & Hz & Hle).
      rewrite Eq in Hz. injection Hz as <-. lra.
    + destruct (Pfirst q H) as (z & Hz & Hlt). rewrite Eq in Hz.
      injection Hz as <-. destruct (Qall p Hp) as (z & Hz & Hle).
      rewrite Ep in Hz. injection Hz as <-. lra.
  - destruct Mp as [Pall _]. destruct (Pall q Hq) as (z & Hz & _). congruence.
  - destruct Mq as [Qall _]. destruct (Qall p Hp) as (z & Hz & _). congruence.
  - destruct (Nat.lt_trichotomy p q) as [H|[H|H]]; [|exact H|].
    + elim (Mq p H). exact Ep.
    + elim (Mp q H). exact Eq.
Qed.

Lemma assign_nearest (m : metric) (all_fea initc : matrix)
  (labelset pl : list nat) :
  assign m all_fea initc labelset = Ok pl ->
  nearest_assignment m all_fea initc labelset pl.
Proof.
  intros E. destruct (assign_inv m all_fea initc labelset pl E) as (Hne & Hlen & _).
  split; [exact Hlen|]. intros i Hi.
  unfold assign, argmin_axis1 in E.
  destruct (List.length labelset =? 0)%nat; [discriminate|].
  cbn [bind] in E. injection E as <-.
  unfold take, cdist. rewrite !map_map.
  exists (argmin (map (fun c => dist m (nth i all_fea []) (nth c initc []))
                      labelset)).
  split.
  - rewrite (nth_indep _ 0%nat
               ((fun a => nth (argmin (map (fun b => dist m a b)
                                          (map (fun c => nth c initc []) labelset)))
                              labelset 0%nat) []))
      by (now rewrite length_map).
    rewrite (map_nth (fun a => nth (argmin (map (fun b => dist m a b)
                                      (map (fun c => nth c initc []) labelset)))
                                   labelset 0%nat)).
    now rewrite map_map.
  - apply argmin_first_least. destruct labelset; [congruence|discriminate].
Qed.

Lemma nearest_assignment_unique (m : metric) (all_fea protos : matrix)
  (labelset pl pl' : list nat) :
  nearest_assignment m all_fea protos labelset pl ->
  nearest_assignment m all_fea protos labelset pl' ->
  pl = pl'.
Proof.
  intros [L1 H1] [L2 H2]. apply (nth_ext _ _ 0%nat 0%nat); [congruence|].
  intros i Hi. rewrite L1 in Hi.
  destruct (H1 i Hi) as (p & -> & Fp), (H2 i Hi) as (q & -> & Fq).
  now rewrite (first_least_unique _ p q Fp Fq).
Qed.

Lemma length_build_initc (K d : nat) (aff all_fea : matrix) :
  List.length (build_initc K d aff all_fea) = K.
Proof. unfold build_initc. now rewrite length_map, length_seq. Qed.

Lemma build_initc_weighted (K d : nat) (aff all_fea : matrix) :
  Forall (fun x => List.length x = d) all_fea ->
  weighted_prototypes K d aff all_fea (build_initc K d aff all_fea).
Proof.
  intros F. split; [apply length_build_initc|]. intros k Hk. split.
  - unfold build_initc, matrix, vec in *.
    rewrite nth_map_seq by assumption. cbv zeta.
    rewrite length_map. now apply length_weighted_sum.
  - intros j Hj. rewrite (build_initc_nth K d k j aff all_fea Hk Hj F).
    unfold column. reflexivity.
Qed.

Lemma build_initc_members (K d : nat) (pl : list nat) (all_fea : matrix) :
  Forall (fun x => List.length x = d) all_fea ->
  List.length pl = List.length all_fea ->
  member_prototypes K d pl all_fea (build_initc K d (eye_rows K pl) all_fea).
Proof.
  intros F Hlen.
  destruct (build_initc_weighted K d (eye_rows K pl) all_fea F) as [HL HP].
  split; [exact HL|]. intros k Hk. destruct (HP k Hk) as [Hd Hf].
  split; [exact Hd|]. intros j Hj. rewrite (Hf j Hj).
  destruct (hard_weights_sum K k j pl Hk all_fea Hlen) as [H1 H2].
  unfold column in H2. unfold members. now rewrite H1, H2.
Qed.

Lemma weighted_prototypes_unique (K d : nat) (aff all_fea P Q : matrix) :
  weighted_prototypes K d aff all_fea P ->
  weighted_prototypes K d aff all_fea Q -> P = Q.
Proof.
  intros [LP HP] [LQ HQ]. unfold matrix, vec in *.
  apply (nth_ext _ _ [] []); [congruence|].
  intros k Hk. rewrite LP in Hk.
  destruct (HP k Hk) as [Lp Fp], (HQ k Hk) as [Lq Fq].
  apply (nth_ext _ _ 0 0); [congruence|].
  intros j Hj. rewrite Lp in Hj. now rewrite Fp, Fq.
Qed.

Lemma member_prototypes_unique (K d : nat) (pl : list nat)
  (all_fea P Q : matrix) :
  member_prototypes K d pl all_fea P ->
  member_prototypes K d pl all_fea Q -> P = Q.
Proof.
  intros [LP HP] [LQ HQ]. unfold matrix, vec in *.
  apply (nth_ext _ _ [] []); [congruence|].
  intros k Hk. rewrite LP in Hk.
  destruct (HP k Hk) as [Lp Fp], (HQ k Hk) as [Lq Fq].
  apply (nth_ext _ _ 0 0); [congruence|].
  intros j Hj. rewrite Lp in Hj. now rewrite Fp, Fq.
Qed.

(** The two passes of [refine], by what they compute. *)
Lemma refine_two_passes (m : metric) (thr : R) (K d : nat)
  (all_fea all_output : matrix) (pred : list nat) :
  Forall (fun x => List.length x = d) all_fea ->
  labelset_of K thr pred <> [] ->
  exists P0 pl0 P1 pl1,
    weighted_prototypes K d all_output all_fea P0
    /\ nearest_assignment m all_fea P0 (labelset_of K thr pred) pl0
    /\ member_prototypes K d pl0 all_fea P1
    /\ nearest_assignment m all_fea P1 (labelset_of K thr pred) pl1
    /\ refine m thr K d all_fea all_output pred = Ok pl1.
Proof.
  intros F Hne. rewrite refine_eq. cbv zeta.
  destruct (assign_Ok m all_fea (build_initc K d all_output all_fea) _ Hne)
    as (pl0 & E0 & L0 & _).
  destruct (assign_Ok m all_fea (build_initc K d (eye_rows K pl0) all_fea) _ Hne)
    as (pl1 & E1 & _).
  exists (build_initc K d all_output all_fea), pl0,
         (build_initc K d (eye_rows K pl0) all_fea), pl1.
  split; [now apply build_initc_weighted|].
  split; [now apply assign_nearest|].
  split; [now apply build_initc_members|].
  split; [now apply assign_nearest|].
  rewrite E0. cbn [bind]. exact E1.
Qed.




(** ** A pass of four samples *)







(** ** Number of refinement rounds *)

(** C9 (amended).  On feature vectors of a common dimension, with the
    Euclidean or the cosine metric, the refinement pass is a fixed sequence:
    with an empty LabelSet the initial assignment raises ValueError and no
    round is run; otherwise the initial soft-prototype pass is followed by
    exactly one round of Prototype Builder (prototypes of the hard labels of
    the initial pass) and Nearest-Prototype Assigner, whose assignment is
    returned and is the only one so obtained.  The round count is the
    literal 1 of the code, not a setting: the engine is the spec's loop with
    one round, whatever is configured; there is no convergence check. *)
Theorem refinement_runs_one_round (m : metric) (thr : R) (K d : nat)
  (all_fea all_output : matrix) (pred : list nat) :
  Forall (fun x => List.length x = d) all_fea ->
  let labelset := labelset_of K thr pred in
  (labelset = [] ->
   refine m thr K d all_fea all_output pred = Raise ValueError_argmin)
  /\ (labelset <> [] ->
      exists P0 pl0 P1 pl1,
        weighted_prototypes K d all_output all_fea P0
        /\ nearest_assignment m all_fea P0 labelset pl0
        /\ member_prototypes K d pl0 all_fea P1
        /\ nearest_assignment m all_fea P1 labelset pl1
        /\ refine m thr K d all_fea all_output pred = Ok pl1
        /\ forall Q0 ql0 Q1 ql1,
             weighted_prototypes K d all_output all_fea Q0 ->
             nearest_assignment m all_fea Q0 labelset ql0 ->
             member_prototypes K d ql0 all_fea Q1 ->
             nearest_assignment m all_fea Q1 labelset ql1 ->
             ql1 = pl1)
  /\ refine m thr K d all_fea all_output pred
     = refinement_loop_spec 1 m thr K d all_fea all_output pred.
Proof.
  intros F labelset. split; [|split].
  - intros E. now apply refine_nil.
  - intros Hne.
    destruct (refine_two_passes m thr K d all_fea all_output pred F Hne)
      as (P0 & pl0 & P1 & pl1 & H0 & H1 & H2 & H3 & E).
    exists P0, pl0, P1, pl1. repeat (split; [assumption|]).
    intros Q0 ql0 Q1 ql1 G0 G1 G2 G3.
    rewrite (weighted_prototypes_unique _ _ _ _ _ _ G0 H0) in G1.
    rewrite (nearest_assignment_unique _ _ _ _ _ _ G1 H1) in G2.
    rewrite (member_prototypes_unique _ _ _ _ _ _ G2 H2) in G3.
    exact (nearest_assignment_unique _ _ _ _ _ _ G3 H3).
  - reflexivity.
Qed.

Lemma labelset_five : labelset_of 2 0 pred_five = [0; 1]%nat.
Proof.
  unfold labelset_of, cls_count, eye_rows, column, np_where, pred_five.
  cbn [map seq nth Nat.eqb where_from]. unfold sum; cbn [fold_right].
  eval_Rcmp. reflexivity.
Qed.

Lemma initc_five_soft :
  build_initc 2 1 probs_five fea_five
  = [[41 / 10 / (1e-8 + 13 / 10)]; [369 / 10 / (1e-8 + 37 / 10)]].
Proof.
  unfold build_initc, weighted_sum, column, vadd, vscale, probs_five, fea_five.
  cbn [map seq nth combine fold_right repeat fst snd].
  unfold sum; cbn [fold_right].
  f_equal; [|f_equal]; f_equal; f_equal; lra.
Qed.

Lemma initc_five_round1 :
  build_initc 2 1 (eye_rows 2 [0; 0; 1; 1; 1]%nat) fea_five
  = [[6 / (1e-8 + 2)]; [35 / (1e-8 + 3)]].
Proof.
  unfold build_initc, weighted_sum, column, vadd, vscale, eye_rows, fea_five.
  cbn [map seq nth combine fold_right repeat fst snd Nat.eqb].
  unfold sum; cbn [fold_right].
  f_equal; [|f_equal]; f_equal; f_equal; lra.
Qed.

Lemma initc_five_round2 :
  build_initc 2 1 (eye_rows 2 [0; 0; 0; 1; 1]%nat) fea_five
  = [[13 / (1e-8 + 3)]; [28 / (1e-8 + 2)]].
Proof.
  unfold build_initc, weighted_sum, column, vadd, vscale, eye_rows, fea_five.
  cbn [map seq nth combine fold_right repeat fst snd Nat.eqb].
  unfold sum; cbn [fold_right].
  f_equal; [|f_equal]; f_equal; f_equal; lra.
Qed.

Lemma assign_five_soft :
  assign euclidean fea_five (build_initc 2 1 probs_five fea_five)
         (labelset_of 2 0 pred_five) = Ok [0; 0; 1; 1; 1]%nat.
Proof.
  rewrite labelset_five, initc_five_soft.
  change fea_five with (map (fun x => [x]) [0; 6; 7; 8; 20]).
  rewrite assign_line. cbn [map]. eval_Rcmp. reflexivity.
Qed.

Lemma assign_five_round1 :
  assign euclidean fea_five
         (build_initc 2 1 (eye_rows 2 [0; 0; 1; 1; 1]%nat) fea_five)
         (labelset_of 2 0 pred_five) = Ok [0; 0; 0; 1; 1]%nat.
Proof.
  rewrite labelset_five, initc_five_round1.
  change fea_five with (map (fun x => [x]) [0; 6; 7; 8; 20]).
  rewrite assign_line. cbn [map]. eval_Rcmp. reflexivity.
Qed.

Lemma assign_five_round2 :
  assign euclidean fea_five
         (build_initc 2 1 (eye_rows 2 [0; 0; 0; 1; 1]%nat) fea_five)
         (labelset_of 2 0 pred_five) = Ok [0; 0; 0; 0; 1]%nat.
Proof.
  rewrite labelset_five, initc_five_round2.
  change fea_five with (map (fun x => [x]) [0; 6; 7; 8; 20]).
  rewrite assign_line. cbn [map]. eval_Rcmp. reflexivity.
Qed.

(** C9 as stated fails: the number of rounds is not a configured value.  A
    loop configured for two additional rounds ends on [fea_five] with the
    labels (0, 0, 0, 0, 1); the engine, which reads no round count and runs
    one round, returns (0, 0, 0, 1, 1). *)
Lemma round_count_not_configurable :
  map argmax probs_five = pred_five
  /\ refinement_loop_spec 2 euclidean 0 2 1 fea_five probs_five pred_five
     = Ok [0; 0; 0; 0; 1]%nat
  /\ refine euclidean 0 2 1 fea_five probs_five pred_five
     = Ok [0; 0; 0; 1; 1]%nat.
Proof.
  split; [|split].
  - unfold probs_five, pred_five, argmax. cbn [map argmax_from].
    eval_Rcmp. reflexivity.
  - unfold refinement_loop_spec. cbv zeta. rewrite assign_five_soft.
    cbn [bind for_range]. unfold round_body at 1. cbv zeta.
    rewrite assign_five_round1. cbn [bind]. unfold round_body. cbv zeta.
    rewrite assign_five_round2. reflexivity.
  - rewrite refine_eq. cbv zeta. rewrite assign_five_soft. cbn [bind].
    exact assign_five_round1.
Qed.

Lemma refinement_runs_one_round_witness :
  exists P0 P1,
    weighted_prototypes 2 1 probs_five fea_five P0
    /\ nearest_assignment euclidean fea_five P0 [0; 1]%nat [0; 0; 1; 1; 1]%nat
    /\ member_prototypes 2 1 [0; 0; 1; 1; 1]%nat fea_five P1
    /\ nearest_assignment euclidean fea_five P1 [0; 1]%nat [0; 0; 0; 1; 1]%nat
    /\ refine euclidean 0 2 1 fea_five probs_five pred_five
       = Ok [0; 0; 0; 1; 1]%nat.
Proof.
  destruct (refinement_runs_one_round euclidean 0 2 1 fea_five probs_five
              pred_five ltac:(repeat constructor)) as (_ & H & _).
  rewrite labelset_five in H.
  destruct (H ltac:(discriminate))
    as (P0 & pl0 & P1 & pl1 & H0 & H1 & H2 & H3 & E & _).
  pose proof assign_five_soft as A0. rewrite labelset_five in A0.
  apply assign_nearest in A0.
  rewrite (weighted_prototypes_unique _ _ _ _ _ _
             (build_initc_weighted 2 1 probs_five fea_five
                ltac:(repeat constructor)) H0) in A0.
  pose proof (nearest_assignment_unique _ _ _ _ _ _ H1 A0) as ->.
  pose proof assign_five_round1 as A1. rewrite labelset_five in A1.
  apply assign_nearest in A1.
  rewrite (member_prototypes_unique _ _ _ _ _ _
             (build_initc_members 2 1 [0; 0; 1; 1; 1]%nat fea_five
                ltac:(repeat constructor) eq_refl) H2) in A1.
  pose proof (nearest_assignment_unique _ _ _ _ _ _ H3 A1) as ->.
  exists P0, P1. repeat (split; [assumption|]). exact E.
Defined.
